(** * hsd-axfr: a shallow embedding of [lib/axfr.js] and [lib/client.js]

    The development follows the JavaScript sources: the AXFR client
    ([AXFRClient], [AXFRQuery]), the zone validator ([AXFRValidator]), the
    outbound chunk writer ([MessageWriter]) and the plugin that drives them
    ([Plugin.pickRRs], [Plugin.sendAXFR]).

    Conventions.
    - JavaScript numbers that count or index are [Z]; buffers are
      [list byte]; strings are [string].
    - A JavaScript [Map] or [Set] iterates in insertion order, and the code
      relies on it ([for (const [name, owner] of this.owners)]), so both are
      association lists / duplicate-free lists that keep insertion order.
    - A [throw] is the [Throw] outcome of the [result] monad.
    - The functions of the [bns] package that are pure list or string
      helpers ([util.hasType], [util.filterSet], ...) are written out in
      [Module util]; its wire codec, its size computation and its DNSSEC
      verifier are parameters of the definitions that call them. The one
      error of the codec the sources can run into, the size limit of
      [msg.compress()], is written out ([Message_compress]). *)

From Stdlib Require Import List String Ascii Strings.Byte ZArith Bool Lia Arith.
Import ListNotations.
Local Open Scope Z_scope.

(** ** Outcomes *)

(** The [Error] values the sources throw, one constructor per message. *)
Inductive Error : Type :=
| MalformedPacket                       (* 'Malformed packet received' *)
| DecodeFailure                         (* thrown inside Message.decode *)
| IdMismatch                            (* 'Message id does not match' *)
| EmptyMessage                          (* 'Empty message' *)
| FirstNotSOA                           (* 'First record must be SOA' *)
| TransferTooLarge (max : Z)            (* 'Transfer is too large (max messages: ..)' *)
| TimedOut                              (* 'Timed out' *)
| ClosedUnexpectedly                    (* 'Closed unexpectedly' *)
| SocketError (e : string)              (* the socket's 'error' event *)
| BogusNSEC3                            (* 'bogus: NSEC3 not supported' *)
| BogusUnableToValidate (name : string) (* 'bogus: unable to validate zone data for ' + name *)
| BogusInvalidData                      (* 'bogus: invalid data' *)
| BogusNSECMustExist (name : string)    (* 'bogus: NSEC must exist for ' + name *)
| BogusBadChain                         (* 'bogus: bad NSEC chain' *)
| BogusMissingType (type : Z) (name : string)
                                        (* 'bogus: could not find type ' + type + ' for ' + name *)
| BogusNoNSInBitmap (name : string)     (* 'bogus: claim to have a delegation yet no NS ...' *)
| TypeError                             (* a property read on a value that lacks it *)
| UnableToWrite                         (* 'unable to write message' *)
| UnableToLoad                          (* 'unable to load icann root zone' *)
| NoZoneData                            (* 'no zone data' *)
| MessageExceedsSizeLimits.             (* 'Message exceeds size limits.', thrown inside msg.compress() *)

(** An error is classified bogus when its message starts with ['bogus:']. *)
Definition is_bogus (e : Error) : bool :=
  match e with
  | BogusNSEC3 | BogusUnableToValidate _ | BogusInvalidData
  | BogusNSECMustExist _ | BogusBadChain | BogusMissingType _ _
  | BogusNoNSInBitmap _ => true
  | _ => false
  end.

Inductive result (A : Type) : Type :=
| Ok (a : A)
| Throw (e : Error).
Arguments Ok {A} a.
Arguments Throw {A} e.

Definition bind {A B : Type} (m : result A) (k : A -> result B) : result B :=
  match m with
  | Ok a => k a
  | Throw e => Throw e
  end.

Notation "x <- m ;; k" := (bind m (fun x => k))
  (at level 61, m at next level, right associativity).
Notation "m ;;; k" := (bind m (fun _ => k))
  (at level 61, right associativity).

(** [assert(cond, msg)] of client.js. *)
Definition assert (cond : bool) (msg : Error) : result unit :=
  if cond then Ok tt else Throw msg.

(** ** bns: record types, records, messages *)

Module types.
Definition A : Z := 1.
Definition NS : Z := 2.
Definition SOA : Z := 6.
Definition AAAA : Z := 28.
Definition RRSIG : Z := 46.
Definition NSEC : Z := 47.
Definition NSEC3 : Z := 50.
Definition AXFR : Z := 252.
End types.

Module codes.
Definition NOERROR : Z := 0.
Definition REFUSED : Z := 5.
End codes.

(** [constants] of bns. *)
Module constants.
Definition MAX_MSG_SIZE : Z := 65535.
End constants.

(** The part of a record's data the sources read: [rr.data.ns] of an NS
    record, [rr.data.nextDomain] and [rr.data.getTypes()] of an NSEC record.
    Every other data is opaque. *)
Inductive RecordData : Type :=
| NSRecord (ns : string)
| NSECRecord (nextDomain : string) (typeBitmap : list Z)
| OpaqueRecord (rd : list byte).

Record RR : Type := mkRR {
  rr_name : string;
  rr_type : Z;
  rr_data : RecordData
}.

Record Question : Type := mkQuestion {
  qs_name : string;
  qs_type : Z
}.

Record Message : Type := mkMessage {
  msg_id : Z;
  msg_qr : bool;
  msg_code : Z;
  question : list Question;
  answer : list RR
}.

(** [new Message()]. *)
Definition new_Message : Message :=
  {| msg_id := 0; msg_qr := false; msg_code := codes.NOERROR;
     question := []; answer := [] |}.

(** [msg.setReply(req)] of bns: the reply carries the id and the first
    question of the request. *)
Definition setReply (m req : Message) : Message :=
  {| msg_id := msg_id req; msg_qr := true; msg_code := codes.NOERROR;
     question := firstn 1 (question req); answer := answer m |}.

Definition set_answer (m : Message) (rrs : list RR) : Message :=
  {| msg_id := msg_id m; msg_qr := msg_qr m; msg_code := msg_code m;
     question := question m; answer := rrs |}.

Definition set_code (m : Message) (c : Z) : Message :=
  {| msg_id := msg_id m; msg_qr := msg_qr m; msg_code := c;
     question := question m; answer := answer m |}.

(** [rr.data.ns]; [None] is JavaScript's [undefined]. *)
Definition data_ns (d : RecordData) : option string :=
  match d with
  | NSRecord ns => Some ns
  | _ => None
  end.

(** [rr.data.nextDomain] and [rr.data.getTypes()], read together by
    [verifyNSEC]; calling [getTypes] on data that has no such method is a
    TypeError. *)
Definition data_nsec (d : RecordData) : option (string * list Z) :=
  match d with
  | NSECRecord next bitmap => Some (next, bitmap)
  | _ => None
  end.

Definition len {A : Type} (l : list A) : Z := Z.of_nat (List.length l).

(** ** Buffers *)

Module Buffer.

(** [Buffer.allocUnsafe(n)]: [n] bytes of unspecified content, given here by
    [junk]. *)
Definition allocUnsafe (junk : nat -> byte) (n : Z) : list byte :=
  map junk (seq 0 (Z.to_nat n)).

(** [b.slice(start, end)] for [0 <= start] and [0 <= end]; an [end] past the
    length is clamped as Node does. *)
Definition slice (b : list byte) (start end_ : Z) : list byte :=
  firstn (Z.to_nat (end_ - start)) (skipn (Z.to_nat start) b).

(** [b.readUInt16BE(off)]. *)
Definition readUInt16BE (b : list byte) (off : Z) : Z :=
  let at_ (i : Z) := Z.of_N (Byte.to_N (nth (Z.to_nat i) b x00)) in
  at_ off * 256 + at_ (off + 1).

(** [src.copy(target, targetStart, sourceStart, sourceEnd)]: the bytes
    [src[sourceStart .. sourceEnd)] overwrite [target] from [targetStart];
    only as many as fit are copied. The result is the new [target]. *)
Definition copy (src target : list byte) (targetStart sourceStart sourceEnd : Z)
  : list byte :=
  let room := len target - targetStart in
  let chunk := firstn (Z.to_nat room) (slice src sourceStart sourceEnd) in
  firstn (Z.to_nat targetStart) target ++ chunk
    ++ skipn (Z.to_nat targetStart + List.length chunk) target.

End Buffer.

Definition MAX_MESSAGE_SIZE : Z := 65535.

(** ** bns: [util] *)

Module util.

(** [util.hasType(records, type)]. *)
Definition hasType (records : list RR) (type : Z) : bool :=
  existsb (fun rr => rr_type rr =? type) records.

(** [util.filterSet(records, ...types)]: the records whose type is none of
    [types], in order. *)
Definition filterSet (records : list RR) (types : list Z) : list RR :=
  filter (fun rr => negb (existsb (Z.eqb (rr_type rr)) types)) records.

(** [x |= 0x20] for the code points [0x41 .. 0x5a]. *)
Definition lower (c : ascii) : ascii :=
  let n := nat_of_ascii c in
  if ((65 <=? n) && (n <=? 90))%nat then ascii_of_nat (n + 32) else c.

(** [util.equal(a, b)]: equality of names up to ASCII case. *)
Fixpoint equal (a b : string) : bool :=
  match a, b with
  | EmptyString, EmptyString => true
  | String x a', String y b' => Ascii.eqb (lower x) (lower y) && equal a' b'
  | _, _ => false
  end.

(** [util.extractSet(records, name, ...types)]: the records of one of
    [types] whose owner equals [name] (every owner when [name] is empty).
    The wildcard type ANY, which the sources never pass, is left out. *)
Definition extractSet (records : list RR) (name : string) (types : list Z)
  : list RR :=
  filter (fun rr =>
            existsb (Z.eqb (rr_type rr)) types
            && (String.eqb name "" || equal (rr_name rr) name))
         records.

(** Number of backslashes that end [s], read from the reversed string. *)
Fixpoint leading_backslashes (rev_s : list ascii) : nat :=
  match rev_s with
  | c :: rest => if Ascii.eqb c "\" then S (leading_backslashes rest) else O
  | [] => O
  end.

(** [util.isFQDN(s)]: [s] ends in a dot that is not escaped. *)
Definition isFQDN (s : string) : bool :=
  match rev (list_ascii_of_string s) with
  | c :: rest => Ascii.eqb c "." && Nat.even (leading_backslashes rest)
  | [] => false
  end.

(** [util.fqdn(s)]. *)
Definition fqdn (s : string) : string :=
  if isFQDN s then s else (s ++ ".")%string.

(** The offsets that follow an unescaped dot of [s], the last character of
    [s] left out, as [util.nextLabel] finds them; [i] is the offset of the
    head of [s]. *)
Fixpoint label_offsets (s : string) (i : nat) (escaped : bool) : list nat :=
  match s with
  | EmptyString => []
  | String c rest =>
      match rest with
      | EmptyString => []
      | _ =>
          if Ascii.eqb c "\" then label_offsets rest (S i) (negb escaped)
          else if Ascii.eqb c "." then
                 if escaped then label_offsets rest (S i) false
                 else S i :: label_offsets rest (S i) false
          else label_offsets rest (S i) false
      end
  end.

(** [util.split(name)]: the offset of every label of [name]. *)
Definition split (name : string) : list nat :=
  if String.eqb name "." then [] else O :: label_offsets name O false.

(** [util.from(name, index)]: [name] from its label number [index] on; a
    negative [index] counts from the last label. When [index] stays negative
    [labels[index]] is [undefined] and [substring] returns all of [name]. *)
Definition from (name : string) (index : Z) : string :=
  let labels := split name in
  let index := if index <? 0 then index + len labels else index in
  if index >=? len labels then ""%string
  else if index <? 0 then name
  else match nth_error labels (Z.to_nat index) with
       | Some off => substring off (String.length name - off) name
       | None => name
       end.

End util.

(** ** client.js: [AXFRQuery] *)

(** The fields of an in-flight query that [read] uses. [this.socket],
    [this.resolve] and [this.reject] are the transport: the promise resolves
    with [msgs] once [ok] is set and rejects with the error [read] throws. *)
Record AXFRQuery : Type := mkQuery {
  buf : list byte;
  target : Z;
  size : Z;
  id : Z;
  msgs : list Message;
  ok : bool;
  maxMessages : Z
}.

(** The constructor followed by the id drawn on connect ([this.id = util.id()]). *)
Definition new_AXFRQuery (junk : nat -> byte) (id maxMessages : Z) : AXFRQuery :=
  {| buf := Buffer.allocUnsafe junk MAX_MESSAGE_SIZE;
     target := 0; size := 0; id := id; msgs := []; ok := false;
     maxMessages := maxMessages |}.

Definition last_type (rrs : list RR) : Z :=
  rr_type (List.last rrs (mkRR "" 0 (OpaqueRecord []))).

Definition first_type (rrs : list RR) : Z :=
  rr_type (List.hd (mkRR "" 0 (OpaqueRecord [])) rrs).

Section Read.

(** [Message.decode] of bns; [None] when it throws. *)
Variable decode : list byte -> option Message.

(** [AXFRQuery.read(data)]. The recursive call [this.read(remaining)] is on a
    strictly shorter buffer; [fuel] bounds the depth, and [None] means the
    bound was too small. *)
Fixpoint read (fuel : nat) (q : AXFRQuery) (data : list byte)
  : option (result AXFRQuery) :=
  match fuel with
  | O => None
  | S fuel' =>
    (* if (this.target === 0) { assert(data.length > 1); target = ...; off = 2 } *)
    let header :=
      if target q =? 0 then
        assert (len data >? 1) MalformedPacket ;;;
        Ok (Buffer.readUInt16BE data 0, 2)
      else Ok (target q, 0) in
    match header with
    | Throw e => Some (Throw e)
    | Ok (target1, off) =>
      let data := Buffer.slice data off (len data) in
      (* write length exceeds target *)
      let exceeds := size q + len data >? target1 in
      let writeLength := if exceeds then target1 - size q else len data in
      let remaining :=
        if exceeds then Some (Buffer.slice data writeLength (len data))
        else None in
      let buf1 := Buffer.copy data (buf q) (size q) 0 writeLength in
      let size1 := size q + writeLength in
      let q1 := {| buf := buf1; target := target1; size := size1; id := id q;
                   msgs := msgs q; ok := ok q; maxMessages := maxMessages q |} in
      if size1 =? target1 then
        match decode (Buffer.slice buf1 0 target1) with
        | None => Some (Throw DecodeFailure)
        | Some msg =>
          let checks :=
            assert (msg_id msg =? id q) IdMismatch ;;;
            assert (negb (len (answer msg) =? 0)) EmptyMessage ;;;
            (if len (msgs q) =? 0
             then assert (first_type (answer msg) =? types.SOA) FirstNotSOA
             else Ok tt) ;;;
            (if len (msgs q) + 1 >? maxMessages q
             then Throw (TransferTooLarge (maxMessages q))
             else Ok tt) in
          match checks with
          | Throw e => Some (Throw e)
          | Ok _ =>
            let msgs1 := msgs q ++ [msg] in
            if last_type (answer msg) =? types.SOA then
              Some (Ok {| buf := buf1; target := target1; size := size1;
                          id := id q; msgs := msgs1; ok := true;
                          maxMessages := maxMessages q |})
            else
              let q2 := {| buf := buf1; target := 0; size := 0; id := id q;
                           msgs := msgs1; ok := ok q;
                           maxMessages := maxMessages q |} in
              match remaining with
              | Some rest => read fuel' q2 rest
              | None => Some (Ok q2)
              end
          end
        end
      else
        match remaining with
        | Some rest => read fuel' q1 rest
        | None => Some (Ok q1)
        end
    end
  end.

(** One ['data'] event of [init]: [read] runs with enough fuel for the chunk. *)
Definition on_data (q : AXFRQuery) (data : list byte) : option (result AXFRQuery) :=
  read (S (List.length data)) q data.

(** The ['data'] events of one attempt, in order. An exception destroys the
    socket and rejects; once [ok] is set the socket is destroyed, so later
    chunks are never delivered. *)
Fixpoint deliver (q : AXFRQuery) (chunks : list (list byte))
  : option (result AXFRQuery) :=
  match chunks with
  | [] => Some (Ok q)
  | data :: rest =>
      match on_data q data with
      | Some (Ok q') => if ok q' then Some (Ok q') else deliver q' rest
      | other => other
      end
  end.

End Read.

(** ** client.js: [AXFRClient] *)

Record Server : Type := mkServer {
  host : string;
  port : Z
}.

(** The [options] object of the constructor; [None] is a missing property.
    The logger is the list of warnings [query] returns. *)
Record ClientOptions : Type := mkOptions {
  opt_servers : option (list string);
  opt_maxAttempts : option Z;
  opt_maxTimeout : option Z;
  opt_maxMessages : option Z
}.

(** [servers] is [None] while [this.servers] is [null]. *)
Record AXFRClient : Type := mkClient {
  index : Z;
  maxAttempts : Z;
  maxTimeout : Z;
  client_maxMessages : Z;
  servers : option (list Server)
}.

(** [logger.warning('Attempt [%s:%d] failed: %s', host, port, e)]. *)
Record Warning : Type := mkWarning {
  warn_host : string;
  warn_port : Z;
  warn_error : Error
}.

(** How the socket of one attempt ends when [read] has neither completed the
    transfer nor thrown. *)
Inductive SocketEnd : Type :=
| SocketClose
| SocketTimeout
| SocketFailure (e : string).

(** What the network does during one attempt: the id drawn for the query,
    the content of the freshly allocated buffer, the chunks of the ['data']
    events in order and the event that follows them. A connection that fails
    has no chunk and ends in [SocketFailure]. *)
Record Transport : Type := mkTransport {
  tr_id : Z;
  tr_junk : nat -> byte;
  tr_chunks : list (list byte);
  tr_end : SocketEnd
}.

Section Client.

Variable decode : list byte -> option Message.

(** [IP.fromHost(server, 53)] of binet. *)
Variable fromHost : string -> Z -> Server.

(** The network: the transport met by attempt number [i] on a server. *)
Variable network : nat -> Server -> Transport.

(** [new AXFRClient(options)] with [parseOptions]; [options.maxMessages] is
    tested for truth, so [0] leaves the default. *)
Definition new_AXFRClient (options : ClientOptions) : AXFRClient :=
  {| index := 0;
     maxAttempts := match opt_maxAttempts options with Some n => n | None => 6 end;
     maxTimeout := match opt_maxTimeout options with Some n => n | None => 6000 end;
     client_maxMessages :=
       match opt_maxMessages options with
       | Some n => if n =? 0 then 1000 else n
       | None => 1000
       end;
     servers :=
       match opt_servers options with
       | Some l => Some (map (fun s => fromHost s 53) l)
       | None => None
       end |}.

(** [q.exchange(port, host)]: the promise resolves with [msgs] when [read]
    sets [ok], and rejects with what [read] throws or with the error of the
    socket's last event. *)
Definition exchange (q : AXFRQuery) (t : Transport) : option (result (list Message)) :=
  match deliver decode q (tr_chunks t) with
  | None => None
  | Some (Throw e) => Some (Throw e)
  | Some (Ok q') =>
      if ok q' then Some (Ok (msgs q'))
      else Some (Throw match tr_end t with
                       | SocketClose => ClosedUnexpectedly
                       | SocketTimeout => TimedOut
                       | SocketFailure e => SocketError e
                       end)
  end.

(** [getServer()]: [this.servers[this.index]]; indexing [null] throws, an
    index outside the list gives [undefined], here [None]. *)
Definition getServer (c : AXFRClient) : result (option Server) :=
  match servers c with
  | None => Throw TypeError
  | Some l =>
      Ok (if index c <? 0 then None else nth_error l (Z.to_nat (index c)))
  end.

(** [nextServer()]. *)
Definition nextServer (c : AXFRClient) : result (AXFRClient * option Server) :=
  match servers c with
  | None => Throw TypeError
  | Some l =>
      let c' := {| index := Z.rem (index c + 1) (len l);
                   maxAttempts := maxAttempts c; maxTimeout := maxTimeout c;
                   client_maxMessages := client_maxMessages c;
                   servers := servers c |} in
      server <- getServer c' ;; Ok (c', server)
  end.

(** The [for] loop of [query] from attempt [i] on, [n] attempts being left.
    [Ok None] is [return null]. A missing [server] makes [server.port] and
    then the [server.host] of the catch block throw a TypeError. *)
Fixpoint attempts (n : nat) (i : nat) (c : AXFRClient) (server : option Server)
  (log : list Warning)
  : option (AXFRClient * list Warning * result (option (list Message))) :=
  match n with
  | O => Some (c, log, Ok None)
  | S n' =>
      match server with
      | None => Some (c, log, Throw TypeError)
      | Some s =>
          let t := network i s in
          let q := new_AXFRQuery (tr_junk t) (tr_id t) (client_maxMessages c) in
          match exchange q t with
          | None => None
          | Some (Ok data) => Some (c, log, Ok (Some data))
          | Some (Throw e) =>
              let log' := log ++ [mkWarning (host s) (port s) e] in
              match nextServer c with
              | Throw e' => Some (c, log', Throw e')
              | Ok (c', server') => attempts n' (S i) c' server' log'
              end
          end
      end
  end.

(** [AXFRClient.query(zone)]. The zone only names the question that is
    sent; what comes back is the network's. *)
Definition query (c : AXFRClient)
  : option (AXFRClient * list Warning * result (option (list Message))) :=
  match getServer c with
  | Throw e => Some (c, [], Throw e)
  | Ok server => attempts (Z.to_nat (maxAttempts c)) O c server []
  end.

End Client.

(** ** client.js: [AXFRValidator] *)

(** A [Set] of names in insertion order. *)
Module NameSet.
Definition t : Type := list string.
Definition has (s : t) (x : string) : bool := existsb (String.eqb x) s.
Definition add (s : t) (x : string) : t := if has s x then s else s ++ [x].
Definition delete (s : t) (x : string) : t :=
  filter (fun y => negb (String.eqb x y)) s.
End NameSet.

Record Owner : Type := mkOwner {
  delegation : bool;
  rrs : list RR
}.

(** A [Map] from names to owners in insertion order; [set] on a key that is
    present keeps its place. *)
Module OwnerMap.
Definition t : Type := list (string * Owner).
Fixpoint get (m : t) (k : string) : option Owner :=
  match m with
  | [] => None
  | (k', v) :: rest => if String.eqb k k' then Some v else get rest k
  end.
Fixpoint set (m : t) (k : string) (v : Owner) : t :=
  match m with
  | [] => [(k, v)]
  | (k', v') :: rest =>
      if String.eqb k k' then (k', v) :: rest else (k', v') :: set rest k v
  end.
End OwnerMap.

Record AXFRValidator : Type := mkValidator {
  owners : OwnerMap.t;
  maybeGlue : NameSet.t;
  origin : string
}.

Definition new_AXFRValidator : AXFRValidator :=
  {| owners := []; maybeGlue := []; origin := "." |}.

(** The value [verifyZone] returns. *)
Record MergeDB : Type := mkMergeDB {
  glue : NameSet.t;
  names : OwnerMap.t;
  nsecChain : NameSet.t
}.

(** The body of the first loop of [verifyZone] for one record. An NS record
    whose data has no [ns] adds [undefined] to [maybeGlue]; no name equals
    it, so the set of names is left as it is. The owner object is created on
    first sight and then updated in place. *)
Definition collect (v : AXFRValidator) (rr : RR) : result AXFRValidator :=
  let maybeGlue1 :=
    if rr_type rr =? types.NS then
      match data_ns (rr_data rr) with
      | Some ns => NameSet.add (maybeGlue v) ns
      | None => maybeGlue v
      end
    else maybeGlue v in
  if rr_type rr =? types.NSEC3 then Throw BogusNSEC3
  else
    let owner :=
      match OwnerMap.get (owners v) (rr_name rr) with
      | Some o => o
      | None => {| delegation := false; rrs := [] |}
      end in
    let delegation1 :=
      if (rr_type rr =? types.NS) && negb (String.eqb (rr_name rr) (origin v))
      then true else delegation owner in
    Ok {| owners := OwnerMap.set (owners v) (rr_name rr)
                      {| delegation := delegation1; rrs := rrs owner ++ [rr] |};
          maybeGlue := maybeGlue1;
          origin := origin v |}.

Fixpoint collect_all (v : AXFRValidator) (records : list RR) : result AXFRValidator :=
  match records with
  | [] => Ok v
  | rr :: rest => v' <- collect v rr ;; collect_all v' rest
  end.

(** [verifyBitmap(name, owner, bitmap)]: the loop, then the delegation test. *)
Fixpoint verifyBitmap_loop (name : string) (owner : Owner) (bitmap : list Z)
  (hasNS : bool) : result bool :=
  match bitmap with
  | [] => Ok hasNS
  | type :: rest =>
      let hasNS := if type =? types.NS then true else hasNS in
      if negb (util.hasType (rrs owner) type)
      then Throw (BogusMissingType type name)
      else verifyBitmap_loop name owner rest hasNS
  end.

Definition verifyBitmap (name : string) (owner : Owner) (bitmap : list Z)
  : result unit :=
  hasNS <- verifyBitmap_loop name owner bitmap false ;;
  if delegation owner && negb hasNS then Throw (BogusNoNSInBitmap name)
  else Ok tt.

(** The [for (;;)] loop of [verifyNSEC] entered at [name] with [seen]. Every
    turn that does not leave the loop adds an owner name to [seen], so the
    number of owners bounds the turns; [None] means [fuel] was too small. *)
Fixpoint nsec_walk (fuel : nat) (v : AXFRValidator) (name : string)
  (seen : NameSet.t) : option (result NameSet.t) :=
  match fuel with
  | O => None
  | S fuel' =>
      match OwnerMap.get (owners v) name with
      | None => Some (Throw BogusInvalidData)
      | Some owner =>
          match util.extractSet (rrs owner) name [types.NSEC] with
          | [rr] =>
              match data_nsec (rr_data rr) with
              | None => Some (Throw TypeError)
              | Some (nextDomain, bitmap) =>
                  match verifyBitmap name owner bitmap with
                  | Throw e => Some (Throw e)
                  | Ok _ =>
                      (* could be a loop it should only be seen
                         if it was the origin *)
                      if NameSet.has seen nextDomain then
                        if negb (String.eqb nextDomain (origin v))
                        then Some (Throw BogusBadChain)
                        else Some (Ok seen)
                      else nsec_walk fuel' v nextDomain
                                     (NameSet.add seen nextDomain)
                  end
              end
          | _ => Some (Throw (BogusNSECMustExist name))
          end
      end
  end.

(** [verifyNSEC()]. *)
Definition verifyNSEC (v : AXFRValidator) : option (result NameSet.t) :=
  nsec_walk (S (List.length (owners v))) v (origin v)
            (NameSet.add [] (origin v)).

Section Validator.

Variable KeyMap : Type.

(** [dnssec.verifyMessage(msg, keyMap)] of bns. *)
Variable verifyMessage : Message -> KeyMap -> bool.

(** The parent of a glue candidate in the words of the specification: the
    name with its leftmost label stripped. Only the comparison with
    [is_glue] uses it. *)
Definition spec_parent (name : string) : string :=
  util.fqdn (util.from name 1).

(** The test that makes the second loop of [verifyZone] [continue] on an
    owner: the name is a glue candidate, the owner found under
    [util.fqdn(util.from(name, -1))] is a delegation, and no record is left
    once A and AAAA are filtered out. *)
Definition is_glue (v : AXFRValidator) (name : string) (owner : Owner) : bool :=
  if NameSet.has (maybeGlue v) name then
    let tld := util.fqdn (util.from name (-1)) in
    match OwnerMap.get (owners v) tld with
    | Some parent =>
        if delegation parent then
          len (util.filterSet (rrs owner) [types.A; types.AAAA]) =? 0
        else false
    | None => false
    end
  else false.

(** [buf.answer] for an owner: its records, without the NS set when it is a
    delegation. *)
Definition verification_input (owner : Owner) : Message :=
  set_answer new_Message
    (if delegation owner then util.filterSet (rrs owner) [types.NS]
     else rrs owner).

(** The second loop of [verifyZone] over the entries of [this.owners]. *)
Fixpoint verify_owners (v : AXFRValidator) (keyMap : KeyMap)
  (entries : list (string * Owner)) (glue : NameSet.t) : result NameSet.t :=
  match entries with
  | [] => Ok glue
  | (name, owner) :: rest =>
      if is_glue v name owner then
        verify_owners v keyMap rest (NameSet.add glue name)
      else if negb (verifyMessage (verification_input owner) keyMap) then
        Throw (BogusUnableToValidate name)
      else verify_owners v keyMap rest glue
  end.

(** [verifyZone(messages, keyMap)] on the validator [v]. *)
Definition verifyZone (v : AXFRValidator) (messages : list Message)
  (keyMap : KeyMap) : option (result MergeDB) :=
  match collect_all v (flat_map answer messages) with
  | Throw e => Some (Throw e)
  | Ok v1 =>
      match verify_owners v1 keyMap (owners v1) [] with
      | Throw e => Some (Throw e)
      | Ok glue =>
          match verifyNSEC v1 with
          | None => None
          | Some (Throw e) => Some (Throw e)
          | Some (Ok nsecChain) =>
              Some (Ok {| glue := glue; names := owners v1;
                          nsecChain := nsecChain |})
          end
      end
  end.

End Validator.

(** ** client.js: [MessageWriter] *)

Record MessageWriter : Type := mkWriter {
  w_req : Message;
  w_msg : Message;
  w_size : Z;
  w_written : Z
}.

(** A computation of the transfer session: it threads the list of messages
    handed to the write callback so far, which is kept when the computation
    throws. *)
Definition session (A : Type) : Type := list Message -> list Message * result A.

Definition sbind {A B : Type} (m : session A) (k : A -> session B) : session B :=
  fun sent =>
    match m sent with
    | (sent', Ok a) => k a sent'
    | (sent', Throw e) => (sent', Throw e)
    end.

Definition sret {A : Type} (a : A) : session A := fun sent => (sent, Ok a).

Definition sthrow {A : Type} (e : Error) : session A := fun sent => (sent, Throw e).

Notation "x <~ m ;; k" := (sbind m (fun x => k))
  (at level 61, m at next level, right associativity).

Section Writer.

(** [rr.getSize(null)] and [qs.getSize(null)] of bns: sizes on the wire
    without compression. *)
Variable RR_getSize : RR -> Z.
Variable Question_getSize : Question -> Z.

(** The bytes [msg.compress()] of bns assembles: the message on the wire
    with name compression. *)
Variable wire : Message -> list byte.

(** The write callback given to the constructor: what it answers to the
    bytes it is handed, after the messages it was handed before. *)
Variable write : list Message -> list byte -> bool.

(** [msg.getSize(null)]: the 12-byte header, the questions, the answers. *)
Definition Message_getSize (m : Message) : Z :=
  12 + fold_right (fun qs acc => Question_getSize qs + acc) 0 (question m)
     + fold_right (fun rr acc => RR_getSize rr + acc) 0 (answer m).

(** [reset()]. *)
Definition reset (w : MessageWriter) : MessageWriter :=
  let msg := set_answer (w_msg w) [] in
  {| w_req := w_req w; w_msg := msg;
     (* approximate size without compression *)
     w_size := Message_getSize msg;
     w_written := w_written w |}.

(** [new MessageWriter(req, write)]. *)
Definition new_MessageWriter (req : Message) : MessageWriter :=
  let w := reset {| w_req := req; w_msg := setReply new_Message req;
                    w_size := 0; w_written := 0 |} in
  {| w_req := w_req w; w_msg := w_msg w; w_size := w_size w; w_written := 0 |}.

(** [msg.compress()] of bns: it throws when the bytes it assembled are more
    than [MAX_MSG_SIZE], the 65535 bytes a message can take. *)
Definition Message_compress (msg : Message) : result (list byte) :=
  let data := wire msg in
  if len data >? constants.MAX_MSG_SIZE then Throw MessageExceedsSizeLimits
  else Ok data.

(** [flush()]. An exception of [this.msg.compress()] leaves [flush] before
    the write callback is called. *)
Definition flush (w : MessageWriter) : session MessageWriter :=
  fun sent =>
    if w_size w =? 0 then (sent, Ok w)
    else
      match Message_compress (w_msg w) with
      | Throw e => (sent, Throw e)
      | Ok data =>
          let ok := write sent data in
          let sent' := sent ++ [w_msg w] in
          if negb ok then (sent', Throw UnableToWrite)
          else (sent', Ok (reset w))
      end.

(** [writeRR(rr)]. *)
Definition writeRR (w : MessageWriter) (rr : RR) : session MessageWriter :=
  let w := {| w_req := w_req w; w_msg := w_msg w; w_size := w_size w;
              w_written := w_written w + 1 |} in
  let size := RR_getSize rr in
  w <~ (if size + w_size w >? MAX_MESSAGE_SIZE then flush w else sret w) ;;
  sret {| w_req := w_req w;
          w_msg := set_answer (w_msg w) (answer (w_msg w) ++ [rr]);
          w_size := w_size w + size;
          w_written := w_written w |}.

(** [writeAll(rrs)]. *)
Fixpoint writeAll (w : MessageWriter) (rrs : list RR) : session MessageWriter :=
  match rrs with
  | [] => sret w
  | rr :: rest => w <~ writeRR w rr ;; writeAll w rest
  end.

End Writer.

(** ** axfr.js: [Plugin] *)

(** A decoded entry of the name tree: [ns.name] and [ns.data]. *)
Record NameState : Type := mkNameState {
  ns_name : string;
  ns_data : list byte
}.

(** [rinfo] of a request. *)
Record RInfo : Type := mkRInfo {
  ri_port : Z;
  ri_address : string;
  ri_tcp : bool
}.

(** [logger.warning('name collision for ' + name + ' (prefer icann: ' +
    this.preferICANN + ')')]. *)
Record Collision : Type := mkCollision {
  col_name : string;
  col_preferICANN : bool
}.

Record Plugin : Type := mkPlugin {
  ipList : list string;
  preferICANN : bool;
  disableMerge : bool
}.

(** [pickRRs(name, hnsZone, mergeDB)]: the records to send for a local name,
    the merge data as the call leaves it, and the warnings logged. *)
Definition pickRRs (p : Plugin) (name : string) (hnsZone : list RR)
  (mergeDB : MergeDB) : list RR * MergeDB * list Collision :=
  let collision := NameSet.has (nsecChain mergeDB) name in
  if negb collision then (hnsZone, mergeDB, [])
  else
    let warning := [mkCollision name (preferICANN p)] in
    if negb (preferICANN p) then
      (hnsZone,
       {| glue := glue mergeDB; names := names mergeDB;
          nsecChain := NameSet.delete (nsecChain mergeDB) name |},
       warning)
    else ([], mergeDB, warning).

(** [refuse()]. *)
Definition refuse : Message := set_code new_Message codes.REFUSED.

Section Plugin.

Variable RR_getSize : RR -> Z.
Variable Question_getSize : Question -> Z.
Variable wire : Message -> list byte.
Variable write : list Message -> list byte -> bool.

(** [Resource.decode(ns.data).toZone(fqdn)] of hsd. *)
Variable toZone : list byte -> string -> list RR.

(** [this.ns.toSOA()]. *)
Variable soa : RR.

Definition transfer_writeRR := writeRR RR_getSize Question_getSize wire write.
Definition transfer_writeAll := writeAll RR_getSize Question_getSize wire write.
Definition transfer_flush := flush RR_getSize Question_getSize wire write.

(** The inner loop over a local zone: RRSIG records are skipped. *)
Fixpoint write_local_zone (w : MessageWriter) (zone : list RR)
  : session MessageWriter :=
  match zone with
  | [] => sret w
  | rr :: rest =>
      if rr_type rr =? types.RRSIG then write_local_zone w rest
      else w <~ transfer_writeRR w rr ;; write_local_zone w rest
  end.

(** The [while (await iter.next())] loop over the name tree. *)
Fixpoint local_phase (p : Plugin) (tree : list NameState) (w : MessageWriter)
  (mergeDB : MergeDB) (log : list Collision)
  : session (MessageWriter * MergeDB * list Collision) :=
  match tree with
  | [] => sret (w, mergeDB, log)
  | ns :: rest =>
      if len (ns_data ns) <=? 0 then local_phase p rest w mergeDB log
      else
        let fqdn := util.fqdn (ns_name ns) in
        let zone := toZone (ns_data ns) fqdn in
        let '(zone, mergeDB, warned) := pickRRs p fqdn zone mergeDB in
        let log := log ++ warned in
        if len zone =? 0 then local_phase p rest w mergeDB log
        else
          w <~ write_local_zone w zone ;;
          local_phase p rest w mergeDB log
  end.

(** The records of one remaining external name: NSEC and RRSIG records are
    skipped; an NS record whose target is in the glue set queues that
    target's records and removes the target from the glue set. A target with
    no entry in [names] makes [glueData.rrs] a TypeError. *)
Fixpoint write_merge_zone (names : OwnerMap.t) (w : MessageWriter)
  (zone : list RR) (glue : NameSet.t) (glues : list (list RR))
  : session (MessageWriter * NameSet.t * list (list RR)) :=
  match zone with
  | [] => sret (w, glue, glues)
  | rr :: rest =>
      if (rr_type rr =? types.NSEC) || (rr_type rr =? types.RRSIG) then
        write_merge_zone names w rest glue glues
      else
        w <~ transfer_writeRR w rr ;;
        match (if rr_type rr =? types.NS then data_ns (rr_data rr) else None) with
        | Some ns =>
            if NameSet.has glue ns then
              match OwnerMap.get names ns with
              | Some glueData =>
                  write_merge_zone names w rest (NameSet.delete glue ns)
                                   (glues ++ [rrs glueData])
              | None => sthrow TypeError
              end
            else write_merge_zone names w rest glue glues
        | None => write_merge_zone names w rest glue glues
        end
  end.

Fixpoint write_glue (w : MessageWriter) (glues : list (list RR))
  : session MessageWriter :=
  match glues with
  | [] => sret w
  | rrs :: rest => w <~ transfer_writeAll w rrs ;; write_glue w rest
  end.

(** The loop [for (const name of mergeDB.nsecChain)]: [chain] is what is left
    to visit; the loop changes the glue set only. *)
Fixpoint merge_phase (names : OwnerMap.t) (chain : list string)
  (w : MessageWriter) (glue : NameSet.t) : session (MessageWriter * NameSet.t) :=
  match chain with
  | [] => sret (w, glue)
  | name :: rest =>
      match OwnerMap.get names name with
      | None => sthrow TypeError
      | Some owner =>
          r <~ write_merge_zone names w (rrs owner) glue [] ;;
          let '(w, glue, glues) := r in
          w <~ write_glue w glues ;;
          merge_phase names rest w glue
      end
  end.

(** The outcome of [sendAXFR]: the message it returns for hsd to write, and
    the collisions it logged. *)
Record Sent : Type := mkSent {
  response : Message;
  collisions : list Collision
}.

(** [sendAXFR(req, rinfo)]. [loaded] is the outcome of
    [await this.loadMergeZone()] and [tree] the entries the iterator yields.
    [loadMergeZone] returns an object or throws, so the test [!mergeDB] never
    holds. Of the log lines only the collision warnings are kept. *)
Definition sendAXFR (p : Plugin) (req : Message) (rinfo : RInfo)
  (loaded : result MergeDB) (tree : list NameState) : session Sent :=
  if negb (ri_tcp rinfo) then sret (mkSent refuse [])
  else if negb (existsb (String.eqb (ri_address rinfo)) (ipList p))
  then sret (mkSent refuse [])
  else
    match loaded with
    | Throw e => sthrow e
    | Ok mergeDB =>
        let mergeDB :=
          {| glue := glue mergeDB; names := names mergeDB;
             nsecChain := NameSet.delete (nsecChain mergeDB) "." |} in
        let transfer := new_MessageWriter RR_getSize Question_getSize req in
        (* first message has SOA *)
        w <~ transfer_writeRR transfer soa ;;
        r <~ local_phase p tree w mergeDB [] ;;
        let '(w, mergeDB, log) := r in
        (* merge any remaining data from external zone *)
        r <~ merge_phase (names mergeDB) (nsecChain mergeDB) w (glue mergeDB) ;;
        let '(w, _) := r in
        _ <~ transfer_flush w ;;
        (* add SOA since its the last message; let hsd write this one *)
        sret (mkSent (set_answer (setReply new_Message req) [soa]) log)
    end.

End Plugin.

Section LoadMergeZone.

Variable decode : list byte -> option Message.
Variable network : nat -> Server -> Transport.
Variable KeyMap : Type.
Variable verifyMessage : Message -> KeyMap -> bool.

(** [loadMergeZone()] with the client [c] of the plugin and the current
    [this.ns.icann.keyMap]. *)
Definition loadMergeZone (p : Plugin) (c : AXFRClient) (keyMap : KeyMap)
  : option (result MergeDB) :=
  if disableMerge p then
    Some (Ok {| glue := []; names := []; nsecChain := [] |})
  else
    match query decode network c with
    | None => None
    | Some (_, _, Throw e) => Some (Throw e)
    | Some (_, _, Ok None) => Some (Throw NoZoneData)
    | Some (_, _, Ok (Some data)) =>
        verifyZone KeyMap verifyMessage new_AXFRValidator data keyMap
    end.

End LoadMergeZone.

(** ** Concrete data for the examples *)

Module Sample.

Definition opaque (name : string) (type : Z) : RR :=
  mkRR name type (OpaqueRecord []).

Definition soa : RR := opaque "." types.SOA.

(** A verifier that accepts every record set. *)
Definition accept_all (m : Message) (k : unit) : bool := true.

(** A verifier that rejects every record set holding an address record. *)
Definition reject_addresses (m : Message) (k : unit) : bool :=
  negb (util.hasType (answer m) types.A || util.hasType (answer m) types.AAAA).

(** A zone with a hashed-denial record among valid ones. *)
Definition nsec3_zone : list Message :=
  [ set_answer new_Message
      [ soa;
        mkRR "." types.NSEC (NSECRecord "." [types.SOA; types.NSEC]);
        opaque "abc." types.NSEC3;
        soa ] ].

(** The root with one delegation, [de.], whose name server [a.nic.de.] has
    an address record in the zone, as one message of a transfer. *)
Definition reply : Message :=
  {| msg_id := 7; msg_qr := true; msg_code := 0;
     question := [mkQuestion "." types.AXFR];
     answer :=
       [ soa;
         mkRR "." types.NSEC (NSECRecord "de." [types.SOA; types.NSEC]);
         mkRR "de." types.NS (NSRecord "a.nic.de.");
         mkRR "de." types.NSEC (NSECRecord "." [types.NS; types.NSEC]);
         opaque "a.nic.de." types.A;
         soa ] |}.

Definition glue_zone : list Message := [reply].

(** What [verifyZone] returns for [glue_zone]. *)
Definition glue_db : MergeDB :=
  {| glue := ["a.nic.de."]%string;
     names :=
       [(".", mkOwner false
                [soa;
                 mkRR "." types.NSEC (NSECRecord "de." [types.SOA; types.NSEC]);
                 soa]);
        ("de.", mkOwner true
                  [mkRR "de." types.NS (NSRecord "a.nic.de.");
                   mkRR "de." types.NSEC (NSECRecord "." [types.NS; types.NSEC])]);
        ("a.nic.de.", mkOwner false [opaque "a.nic.de." types.A])]%string;
     nsecChain := ["."; "de."]%string |}.

(** A delegation two labels deep, [b.c.], whose name server [a.b.c.] has an
    address record in the zone; [c.] itself has no record. *)
Definition deep_zone : list Message :=
  [ set_answer new_Message
      [ soa;
        mkRR "." types.NSEC (NSECRecord "b.c." [types.SOA; types.NSEC]);
        mkRR "b.c." types.NS (NSRecord "a.b.c.");
        mkRR "b.c." types.NSEC (NSECRecord "." [types.NS; types.NSEC]);
        opaque "a.b.c." types.A;
        soa ] ].

(** Three servers, the first two of which refuse the connection. *)
Definition fromHost (s : string) (p : Z) : Server := mkServer s p.

(** A message that does not end the transfer: its last record is not SOA. *)
Definition part : Message :=
  {| msg_id := 7; msg_qr := true; msg_code := 0;
     question := [mkQuestion "." types.AXFR];
     answer := [soa; opaque "com." types.NS] |}.

(** A stand-in for [Message.decode]: a frame that starts with the id 7
    decodes to [part] when its third byte is 1 and to [reply] otherwise; any
    other frame makes it throw. *)
Definition decode (frame : list byte) : option Message :=
  match frame with
  | x00 :: x07 :: x01 :: _ => Some part
  | x00 :: x07 :: _ => Some reply
  | _ => None
  end.

(** The bytes of one transfer: the two-byte length 4, then a 4-byte frame. *)
Definition stream : list byte := [x00; x04; x00; x07; x00; x00].

(** A frame that decodes to [part]. *)
Definition part_frame : list byte := [x00; x04; x00; x07; x01; x00].

Definition zeros (i : nat) : byte := x00.

Definition network (i : nat) (s : Server) : Transport :=
  if String.eqb (host s) "f.root-servers.net"
  then mkTransport 7 zeros [stream] SocketClose
  else mkTransport 7 zeros [] (SocketFailure "ECONNREFUSED").

Definition options : ClientOptions :=
  mkOptions (Some ["b.root-servers.net"; "c.root-servers.net";
                   "f.root-servers.net"]%string)
            None None None.

(** Sizes, serialization, transport and local store for the writer. *)
Definition rr_size (rr : RR) : Z :=
  match rr_data rr with
  | OpaqueRecord rd => 11 + len rd
  | _ => 20
  end.

Definition qs_size (qs : Question) : Z := 5.

(** A stand-in for [msg.wire()]: as many bytes as the message takes
    without compression. *)
Definition wire (m : Message) : list byte :=
  repeat x00 (Z.to_nat (Message_getSize rr_size qs_size m)).

(** A record whose data is as long as a record's data can be. *)
Definition big : RR := mkRR "big." 16 (OpaqueRecord (repeat x00 (Z.to_nat 65524))).

Definition write_ok (sent : list Message) (data : list byte) : bool := true.

Definition toZone (data : list byte) (fqdn : string) : list RR :=
  [opaque fqdn types.NS].

Definition request : Message :=
  {| msg_id := 7; msg_qr := false; msg_code := 0;
     question := [mkQuestion "." types.AXFR]; answer := [] |}.

Definition rinfo : RInfo :=
  {| ri_port := 53001; ri_address := "127.0.0.1"; ri_tcp := true |}.

Definition tree : list NameState := [mkNameState "com" [x01]].


Definition prefer_local : Plugin :=
  {| ipList := ["127.0.0.1"%string]; preferICANN := false; disableMerge := false |}.

End Sample.

(** * Specification vocabulary

    The predicates and auxiliary functions the statements below are written
    with. None of them is part of the sources. *)

(** ** Reassembly *)

(** [src] written over [target] from offset [off]. *)
Definition put (target : list byte) (off : nat) (src : list byte) : list byte :=
  firstn off target ++ src ++ skipn (off + List.length src) target.

(** The states [read] is called in: the buffer has its full length, a frame
    in progress is not yet complete, and the transfer is not over. *)
Definition query_wf (q : AXFRQuery) : Prop :=
  len (buf q) = MAX_MESSAGE_SIZE
  /\ 0 <= size q
  /\ target q <= MAX_MESSAGE_SIZE
  /\ (target q = 0 -> size q = 0)
  /\ (target q <> 0 -> size q < target q)
  /\ ok q = false.

(** The framing of a chunk, from the lengths alone. [pending] is the number
    of bytes the frame in progress still lacks, [0] when no frame is in
    progress. The result is the number pending after the chunk; it is [None]
    when a frame starts in the chunk with fewer than two bytes left for its
    length prefix. *)
Fixpoint frame_walk (fuel : nat) (pending : Z) (data : list byte) : option Z :=
  match fuel with
  | O => None
  | S fuel' =>
      if pending =? 0 then
        if len data >? 1 then
          let t := Buffer.readUInt16BE data 0 in
          let body := skipn 2 data in
          if len body >? t then frame_walk fuel' 0 (skipn (Z.to_nat t) body)
          else Some (t - len body)
        else None
      else
        if len data >? pending
        then frame_walk fuel' 0 (skipn (Z.to_nat pending) data)
        else Some (pending - len data)
  end.

(** No chunk is empty, and no chunk boundary falls inside the two bytes of a
    length prefix. *)
Fixpoint prefix_intact (pending : Z) (chunks : list (list byte)) : bool :=
  match chunks with
  | [] => true
  | data :: rest =>
      match data with
      | [] => false
      | _ =>
          match frame_walk (S (List.length data)) pending data with
          | Some pending' => prefix_intact pending' rest
          | None => false
          end
      end
  end.

Section ReadStep.

Variable decode : list byte -> option Message.

(** What a completed frame does to the query: [Message.decode], the
    assertions and [this.msgs.push(msg)]. The flag tells whether the last
    record was SOA, which ends the transfer. *)
Definition complete (q : AXFRQuery) (frame : list byte) : result (list Message * bool) :=
  match decode frame with
  | None => Throw DecodeFailure
  | Some msg =>
      assert (msg_id msg =? id q) IdMismatch ;;;
      assert (negb (len (answer msg) =? 0)) EmptyMessage ;;;
      (if len (msgs q) =? 0
       then assert (first_type (answer msg) =? types.SOA) FirstNotSOA
       else Ok tt) ;;;
      (if len (msgs q) + 1 >? maxMessages q
       then Throw (TransferTooLarge (maxMessages q))
       else Ok tt) ;;;
      Ok (msgs q ++ [msg], last_type (answer msg) =? types.SOA)
  end.

(** One call of [read] without its recursive call: the query it leaves and
    the buffer the recursive call would be given. *)
Definition read_step (q : AXFRQuery) (data : list byte)
  : result (AXFRQuery * option (list byte)) :=
  header <- (if target q =? 0 then
               assert (len data >? 1) MalformedPacket ;;;
               Ok (Buffer.readUInt16BE data 0, 2)
             else Ok (target q, 0)) ;;
  let '(target1, off) := header in
  let data := Buffer.slice data off (len data) in
  let exceeds := size q + len data >? target1 in
  let writeLength := if exceeds then target1 - size q else len data in
  let remaining :=
    if exceeds then Some (Buffer.slice data writeLength (len data)) else None in
  let buf1 := Buffer.copy data (buf q) (size q) 0 writeLength in
  let size1 := size q + writeLength in
  if size1 =? target1 then
    r <- complete q (Buffer.slice buf1 0 target1) ;;
    let '(msgs1, done) := r in
    if done then
      Ok ({| buf := buf1; target := target1; size := size1; id := id q;
             msgs := msgs1; ok := true; maxMessages := maxMessages q |}, None)
    else
      Ok ({| buf := buf1; target := 0; size := 0; id := id q;
             msgs := msgs1; ok := ok q; maxMessages := maxMessages q |},
          remaining)
  else
    Ok ({| buf := buf1; target := target1; size := size1; id := id q;
           msgs := msgs q; ok := ok q; maxMessages := maxMessages q |},
        remaining).

End ReadStep.

(** The bytes of the length prefix a call consumes, the frame length it
    works with, and the bytes the frame still lacks. *)
Definition prefix_bytes (q : AXFRQuery) : nat :=
  if target q =? 0 then 2%nat else 0%nat.

Definition frame_length (q : AXFRQuery) (data : list byte) : Z :=
  if target q =? 0 then Buffer.readUInt16BE data 0 else target q.

Definition needed (q : AXFRQuery) (data : list byte) : nat :=
  Z.to_nat (frame_length q data - size q).

(** ** The NSEC chain *)

(** What [verifyBitmap] requires of an owner and the bitmap of its NSEC
    record. *)
Definition bitmap_ok (owner : Owner) (bitmap : list Z) : Prop :=
  (forall t, In t bitmap -> util.hasType (rrs owner) t = true)
  /\ (delegation owner = true -> In types.NS bitmap).

(** One visit of the walk: the owner exists, holds exactly one NSEC record
    for its name, that record points at [next], and its bitmap passes
    [verifyBitmap]. *)
Definition visit_ok (v : AXFRValidator) (name next : string) : Prop :=
  exists owner rr bitmap,
    OwnerMap.get (owners v) name = Some owner
    /\ util.extractSet (rrs owner) name [types.NSEC] = [rr]
    /\ rr_data rr = NSECRecord next bitmap
    /\ bitmap_ok owner bitmap.

(** Every name of [visited] passes its visit and points at the name after
    it; the last one points at [closing]. *)
Fixpoint links (v : AXFRValidator) (visited : list string) (closing : string)
  : Prop :=
  match visited with
  | [] => True
  | name :: rest => visit_ok v name (hd closing rest) /\ links v rest closing
  end.

(** A chain: it starts at the origin, visits no name twice, and its last
    name points back at the origin. *)
Definition nsec_chain (v : AXFRValidator) (seen : list string) : Prop :=
  exists rest,
    seen = origin v :: rest /\ NoDup seen /\ links v seen (origin v).

(** The owner names that the walk has not seen yet. *)
Definition unseen (v : AXFRValidator) (seen : NameSet.t) : nat :=
  List.length (filter (fun k => negb (NameSet.has seen k)) (map fst (owners v))).

(** ** Glue *)

(** A record that names [name] as the target of an NS record. *)
Definition ns_target (name : string) (rr : RR) : Prop :=
  rr_type rr = types.NS /\ data_ns (rr_data rr) = Some name.

(** The parent [verifyZone] looks up for a glue candidate: the owner named
    by the last label of the candidate's name. *)
Definition parent_is_delegation (m : OwnerMap.t) (name : string) : Prop :=
  exists parent,
    OwnerMap.get m (util.fqdn (util.from name (-1))) = Some parent
    /\ delegation parent = true.

Definition address_only (owner : Owner) : Prop :=
  forall rr, In rr (rrs owner) ->
             rr_type rr = types.A \/ rr_type rr = types.AAAA.

(** The glue set the second loop of [verifyZone] builds. *)
Fixpoint glue_of (v : AXFRValidator) (entries : list (string * Owner))
  (glue : NameSet.t) : NameSet.t :=
  match entries with
  | [] => glue
  | (name, owner) :: rest =>
      glue_of v rest (if is_glue v name owner then NameSet.add glue name
                      else glue)
  end.

(** The origin is the root; every owner holds records of its own name only;
    the owner of the origin is no delegation. *)
Definition validator_inv (v : AXFRValidator) : Prop :=
  origin v = "."%string
  /\ forall n o,
       OwnerMap.get (owners v) n = Some o ->
       (forall rr, In rr (rrs o) -> rr_name rr = n)
       /\ (n = "."%string -> delegation o = false).

(** The records of a merge result carry the name they are stored under, and
    the root is not in its glue set. *)
Definition merge_db_ok (db : MergeDB) : Prop :=
  (forall n o, OwnerMap.get (names db) n = Some o ->
               forall rr, In rr (rrs o) -> rr_name rr = n)
  /\ ~ In "."%string (glue db).

(** ** The writer and the transfer *)

(** The records handed to the writer so far: those of the messages sent,
    then those still in the buffer. *)
Definition emitted (w : MessageWriter) (sent : list Message) : list RR :=
  flat_map answer sent ++ answer (w_msg w).

Section WriterSpec.

Variable RR_getSize : RR -> Z.
Variable Question_getSize : Question -> Z.
Variable wire : Message -> list byte.

(** The size [reset] stores: that of the reply with no answer. *)
Definition base_size (req : Message) : Z :=
  Message_getSize RR_getSize Question_getSize (setReply new_Message req).

(** The running size is the size [getSize] computes, the message is within
    the limit, and it still answers the questions of [req]. *)
Definition writer_inv (req : Message) (w : MessageWriter) : Prop :=
  w_size w = Message_getSize RR_getSize Question_getSize (w_msg w)
  /\ w_size w <= MAX_MESSAGE_SIZE
  /\ question (w_msg w) = question (setReply new_Message req).

(** The messages handed to the callback are within the limit once
    serialized. *)
Definition sent_within_limit (sent : list Message) : Prop :=
  forall m, In m sent -> len (wire m) <= MAX_MESSAGE_SIZE.

(** The running size is the size of the message in the buffer. *)
Definition size_inv (w : MessageWriter) : Prop :=
  w_size w = Message_getSize RR_getSize Question_getSize (w_msg w).

(** The session went on from [(w, sent)] to [(w', sent')] and every record
    it handed to the writer satisfies [P]. *)
Definition appends (P : RR -> Prop) (w : MessageWriter) (sent : list Message)
  (w' : MessageWriter) (sent' : list Message) : Prop :=
  (exists extra,
     emitted w' sent' = emitted w sent ++ extra
     /\ forall rr, In rr extra -> P rr)
  /\ (size_inv w -> size_inv w').

End WriterSpec.

Section TransferSpec.

Variable toZone : list byte -> string -> list RR.

(** A record of the local store. *)
Definition local_record (tree : list NameState) (rr : RR) : Prop :=
  exists ns, In ns tree
             /\ In rr (toZone (ns_data ns) (util.fqdn (ns_name ns))).

End TransferSpec.

(** A record of the external zone: it is stored under an owner name that is
    in the chain set or in the glue set. *)
Definition external_record (names : OwnerMap.t) (chain glue : list string)
  (rr : RR) : Prop :=
  exists n o, (In n chain \/ In n glue)
              /\ OwnerMap.get names n = Some o /\ In rr (rrs o).

Definition glue_records (names : OwnerMap.t) (glue : list string)
  (glues : list (list RR)) : Prop :=
  forall l, In l glues ->
            exists n o, In n glue /\ OwnerMap.get names n = Some o /\ l = rrs o.

(** * The rest of the sources

    The request [exchange] sends, [Plugin.write], the middleware the plugin
    installs in the root server, and the first [Plugin] class of the file,
    which sends the local zone in chunks of a fixed number of records. *)

(** ** client.js: the request of [exchange] *)

Definition byte_of_Z (x : Z) : byte :=
  match Byte.of_N (Z.to_N x) with
  | Some b => b
  | None => x00
  end.

(** [len.writeUInt16BE(value, 0)] on the two-byte buffer [len]: its content
    afterwards. Node throws a RangeError for a value outside [0 .. 65535];
    that is [None]. *)
Definition writeUInt16BE (value : Z) : option (list byte) :=
  if (0 <=? value) && (value <=? 65535)
  then Some [byte_of_Z (value / 256); byte_of_Z (value mod 256)]
  else None.

(** The message the connect callback builds: a query with the id drawn for
    it and the question [new Question(zone, types.AXFR)]. *)
Definition axfr_request (zone : string) (id : Z) : Message :=
  {| msg_id := id; msg_qr := false; msg_code := codes.NOERROR;
     question := [mkQuestion zone types.AXFR]; answer := [] |}.

(** The two [socket.write] calls of the connect callback: the length of the
    encoded request, then the request. [encode] is [req.encode()] of bns. *)
Definition send_request (encode : Message -> list byte) (zone : string) (id : Z)
  : option (list (list byte)) :=
  let msg := encode (axfr_request zone id) in
  match writeUInt16BE (len msg) with
  | Some prefix => Some [prefix; msg]
  | None => None
  end.

(** ** axfr.js: [Plugin.write] *)

(** [this.ns.server.sockets]: a [Map] from the key of a peer to its socket;
    a socket is the list of the buffers written to it. *)
Definition Sockets : Type := list (string * list (list byte)).

Fixpoint sockets_get (sockets : Sockets) (key : string)
  : option (list (list byte)) :=
  match sockets with
  | [] => None
  | (k, socket) :: rest =>
      if String.eqb key k then Some socket else sockets_get rest key
  end.

(** [socket.write(msg)] on the socket stored under [key]. *)
Fixpoint socket_write (sockets : Sockets) (key : string) (msg : list byte)
  : Sockets :=
  match sockets with
  | [] => []
  | (k, socket) :: rest =>
      if String.eqb key k then (k, socket ++ [msg]) :: rest
      else (k, socket) :: socket_write rest key msg
  end.

Section PluginWrite.

(** [IP.toHost(host, port)] of binet. *)
Variable toHost : string -> Z -> string.

(** [write(msg, port, host)]: the sockets afterwards and the value
    returned. *)
Definition Plugin_write (sockets : Sockets) (msg : list byte) (port : Z)
  (host : string) : Sockets * bool :=
  let key := toHost host port in
  match sockets_get sockets key with
  | None => (sockets, false)
  | Some _ => (socket_write sockets key msg, true)
  end.

(** The callback [sendAXFR] gives to its writer, while the sockets of the
    server are [sockets]: [self.write(data, port, address)]. *)
Definition transfer_callback (sockets : Sockets) (rinfo : RInfo)
  (sent : list Message) (data : list byte) : bool :=
  snd (Plugin_write sockets data (ri_port rinfo) (ri_address rinfo)).

End PluginWrite.

(** ** axfr.js: the middleware *)

Section Middle.

Variable RR_getSize : RR -> Z.
Variable Question_getSize : Question -> Z.
Variable wire : Message -> list byte.
Variable write : list Message -> list byte -> bool.
Variable toZone : list byte -> string -> list RR.
Variable soa : RR.

(** [this.ns.middle = async (tld, req, rinfo) => ...]. Destructuring the
    first question of a request that has none is a TypeError. [None] is
    [return null]: the root server answers the request itself. *)
Definition middle (p : Plugin) (req : Message) (rinfo : RInfo)
  (loaded : result MergeDB) (tree : list NameState) : session (option Sent) :=
  match question req with
  | [] => sthrow TypeError
  | qs :: _ =>
      if String.eqb (qs_name qs) "." && (qs_type qs =? types.AXFR) then
        out <~ sendAXFR RR_getSize Question_getSize wire write toZone soa
                        p req rinfo loaded tree ;;
        sret (Some out)
      else sret None
  end.

End Middle.

(** ** axfr.js: the first [Plugin] class *)

Module FirstPlugin.

Record Plugin : Type := mkPlugin {
  ipList : list string;
  (* max number of rrs for each chunk sent *)
  chunkLength : Z
}.

(** The variables of [sendAXFR] that its loops update: the message being
    filled and the progress counter. The session threads the messages handed
    to [this.ns.server.write] so far. *)
Record Transfer : Type := mkTransfer {
  res : Message;
  progress : Z
}.

Section SendAXFR.

(** The bytes [res.compress()] of bns assembles. *)
Variable wire : Message -> list byte.

(** [Resource.decode(ns.data).toZone(fqdn)] of hsd. *)
Variable toZone : list byte -> string -> list RR.

(** The two calls of [this.ns.toSOA()], before and after the loop. *)
Variable soa_first soa_last : RR.

(** [await this.ns.server.write(res.compress(), port, address)]. An
    exception of [res.compress()] leaves [sendAXFR] before the chunk is
    written; the value [server.write] returns is not looked at. *)
Definition server_write (res : Message) : session unit :=
  fun written =>
    match Message_compress wire res with
    | Throw e => (written, Throw e)
    | Ok _ => (written ++ [res], Ok tt)
    end.

(** The loop [for (const rr of zone)]. *)
Fixpoint zone_loop (p : Plugin) (req : Message) (zone : list RR) (t : Transfer)
  : session Transfer :=
  match zone with
  | [] => sret t
  | rr :: rest =>
      if rr_type rr =? types.RRSIG then zone_loop p req rest t
      else
        let res1 := set_answer (res t) (answer (res t) ++ [rr]) in
        let progress1 := progress t + 1 in
        (* write a new dns message every x rrs *)
        if len (answer res1) >? chunkLength p then
          _ <~ server_write res1 ;;
          zone_loop p req rest
            {| res := setReply new_Message req; progress := progress1 |}
        else
          zone_loop p req rest {| res := res1; progress := progress1 |}
  end.

(** The loop [while (await iter.next())]. *)
Fixpoint tree_loop (p : Plugin) (req : Message) (tree : list NameState)
  (t : Transfer) : session Transfer :=
  match tree with
  | [] => sret t
  | ns :: rest =>
      if len (ns_data ns) <=? 0 then tree_loop p req rest t
      else
        let fqdn := util.fqdn (ns_name ns) in
        t <~ zone_loop p req (toZone (ns_data ns) fqdn) t ;;
        tree_loop p req rest t
  end.

(** [sendAXFR(req, rinfo)]: run on no message written, it gives the
    messages written to the connection and the message returned for the
    root server to send, or the error thrown. *)
Definition sendAXFR (p : Plugin) (req : Message) (rinfo : RInfo)
  (tree : list NameState) : session Message :=
  if negb (ri_tcp rinfo) then sret refuse
  else if negb (existsb (String.eqb (ri_address rinfo)) (ipList p))
  then sret refuse
  else
    (* first message has SOA *)
    let res0 := set_answer (setReply new_Message req) [soa_first] in
    t <~ tree_loop p req tree {| res := res0; progress := 0 |} ;;
    (* send any remaining rrs; add SOA since its the last message *)
    sret (set_answer (res t) (answer (res t) ++ [soa_last])).

End SendAXFR.

(** The records handed over so far: those written, then those of the
    message being filled. *)
Definition handed (t : Transfer) (written : list Message) : list RR :=
  flat_map answer written ++ answer (res t).

(** What a loop that went from [(t, written)] on the records [rrs] has
    handed over: all of them when it returns; when it throws, it is the
    size error, and the records written are a part of them, from the
    start. *)
Definition conserves (t : Transfer) (written : list Message)
  (rrs : list RR) (out : list Message * result Transfer) : Prop :=
  match snd out with
  | Ok t' => handed t' (fst out) = handed t written ++ rrs
  | Throw e =>
      e = MessageExceedsSizeLimits
      /\ exists rest, handed t written ++ rrs = flat_map answer (fst out) ++ rest
  end.

End FirstPlugin.

(** * Vocabulary of the further properties *)

(** ** The writer *)

Section WriterLog.

Variable RR_getSize : RR -> Z.
Variable Question_getSize : Question -> Z.
Variable wire : Message -> list byte.
Variable write : list Message -> list byte -> bool.

(** The callback accepted every message of [extra], handed to it in order
    after the messages of [sent]. *)
Fixpoint accepted (sent extra : list Message) : bool :=
  match extra with
  | [] => true
  | m :: rest => write sent (wire m) && accepted (sent ++ [m]) rest
  end.

(** What a session that went from [sent] to [sent'] with outcome [r] did
    with the callback: it accepted every message, or it refused the last
    one and accepted those before; in the second case, and only then, the
    outcome is ['unable to write message']. *)
Definition write_log {A : Type} (sent sent' : list Message) (r : result A)
  : Prop :=
  exists extra,
    sent' = sent ++ extra
    /\ match r with
       | Throw UnableToWrite =>
           exists pre m,
             extra = pre ++ [m] /\ accepted sent pre = true
             /\ write (sent ++ pre) (wire m) = false
       | _ => accepted sent extra = true
       end.

(** The errors of the writer: the refusal of the callback, and the size
    error of [msg.compress()]. *)
Definition writer_error (e : Error) : Prop :=
  e = UnableToWrite \/ e = MessageExceedsSizeLimits.

(** Every message but the last was full: the first record of the message
    after it did not fit. *)
Fixpoint greedy (ms : list Message) : Prop :=
  match ms with
  | m1 :: ((m2 :: _) as rest) =>
      match answer m2 with
      | rr :: _ =>
          Message_getSize RR_getSize Question_getSize m1 + RR_getSize rr
          > MAX_MESSAGE_SIZE
      | [] => False
      end
      /\ greedy rest
  | _ => True
  end.

End WriterLog.

(** ** The records of a transfer *)

(** The records of a local zone that are sent: all but the RRSIG records. *)
Definition without_sigs (zone : list RR) : list RR :=
  filter (fun rr => negb (rr_type rr =? types.RRSIG)) zone.

Section TransferPlan.

Variable toZone : list byte -> string -> list RR.

(** The records the loop over the name tree hands to the writer, the merge
    data it leaves, and the collisions it logs. *)
Fixpoint local_plan (p : Plugin) (tree : list NameState) (db : MergeDB)
  (log : list Collision) : list RR * MergeDB * list Collision :=
  match tree with
  | [] => ([], db, log)
  | ns :: rest =>
      if len (ns_data ns) <=? 0 then local_plan p rest db log
      else
        let fqdn := util.fqdn (ns_name ns) in
        let '(zone, db1, warned) := pickRRs p fqdn (toZone (ns_data ns) fqdn) db in
        let '(records, db2, log2) := local_plan p rest db1 (log ++ warned) in
        (without_sigs zone ++ records, db2, log2)
  end.

(** The records of one external name that are handed to the writer, and
    what the inner loop leaves: the glue set and the queued glue, or the
    TypeError of a glue target that has no entry. *)
Fixpoint merge_zone_plan (names : OwnerMap.t) (zone : list RR)
  (glue : NameSet.t) (glues : list (list RR))
  : list RR * result (NameSet.t * list (list RR)) :=
  match zone with
  | [] => ([], Ok (glue, glues))
  | rr :: rest =>
      if (rr_type rr =? types.NSEC) || (rr_type rr =? types.RRSIG) then
        merge_zone_plan names rest glue glues
      else
        match (if rr_type rr =? types.NS then data_ns (rr_data rr) else None) with
        | Some ns =>
            if NameSet.has glue ns then
              match OwnerMap.get names ns with
              | Some glueData =>
                  let '(records, r) :=
                    merge_zone_plan names rest (NameSet.delete glue ns)
                                    (glues ++ [rrs glueData]) in
                  (rr :: records, r)
              | None => ([rr], Throw TypeError)
              end
            else
              let '(records, r) := merge_zone_plan names rest glue glues in
              (rr :: records, r)
        | None =>
            let '(records, r) := merge_zone_plan names rest glue glues in
            (rr :: records, r)
        end
  end.

(** The records the loop over the chain set hands to the writer, and the
    glue set it leaves or the TypeError that ends it. *)
Fixpoint merge_plan (names : OwnerMap.t) (chain : list string)
  (glue : NameSet.t) : list RR * result NameSet.t :=
  match chain with
  | [] => ([], Ok glue)
  | name :: rest =>
      match OwnerMap.get names name with
      | None => ([], Throw TypeError)
      | Some owner =>
          match merge_zone_plan names (rrs owner) glue [] with
          | (records, Throw e) => (records, Throw e)
          | (records, Ok (glue1, glues)) =>
              let '(records2, r) := merge_plan names rest glue1 in
              (records ++ List.concat glues ++ records2, r)
          end
      end
  end.

(** All the records [sendAXFR] hands to the writer, in order. *)
Definition transfer_plan (soa : RR) (p : Plugin) (tree : list NameState)
  (db : MergeDB) : list RR * result NameSet.t * list Collision :=
  let db0 := {| glue := glue db; names := names db;
                nsecChain := NameSet.delete (nsecChain db) "." |} in
  let '(local, db1, log) := local_plan p tree db0 [] in
  let '(merged, r) := merge_plan (names db1) (nsecChain db1) (glue db1) in
  (soa :: local ++ merged, r, log).

End TransferPlan.

(** Every name of the chain set and of the glue set has an entry. *)
Definition closed (db : MergeDB) : Prop :=
  (forall n, In n (nsecChain db) -> exists o, OwnerMap.get (names db) n = Some o)
  /\ (forall n, In n (glue db) -> exists o, OwnerMap.get (names db) n = Some o).

(** ** The validator *)

(** The records of [records] whose owner name is [name], character for
    character, in order. *)
Definition group (records : list RR) (name : string) : list RR :=
  filter (fun rr => String.eqb (rr_name rr) name) records.

(** The names of a list in the order of their first occurrence. *)
Definition first_seen (names : list string) : NameSet.t :=
  fold_left NameSet.add names [].

(** The targets of the NS records of [records], in order. *)
Definition ns_targets (records : list RR) : list string :=
  flat_map (fun rr =>
              if rr_type rr =? types.NS then
                match data_ns (rr_data rr) with
                | Some ns => [ns]
                | None => []
                end
              else [])
           records.

(** The entry of [name] once the records [g] of that name have been added
    to the entry [o] it had. *)
Definition extend (o : option Owner) (origin name : string) (g : list RR)
  : option Owner :=
  match g with
  | [] => o
  | _ =>
      let base := match o with
                  | Some o => o
                  | None => {| delegation := false; rrs := [] |}
                  end in
      Some {| delegation :=
                delegation base
                || (negb (String.eqb name origin) && util.hasType g types.NS);
              rrs := rrs base ++ g |}
  end.

(** A record of type NSEC carries the data of an NSEC record. *)
Definition nsec_data_ok (rr : RR) : Prop :=
  rr_type rr = types.NSEC -> data_nsec (rr_data rr) <> None.

(** The records of the local store that a transfer sends when no name
    collides: for every entry that has data, its zone records without the
    RRSIG records, in the order of the name tree. *)
Definition local_dump (toZone : list byte -> string -> list RR)
  (tree : list NameState) : list RR :=
  flat_map (fun ns =>
              if len (ns_data ns) <=? 0 then []
              else without_sigs (toZone (ns_data ns) (util.fqdn (ns_name ns))))
           tree.


(** ** The client *)

(** The client with its cursor at [z]. *)
Definition with_index (c : AXFRClient) (z : Z) : AXFRClient :=
  {| index := z; maxAttempts := maxAttempts c; maxTimeout := maxTimeout c;
     client_maxMessages := client_maxMessages c; servers := servers c |}.

(** The server of attempt number [j] when the cursor started at [start]:
    the servers are taken in turn, and the first follows the last. *)
Definition server_at (l : list Server) (start : Z) (j : nat) : Server :=
  nth (Z.to_nat ((start + Z.of_nat j) mod len l)) l (mkServer "" 0).

(** The warnings of the attempts [0 .. k-1], attempt [j] having failed with
    [err j]. *)
Definition failure_log (l : list Server) (start : Z) (err : nat -> Error)
  (k : nat) : list Warning :=
  map (fun j => let s := server_at l start j in
                mkWarning (host s) (port s) (err j))
      (seq 0 k).

Section ClientSpec.

Variable decode : list byte -> option Message.
Variable network : nat -> Server -> Transport.

(** The exchange of attempt number [i] with the server [s]. *)
Definition attempt (c : AXFRClient) (i : nat) (s : Server)
  : option (result (list Message)) :=
  let t := network i s in
  exchange decode
           (new_AXFRQuery (tr_junk t) (tr_id t) (client_maxMessages c)) t.

End ClientSpec.

(** ** The stream of a transfer that is received *)

(** What the assertions of [read] have established of the messages kept so
    far: every message carries the id of the query and an answer; the first
    starts with an SOA record; no message but the last ends with one, and
    the last does exactly when the transfer is over. *)
Definition transfer_inv (q : AXFRQuery) : Prop :=
  Forall (fun m => msg_id m = id q /\ answer m <> []) (msgs q)
  /\ (forall m rest, msgs q = m :: rest ->
                     first_type (answer m) = types.SOA)
  /\ if ok q then
       exists body final,
         msgs q = body ++ [final]
         /\ last_type (answer final) = types.SOA
         /\ Forall (fun m => last_type (answer m) <> types.SOA) body
     else Forall (fun m => last_type (answer m) <> types.SOA) (msgs q).

(** A message as it travels over the connection: its length in two bytes,
    then the message. *)
Definition frame (payload : list byte) : list byte :=
  match writeUInt16BE (len payload) with
  | Some prefix => prefix ++ payload
  | None => []
  end.

Definition frames (payloads : list (list byte)) : list byte :=
  List.concat (map frame payloads).

(** The query with [ms] as the messages kept so far. *)
Definition with_msgs (q : AXFRQuery) (ms : list Message) : AXFRQuery :=
  {| buf := buf q; target := target q; size := size q; id := id q;
     msgs := ms; ok := ok q; maxMessages := maxMessages q |}.

Section Frames.

Variable decode : list byte -> option Message.

(** The messages kept once the frames of [payloads] have been decoded and
    checked one after the other, and whether the transfer is over; the
    frames after the one that ends the transfer are not looked at. *)
Fixpoint accept_frames (q : AXFRQuery) (payloads : list (list byte))
  : result (list Message * bool) :=
  match payloads with
  | [] => Ok (msgs q, false)
  | p :: rest =>
      r <- complete decode q p ;;
      let '(msgs1, done) := r in
      if done then Ok (msgs1, true)
      else accept_frames (with_msgs q msgs1) rest
  end.

End Frames.

(** The error [exchange] rejects with when the connection ends before the
    transfer is over. *)
Definition end_error (e : SocketEnd) : Error :=
  match e with
  | SocketClose => ClosedUnexpectedly
  | SocketTimeout => TimedOut
  | SocketFailure e => SocketError e
  end.

(** ** The first plugin *)

(** The chunks written are full and the message being filled is not. *)
Definition chunked (p : FirstPlugin.Plugin) (t : FirstPlugin.Transfer)
  (written : list Message) : Prop :=
  Forall (fun m => len (answer m) = FirstPlugin.chunkLength p + 1) written
  /\ len (answer (FirstPlugin.res t)) <= FirstPlugin.chunkLength p.

(** ** Proof steps *)

(** Unfolds the binds of a session. *)
Ltac run :=
  unfold sbind, sret, sthrow, transfer_writeRR, transfer_writeAll,
         transfer_flush;
  cbv beta.


(** ** Concrete data for the further examples *)

Module Cases.

(** A plugin that does not merge the external zone. *)
Definition no_merge : Plugin :=
  {| ipList := ["127.0.0.1"%string]; preferICANN := false;
     disableMerge := true |}.

(** A network on which every connection is refused. *)
Definition dead_network (i : nat) (s : Server) : Transport :=
  mkTransport 7 Sample.zeros [] (SocketFailure "ECONNREFUSED").

Definition refused (j : nat) : Error := SocketError "ECONNREFUSED".

(** Two servers and three attempts. *)
Definition options : ClientOptions :=
  mkOptions (Some ["b.root-servers.net"; "c.root-servers.net"]%string)
            (Some 3) None None.

Definition no_servers : ClientOptions := mkOptions None None None None.

(** A local store of three entries, the second of which has no data; every
    zone holds an NS record and its signature. *)
Definition tree : list NameState :=
  [mkNameState "com" [x01]; mkNameState "void" []; mkNameState "org" [x02]].

Definition toZone (data : list byte) (fqdn : string) : list RR :=
  [Sample.opaque fqdn types.NS; Sample.opaque fqdn types.RRSIG].


(** A local store whose every zone holds a record that no message can
    take. *)
Definition toZone_big (data : list byte) (fqdn : string) : list RR :=
  [Sample.big].

(** A callback that refuses every message. *)
Definition write_refused (sent : list Message) (data : list byte) : bool :=
  false.

(** A first plugin that writes two records per message. *)
Definition first_plugin : FirstPlugin.Plugin :=
  {| FirstPlugin.ipList := ["127.0.0.1"%string];
     FirstPlugin.chunkLength := 1 |}.

(** A stand-in for [IP.toHost]. *)
Definition toHost (host : string) (port : Z) : string := host.

(** The frame of [Sample.stream] without its length. *)
Definition payload : list byte := [x00; x07; x00; x00].

End Cases.

(** * Properties *)

(** ** Sets and maps *)

Lemma has_In (s : NameSet.t) (x : string) :
  NameSet.has s x = true <-> In x s.
Proof.
  unfold NameSet.has. rewrite existsb_exists. split.
  - intros [y [Hy Heq]]. apply String.eqb_eq in Heq. now subst.
  - intros H. exists x. split; [assumption | apply String.eqb_refl].
Qed.

Lemma has_delete (s : NameSet.t) (x y : string) :
  NameSet.has (NameSet.delete s x) y
  = negb (String.eqb x y) && NameSet.has s y.
Proof.
  unfold NameSet.delete. induction s as [|z s IH]; simpl.
  - now rewrite andb_false_r.
  - destruct (String.eqb x z) eqn:Hxz; simpl.
    + apply String.eqb_eq in Hxz. subst z. rewrite IH.
      rewrite (String.eqb_sym y x).
      destruct (String.eqb x y); reflexivity.
    + rewrite IH. destruct (String.eqb y z) eqn:Hyz; simpl.
      * apply String.eqb_eq in Hyz. subst z. now rewrite Hxz.
      * reflexivity.
Qed.

Lemma has_add (s : NameSet.t) (x y : string) :
  NameSet.has (NameSet.add s x) y = String.eqb y x || NameSet.has s y.
Proof.
  unfold NameSet.add. destruct (NameSet.has s x) eqn:Hx.
  - destruct (String.eqb y x) eqn:Hyx; [|reflexivity].
    apply String.eqb_eq in Hyx. now subst.
  - unfold NameSet.has. rewrite existsb_app. simpl.
    rewrite orb_false_r. apply orb_comm.
Qed.

(** ** [verifyZone]: NSEC3 records *)

Lemma collect_throws (v : AXFRValidator) (rr : RR) (e : Error) :
  collect v rr = Throw e -> rr_type rr = types.NSEC3 /\ e = BogusNSEC3.
Proof.
  unfold collect. destruct (rr_type rr =? types.NSEC3) eqn:H; [|discriminate].
  intros [= <-]. split; [now apply Z.eqb_eq | reflexivity].
Qed.

Lemma collect_NSEC3 (v : AXFRValidator) (rr : RR) :
  rr_type rr = types.NSEC3 -> collect v rr = Throw BogusNSEC3.
Proof.
  intros H. unfold collect. rewrite H, Z.eqb_refl. reflexivity.
Qed.

Lemma collect_all_NSEC3 (records : list RR) :
  forall v, (exists rr, In rr records /\ rr_type rr = types.NSEC3) ->
  collect_all v records = Throw BogusNSEC3.
Proof.
  induction records as [|r records IH]; intros v [rr [Hin Hty]].
  - destruct Hin.
  - simpl. destruct (collect v r) as [v'|e] eqn:Hc; simpl.
    + destruct Hin as [-> | Hin].
      * rewrite (collect_NSEC3 v rr Hty) in Hc. discriminate.
      * apply IH. now exists rr.
    + apply collect_throws in Hc. now destruct Hc as [_ ->].
Qed.

(** C4. Whatever the verifier answers and whatever the other records are, a
    message list that holds a record of type NSEC3 makes [verifyZone] throw
    'bogus: NSEC3 not supported'; the throw happens in the first loop, before
    any signature is verified and before the NSEC chain is walked. *)
Theorem verifyZone_rejects_NSEC3
  (KeyMap : Type) (verifyMessage : Message -> KeyMap -> bool)
  (v : AXFRValidator) (messages : list Message) (keyMap : KeyMap) :
  (exists message rr,
      In message messages /\ In rr (answer message)
      /\ rr_type rr = types.NSEC3) ->
  verifyZone KeyMap verifyMessage v messages keyMap = Some (Throw BogusNSEC3)
  /\ is_bogus BogusNSEC3 = true
  /\ collect_all v (flat_map answer messages) = Throw BogusNSEC3.
Proof.
  intros [message [rr [Hm [Hrr Hty]]]].
  assert (Hc : collect_all v (flat_map answer messages) = Throw BogusNSEC3).
  { apply collect_all_NSEC3. exists rr. split; [|assumption].
    apply in_flat_map. now exists message. }
  unfold verifyZone. rewrite Hc. auto.
Qed.

(** C4 at a concrete zone. *)
Lemma verifyZone_rejects_NSEC3_witness :
  verifyZone unit Sample.reject_addresses new_AXFRValidator
             Sample.nsec3_zone tt = Some (Throw BogusNSEC3)
  /\ is_bogus BogusNSEC3 = true
  /\ collect_all new_AXFRValidator (flat_map answer Sample.nsec3_zone)
     = Throw BogusNSEC3.
Proof.
  apply (verifyZone_rejects_NSEC3 unit Sample.reject_addresses
           new_AXFRValidator Sample.nsec3_zone tt).
  exists (hd new_Message Sample.nsec3_zone), (Sample.opaque "abc." types.NSEC3).
  simpl. intuition.
Defined.

(** ** [AXFRClient.query]: failover *)

Lemma exchange_connection_failure (decode : list byte -> option Message)
  (q : AXFRQuery) (t : Transport) (e : string) :
  ok q = false -> tr_chunks t = [] -> tr_end t = SocketFailure e ->
  exchange decode q t = Some (Throw (SocketError e)).
Proof.
  intros Hok Hc He. unfold exchange. rewrite Hc. simpl. now rewrite Hok, He.
Qed.

(** C7. A client at its first server with three servers and an attempt
    ceiling of at least three (the default is six): when the connections of
    the first two attempts fail and the exchange with the third server
    resolves with [data], [query] returns [data], logs exactly two warnings,
    the first naming the first server and the second naming the second, and
    leaves the cursor on the third server. *)
Theorem query_fails_over_to_third_server
  (decode : list byte -> option Message) (network : nat -> Server -> Transport)
  (c : AXFRClient) (s0 s1 s2 : Server) (e0 e1 : string) (data : list Message) :
  index c = 0 ->
  servers c = Some [s0; s1; s2] ->
  3 <= maxAttempts c ->
  tr_chunks (network 0%nat s0) = [] ->
  tr_end (network 0%nat s0) = SocketFailure e0 ->
  tr_chunks (network 1%nat s1) = [] ->
  tr_end (network 1%nat s1) = SocketFailure e1 ->
  exchange decode
           (new_AXFRQuery (tr_junk (network 2%nat s2)) (tr_id (network 2%nat s2))
                          (client_maxMessages c))
           (network 2%nat s2) = Some (Ok data) ->
  exists c',
    query decode network c
    = Some (c',
            [mkWarning (host s0) (port s0) (SocketError e0);
             mkWarning (host s1) (port s1) (SocketError e1)],
            Ok (Some data))
    /\ index c' = 2 /\ servers c' = servers c.
Proof.
  intros Hi Hs Hm Hc0 He0 Hc1 He1 Hx.
  exists {| index := 2; maxAttempts := maxAttempts c;
            maxTimeout := maxTimeout c;
            client_maxMessages := client_maxMessages c;
            servers := servers c |}.
  split; [|split; reflexivity].
  unfold query, getServer. rewrite Hi, Hs. simpl.
  destruct (Z.to_nat (maxAttempts c)) as [|[|[|n]]] eqn:Hn; try lia.
  cbn [attempts].
  rewrite (exchange_connection_failure decode _ _ e0) by (assumption || reflexivity).
  unfold nextServer, getServer. rewrite Hi, Hs. cbn -[exchange new_AXFRQuery].
  change (Pos.to_nat 1) with 1%nat. change (Pos.to_nat 2) with 2%nat.
  cbn -[exchange new_AXFRQuery].
  rewrite (exchange_connection_failure decode _ _ e1) by (assumption || reflexivity).
  cbn -[exchange new_AXFRQuery]. rewrite Hx. reflexivity.
Qed.

(** C7 with the default servers and the default ceiling. *)
Lemma query_fails_over_to_third_server_witness :
  query Sample.decode Sample.network
        (new_AXFRClient Sample.fromHost Sample.options)
  = Some ({| index := 2; maxAttempts := 6; maxTimeout := 6000;
             client_maxMessages := 1000;
             servers := Some [mkServer "b.root-servers.net" 53;
                              mkServer "c.root-servers.net" 53;
                              mkServer "f.root-servers.net" 53] |},
          [mkWarning "b.root-servers.net" 53 (SocketError "ECONNREFUSED");
           mkWarning "c.root-servers.net" 53 (SocketError "ECONNREFUSED")],
          Ok (Some [Sample.reply])).
Proof.
  destruct (query_fails_over_to_third_server Sample.decode Sample.network
              (new_AXFRClient Sample.fromHost Sample.options)
              (mkServer "b.root-servers.net" 53)
              (mkServer "c.root-servers.net" 53)
              (mkServer "f.root-servers.net" 53)
              "ECONNREFUSED" "ECONNREFUSED" [Sample.reply]
              eq_refl eq_refl ltac:(simpl; lia) eq_refl eq_refl eq_refl eq_refl
              ltac:(vm_compute; reflexivity))
    as [c' [Hq [Hi Hs]]].
  rewrite Hq. destruct c' as [i a t m s]. simpl in Hi, Hs. subst i s.
  vm_compute in Hq. injection Hq as <- <- <-. reflexivity.
Defined.

(** ** [MessageWriter] *)

Section WriterProperties.

Variable RR_getSize : RR -> Z.
Variable Question_getSize : Question -> Z.
Variable wire : Message -> list byte.
Variable write : list Message -> list byte -> bool.

Local Abbreviation getSize := (Message_getSize RR_getSize Question_getSize).
Local Abbreviation flush' := (flush RR_getSize Question_getSize wire write).
Local Abbreviation writeRR' := (writeRR RR_getSize Question_getSize wire write).
Local Abbreviation writeAll' := (writeAll RR_getSize Question_getSize wire write).
Local Abbreviation writer_inv' := (writer_inv RR_getSize Question_getSize).
Local Abbreviation base_size' := (base_size RR_getSize Question_getSize).
Local Abbreviation size_inv' := (size_inv RR_getSize Question_getSize).

Lemma getSize_push (m : Message) (rr : RR) :
  getSize (set_answer m (answer m ++ [rr])) = getSize m + RR_getSize rr.
Proof.
  unfold Message_getSize. simpl.
  rewrite fold_right_app. simpl.
  generalize (answer m). intros l. induction l as [|a l IH]; simpl; lia.
Qed.

Lemma getSize_reset (req : Message) (m : Message) :
  question m = question (setReply new_Message req) ->
  getSize (set_answer m []) = base_size' req.
Proof.
  intros H. unfold base_size, Message_getSize. simpl. now rewrite H.
Qed.

Lemma new_MessageWriter_inv (req : Message) :
  base_size' req <= MAX_MESSAGE_SIZE ->
  writer_inv' req (new_MessageWriter RR_getSize Question_getSize req).
Proof.
  intros H. unfold writer_inv, new_MessageWriter, reset. simpl.
  repeat split. exact H.
Qed.

Lemma reset_inv (req : Message) (w : MessageWriter) :
  base_size' req <= MAX_MESSAGE_SIZE ->
  question (w_msg w) = question (setReply new_Message req) ->
  writer_inv' req (reset RR_getSize Question_getSize w).
Proof.
  intros Hb Hq. unfold writer_inv, reset. simpl. repeat split.
  - rewrite (getSize_reset req) by assumption. exact Hb.
  - exact Hq.
Qed.

(** [msg.compress()] returns the bytes it assembled when they are at most
    65535, and throws otherwise. *)
Lemma Message_compress_Ok (m : Message) (data : list byte) :
  Message_compress wire m = Ok data
  <-> data = wire m /\ len (wire m) <= MAX_MESSAGE_SIZE.
Proof.
  unfold Message_compress, constants.MAX_MSG_SIZE, MAX_MESSAGE_SIZE.
  destruct (len (wire m) >? 65535) eqn:Hgt.
  - apply Z.gtb_lt in Hgt. split; [discriminate | lia].
  - rewrite Z.gtb_ltb, Z.ltb_ge in Hgt. split.
    + intros [= <-]. auto.
    + intros [-> _]. reflexivity.
Qed.

Lemma Message_compress_Throw (m : Message) (e : Error) :
  Message_compress wire m = Throw e
  <-> e = MessageExceedsSizeLimits /\ len (wire m) > MAX_MESSAGE_SIZE.
Proof.
  unfold Message_compress, constants.MAX_MSG_SIZE, MAX_MESSAGE_SIZE.
  destruct (len (wire m) >? 65535) eqn:Hgt.
  - apply Z.gtb_lt in Hgt. split.
    + intros [= <-]. split; [reflexivity | lia].
    + intros [-> _]. reflexivity.
  - rewrite Z.gtb_ltb, Z.ltb_ge in Hgt. split; [discriminate | lia].
Qed.

Lemma Message_compress_fits (m : Message) :
  len (wire m) <= MAX_MESSAGE_SIZE -> Message_compress wire m = Ok (wire m).
Proof. intros H. now apply Message_compress_Ok. Qed.

(** The two ways [flush] returns, and the two ways it throws. *)
Lemma flush_Ok (w w' : MessageWriter) (sent sent' : list Message) :
  flush' w sent = (sent', Ok w') ->
  (w_size w = 0 /\ sent' = sent /\ w' = w)
  \/ (len (wire (w_msg w)) <= MAX_MESSAGE_SIZE
      /\ write sent (wire (w_msg w)) = true
      /\ sent' = sent ++ [w_msg w]
      /\ w' = reset RR_getSize Question_getSize w).
Proof.
  unfold flush. destruct (w_size w =? 0) eqn:Hz.
  - apply Z.eqb_eq in Hz. intros [= <- <-]. now left.
  - destruct (Message_compress wire (w_msg w)) as [data|e] eqn:Hc;
      [|discriminate].
    apply Message_compress_Ok in Hc. destruct Hc as [-> Hle].
    destruct (write sent (wire (w_msg w))); simpl; [|discriminate].
    intros [= <- <-]. right. auto.
Qed.

Lemma flush_Throw (w : MessageWriter) (sent sent' : list Message) (e : Error) :
  flush' w sent = (sent', Throw e) ->
  (e = MessageExceedsSizeLimits /\ sent' = sent
   /\ len (wire (w_msg w)) > MAX_MESSAGE_SIZE)
  \/ (e = UnableToWrite /\ sent' = sent ++ [w_msg w]
      /\ len (wire (w_msg w)) <= MAX_MESSAGE_SIZE
      /\ write sent (wire (w_msg w)) = false).
Proof.
  unfold flush. destruct (w_size w =? 0); [discriminate|].
  destruct (Message_compress wire (w_msg w)) as [data|e0] eqn:Hc.
  - apply Message_compress_Ok in Hc. destruct Hc as [-> Hle].
    destruct (write sent (wire (w_msg w))) eqn:Hw; simpl; [discriminate|].
    intros [= <- <-]. right. auto.
  - apply Message_compress_Throw in Hc. destruct Hc as [-> Hbig].
    intros [= <- <-]. left. auto.
Qed.

(** What reaches the callback has passed the size check of
    [msg.compress()]. *)
Lemma flush_within_limit (w : MessageWriter) (sent : list Message) :
  sent_within_limit wire sent ->
  sent_within_limit wire (fst (flush' w sent)).
Proof.
  intros Hsent. unfold flush.
  destruct (w_size w =? 0); [exact Hsent|].
  destruct (Message_compress wire (w_msg w)) as [data|e] eqn:Hc;
    [|exact Hsent].
  apply Message_compress_Ok in Hc. destruct Hc as [_ Hle].
  assert (Hall : sent_within_limit wire (sent ++ [w_msg w])).
  { intros m Hin. apply in_app_or in Hin. destruct Hin as [Hin|[<-|[]]].
    - now apply Hsent.
    - exact Hle. }
  destruct (negb (write sent data)); exact Hall.
Qed.

Lemma writeRR_within_limit (w : MessageWriter) (rr : RR) (sent : list Message) :
  sent_within_limit wire sent ->
  sent_within_limit wire (fst (writeRR' w rr sent)).
Proof.
  intros Hsent. unfold writeRR, sbind.
  set (w1 := {| w_req := w_req w; w_msg := w_msg w; w_size := w_size w;
                w_written := w_written w + 1 |}).
  destruct (RR_getSize rr + w_size w1 >? MAX_MESSAGE_SIZE); [|exact Hsent].
  pose proof (flush_within_limit w1 sent Hsent) as Hf.
  destruct (flush' w1 sent) as [sent' [w2|e]]; exact Hf.
Qed.

Lemma writeAll_within_limit (rrs : list RR) :
  forall w sent,
    sent_within_limit wire sent ->
    sent_within_limit wire (fst (writeAll' w rrs sent)).
Proof.
  induction rrs as [|rr rrs IH]; intros w sent Hsent; [exact Hsent|].
  simpl. unfold sbind.
  pose proof (writeRR_within_limit w rr sent Hsent) as H1.
  destruct (writeRR' w rr sent) as [sent1 [w1|e]]; simpl in *.
  - now apply IH.
  - exact H1.
Qed.

Hypothesis RR_getSize_nonneg : forall rr, 0 <= RR_getSize rr.
Hypothesis Question_getSize_nonneg : forall qs, 0 <= Question_getSize qs.

(** Every message has its 12-byte header. *)
Lemma getSize_header (m : Message) : 12 <= getSize m.
Proof.
  unfold Message_getSize.
  assert (Hq : 0 <= fold_right (fun qs acc => Question_getSize qs + acc) 0
                               (question m)).
  { induction (question m) as [|q l IH]; simpl; [lia|].
    specialize (Question_getSize_nonneg q). lia. }
  assert (Ha : 0 <= fold_right (fun rr acc => RR_getSize rr + acc) 0 (answer m)).
  { induction (answer m) as [|a l IH]; simpl; [lia|].
    specialize (RR_getSize_nonneg a). lia. }
  lia.
Qed.

(** [flush] on a writer whose running size is the size of its message: the
    test [this.size === 0] fails. A message that passes the size check of
    [msg.compress()] goes to the callback, and the writer is reset when the
    callback accepts. *)
Lemma flush_writes (w : MessageWriter) (sent : list Message) :
  w_size w = getSize (w_msg w) ->
  len (wire (w_msg w)) <= MAX_MESSAGE_SIZE ->
  flush' w sent
  = (sent ++ [w_msg w],
     if write sent (wire (w_msg w))
     then Ok (reset RR_getSize Question_getSize w)
     else Throw UnableToWrite).
Proof.
  intros Hs Hfit. unfold flush.
  pose proof (getSize_header (w_msg w)) as Hh.
  destruct (w_size w =? 0) eqn:Hz; [apply Z.eqb_eq in Hz; lia|].
  rewrite (Message_compress_fits _ Hfit).
  destruct (write sent (wire (w_msg w))); reflexivity.
Qed.

(** A message that does not pass it is not handed over: [flush] throws the
    error of [msg.compress()]. *)
Lemma flush_throws (w : MessageWriter) (sent : list Message) :
  w_size w = getSize (w_msg w) ->
  len (wire (w_msg w)) > MAX_MESSAGE_SIZE ->
  flush' w sent = (sent, Throw MessageExceedsSizeLimits).
Proof.
  intros Hs Hbig. unfold flush.
  pose proof (getSize_header (w_msg w)) as Hh.
  destruct (w_size w =? 0) eqn:Hz; [apply Z.eqb_eq in Hz; lia|].
  replace (Message_compress wire (w_msg w))
    with (@Throw (list byte) MessageExceedsSizeLimits); [reflexivity|].
  symmetry. now apply Message_compress_Throw.
Qed.

Hypothesis compress_le : forall m, len (wire m) <= getSize m.

Lemma writer_inv_fits (req : Message) (w : MessageWriter) :
  writer_inv' req w -> len (wire (w_msg w)) <= MAX_MESSAGE_SIZE.
Proof.
  intros [Hs [Hle _]]. specialize (compress_le (w_msg w)). lia.
Qed.

Lemma flush_inv (req : Message) (w : MessageWriter) (sent : list Message) :
  base_size' req <= MAX_MESSAGE_SIZE ->
  writer_inv' req w -> sent_within_limit wire sent ->
  sent_within_limit wire (fst (flush' w sent))
  /\ forall w', snd (flush' w sent) = Ok w' ->
                writer_inv' req w' /\ w_size w' = base_size' req.
Proof.
  intros Hb Hinv Hsent. split; [now apply flush_within_limit|].
  pose proof (writer_inv_fits req w Hinv) as Hfit.
  destruct Hinv as [Hs [Hle Hq]].
  rewrite flush_writes by assumption. simpl.
  destruct (write sent (wire (w_msg w))); [|discriminate].
  intros w' [= <-]. split; [now apply reset_inv|].
  simpl. now apply getSize_reset.
Qed.

Lemma writeRR_inv (req : Message) (w : MessageWriter) (rr : RR)
  (sent : list Message) :
  base_size' req <= MAX_MESSAGE_SIZE ->
  base_size' req + RR_getSize rr <= MAX_MESSAGE_SIZE ->
  writer_inv' req w -> sent_within_limit wire sent ->
  sent_within_limit wire (fst (writeRR' w rr sent))
  /\ forall w', snd (writeRR' w rr sent) = Ok w' -> writer_inv' req w'.
Proof.
  intros Hb Hfit Hinv Hsent. unfold writeRR, sbind.
  set (w1 := {| w_req := w_req w; w_msg := w_msg w; w_size := w_size w;
                w_written := w_written w + 1 |}).
  assert (Hinv1 : writer_inv' req w1) by exact Hinv.
  destruct (RR_getSize rr + w_size w1 >? MAX_MESSAGE_SIZE) eqn:Hgt.
  - destruct (flush_inv req w1 sent Hb Hinv1 Hsent) as [Hs' Hw'].
    destruct (flush' w1 sent) as [sent' [w2|e]]; simpl in *.
    + split; [assumption|]. intros w' [= <-].
      destruct (Hw' w2 eq_refl) as [[Hs2 [Hle2 Hq2]] Hbase].
      unfold writer_inv. simpl. rewrite getSize_push.
      unfold MAX_MESSAGE_SIZE in *.
      split; [f_equal; assumption|]. split; [lia|assumption].
    + split; [assumption|]. discriminate.
  - simpl. split; [assumption|]. intros w' [= <-].
    destruct Hinv1 as [Hs [Hle Hq]].
    unfold writer_inv. simpl. rewrite getSize_push.
    rewrite Z.gtb_ltb, Z.ltb_ge in Hgt. simpl in Hgt.
    unfold MAX_MESSAGE_SIZE in *.
    split; [f_equal; assumption|]. split; [lia|assumption].
Qed.

Lemma writeAll_inv (req : Message) (rrs : list RR) :
  base_size' req <= MAX_MESSAGE_SIZE ->
  (forall rr, In rr rrs -> base_size' req + RR_getSize rr <= MAX_MESSAGE_SIZE) ->
  forall w sent,
    writer_inv' req w -> sent_within_limit wire sent ->
    sent_within_limit wire (fst (writeAll' w rrs sent))
    /\ forall w', snd (writeAll' w rrs sent) = Ok w' -> writer_inv' req w'.
Proof.
  intros Hb. induction rrs as [|rr rrs IH]; intros Hfit w sent Hinv Hsent.
  - simpl. split; [assumption|]. now intros w' [= <-].
  - simpl. unfold sbind.
    destruct (writeRR_inv req w rr sent Hb (Hfit rr (in_eq _ _)) Hinv Hsent)
      as [Hs1 Hw1].
    destruct (writeRR' w rr sent) as [sent1 [w1|e]]; simpl in *.
    + apply IH; [intros r Hr; apply Hfit; now right| now apply Hw1 | assumption].
    + split; [assumption|]. discriminate.
Qed.

(** While every record fits in a message of its own, the size check of
    [msg.compress()] never fails: the one error of the writer is the
    refusal of the callback. *)
Lemma flush_fit_error (req : Message) (w : MessageWriter)
  (sent : list Message) (e : Error) :
  writer_inv' req w ->
  snd (flush' w sent) = Throw e -> e = UnableToWrite.
Proof.
  intros Hinv. pose proof (writer_inv_fits req w Hinv) as Hfit.
  destruct Hinv as [Hs _]. rewrite flush_writes by assumption. simpl.
  destruct (write sent (wire (w_msg w))); [discriminate|].
  now intros [= <-].
Qed.

Lemma writeRR_fit_error (req : Message) (w : MessageWriter) (rr : RR)
  (sent : list Message) (e : Error) :
  writer_inv' req w ->
  snd (writeRR' w rr sent) = Throw e -> e = UnableToWrite.
Proof.
  intros Hinv. unfold writeRR, sbind.
  set (w1 := {| w_req := w_req w; w_msg := w_msg w; w_size := w_size w;
                w_written := w_written w + 1 |}).
  assert (Hinv1 : writer_inv' req w1) by exact Hinv.
  destruct (RR_getSize rr + w_size w1 >? MAX_MESSAGE_SIZE); [|discriminate].
  pose proof (flush_fit_error req w1 sent e Hinv1) as Hf.
  destruct (flush' w1 sent) as [sent' [w2|e']]; [discriminate|].
  exact Hf.
Qed.

Lemma writeAll_fit_error (req : Message) (rrs : list RR) :
  base_size' req <= MAX_MESSAGE_SIZE ->
  (forall rr, In rr rrs -> base_size' req + RR_getSize rr <= MAX_MESSAGE_SIZE) ->
  forall w sent e,
    writer_inv' req w -> sent_within_limit wire sent ->
    snd (writeAll' w rrs sent) = Throw e -> e = UnableToWrite.
Proof.
  intros Hb. induction rrs as [|rr rrs IH]; intros Hfit w sent e Hinv Hsent;
    [discriminate|].
  simpl. unfold sbind.
  destruct (writeRR_inv req w rr sent Hb (Hfit rr (in_eq _ _)) Hinv Hsent)
    as [Hs1 Hw1].
  pose proof (writeRR_fit_error req w rr sent e Hinv) as He.
  destruct (writeRR' w rr sent) as [sent1 [w1|e1]]; simpl in *.
  - apply IH; [intros r Hr; apply Hfit; now right| now apply Hw1 | assumption].
  - exact He.
Qed.

(** C3. Whatever the records, every message handed to the write callback
    while they are written and the writer is flushed serializes to at most
    65535 bytes: [flush] hands over what [msg.compress()] returned. Whenever
    a record pushes the running size past 65535, [writeRR] flushes first: a
    current message over the limit makes it throw the size error with
    nothing handed over; otherwise the current message goes to the callback
    and, when the callback accepts, the record becomes the only answer of
    the next message. And when no size is negative, compression never makes
    a message longer than [getSize] says and the reply with any single one
    of the records fits in 65535 bytes, the writer keeps the limit by
    itself: the size error does not occur. *)
Theorem writer_messages_within_limit (req : Message) (rrs : list RR) :
  let run := (w <~ writeAll' (new_MessageWriter RR_getSize Question_getSize req)
                             rrs ;;
              flush' w) [] in
  (forall m, In m (fst run) -> len (wire m) <= MAX_MESSAGE_SIZE)
  /\ (forall w sent rr,
        size_inv' w ->
        question (w_msg w) = question (setReply new_Message req) ->
        RR_getSize rr + w_size w > MAX_MESSAGE_SIZE ->
        (len (wire (w_msg w)) > MAX_MESSAGE_SIZE ->
         writeRR' w rr sent = (sent, Throw MessageExceedsSizeLimits))
        /\ (len (wire (w_msg w)) <= MAX_MESSAGE_SIZE ->
            fst (writeRR' w rr sent) = sent ++ [w_msg w]
            /\ (write sent (wire (w_msg w)) = false ->
                snd (writeRR' w rr sent) = Throw UnableToWrite)
            /\ (write sent (wire (w_msg w)) = true ->
                exists w', snd (writeRR' w rr sent) = Ok w'
                           /\ answer (w_msg w') = [rr]
                           /\ w_size w' = base_size' req + RR_getSize rr)))
  /\ (base_size' req <= MAX_MESSAGE_SIZE ->
      (forall rr, In rr rrs ->
                  base_size' req + RR_getSize rr <= MAX_MESSAGE_SIZE) ->
      forall e, snd run = Throw e -> e = UnableToWrite).
Proof.
  cbv zeta. split; [|split].
  - unfold sbind.
    assert (Hnil : sent_within_limit wire []) by (intros m []).
    pose proof (writeAll_within_limit rrs
                  (new_MessageWriter RR_getSize Question_getSize req) [] Hnil)
      as Hs.
    destruct (writeAll' _ rrs []) as [sent [w|e]]; simpl in *.
    + now apply flush_within_limit.
    + exact Hs.
  - intros w sent rr Hs Hq Hgt.
    unfold writeRR, sbind.
    set (w1 := {| w_req := w_req w; w_msg := w_msg w; w_size := w_size w;
                  w_written := w_written w + 1 |}).
    replace (RR_getSize rr + w_size w1 >? MAX_MESSAGE_SIZE) with true
      by (symmetry; apply Z.gtb_lt; simpl; lia).
    split.
    + intros Hbig. now rewrite (flush_throws w1 sent Hs Hbig).
    + intros Hfit. rewrite (flush_writes w1 sent Hs Hfit). simpl.
      destruct (write sent (wire (w_msg w))); simpl.
      * split; [reflexivity|]. split; [discriminate|]. intros _.
        eexists. split; [reflexivity|]. simpl. split; [reflexivity|].
        now rewrite (getSize_reset req).
      * split; [reflexivity|]. split; [reflexivity|]. discriminate.
  - intros Hb Hfit e. unfold sbind.
    assert (Hnil : sent_within_limit wire []) by (intros m []).
    destruct (writeAll_inv req rrs Hb Hfit _ []
                (new_MessageWriter_inv req Hb) Hnil) as [Hs Hw].
    pose proof (writeAll_fit_error req rrs Hb Hfit _ [] e
                  (new_MessageWriter_inv req Hb) Hnil) as He.
    destruct (writeAll' _ rrs []) as [sent [w|e']]; simpl in *.
    + apply (flush_fit_error req w sent e (Hw w eq_refl)).
    + exact He.
Qed.

End WriterProperties.

Lemma Sample_rr_size_nonneg (rr : RR) : 0 <= Sample.rr_size rr.
Proof.
  unfold Sample.rr_size, len. destruct (rr_data rr); lia.
Qed.

Lemma Sample_qs_size_nonneg (qs : Question) : 0 <= Sample.qs_size qs.
Proof. unfold Sample.qs_size. lia. Qed.

Lemma Sample_compress_le (m : Message) :
  len (Sample.wire m) <= Message_getSize Sample.rr_size Sample.qs_size m.
Proof.
  unfold Sample.wire, len. rewrite repeat_length.
  pose proof (getSize_header Sample.rr_size Sample.qs_size
                Sample_rr_size_nonneg Sample_qs_size_nonneg m).
  lia.
Qed.

(** C3 on a transfer of three small records, and on a record that no
    message can hold: the reply takes 17 bytes and the record 65535, the
    writer flushes the empty message and appends the record, and the final
    [flush] throws the size error of [msg.compress()] without handing the
    65552 bytes over. *)
Lemma writer_messages_within_limit_witness :
  (base_size Sample.rr_size Sample.qs_size Sample.request <= MAX_MESSAGE_SIZE
   /\ Forall (fun rr => base_size Sample.rr_size Sample.qs_size Sample.request
                        + Sample.rr_size rr <= MAX_MESSAGE_SIZE)
             [Sample.soa; Sample.opaque "com." types.NS; Sample.soa])
  /\ (let run :=
        (w <~ writeAll Sample.rr_size Sample.qs_size Sample.wire
                       Sample.write_ok
                       (new_MessageWriter Sample.rr_size Sample.qs_size
                                          Sample.request)
                       [Sample.soa; Sample.opaque "com." types.NS;
                        Sample.soa] ;;
         flush Sample.rr_size Sample.qs_size Sample.wire Sample.write_ok w) []
      in
      Forall (fun m => len (Sample.wire m) <= MAX_MESSAGE_SIZE) (fst run)
      /\ forall e, snd run = Throw e -> e = UnableToWrite)
  /\ (let run :=
        (w <~ writeAll Sample.rr_size Sample.qs_size Sample.wire
                       Sample.write_ok
                       (new_MessageWriter Sample.rr_size Sample.qs_size
                                          Sample.request)
                       [Sample.big] ;;
         flush Sample.rr_size Sample.qs_size Sample.wire Sample.write_ok w) []
      in
      map (fun m => len (Sample.wire m)) (fst run) = [17]
      /\ snd run = Throw MessageExceedsSizeLimits
      /\ Forall (fun m => len (Sample.wire m) <= MAX_MESSAGE_SIZE) (fst run)).
Proof.
  assert (Hb : base_size Sample.rr_size Sample.qs_size Sample.request
               <= MAX_MESSAGE_SIZE) by (vm_compute; discriminate).
  assert (Hfit : Forall (fun rr =>
                           base_size Sample.rr_size Sample.qs_size Sample.request
                           + Sample.rr_size rr <= MAX_MESSAGE_SIZE)
                        [Sample.soa; Sample.opaque "com." types.NS; Sample.soa]).
  { repeat constructor; vm_compute; discriminate. }
  split; [split; [exact Hb | exact Hfit]|].
  split.
  - destruct (writer_messages_within_limit Sample.rr_size Sample.qs_size
                Sample.wire Sample.write_ok
                Sample_rr_size_nonneg Sample_qs_size_nonneg Sample_compress_le
                Sample.request
                [Sample.soa; Sample.opaque "com." types.NS; Sample.soa])
      as [Hlimit [_ Herr]].
    split.
    + apply Forall_forall. exact Hlimit.
    + exact (Herr Hb (proj1 (Forall_forall _ _) Hfit)).
  - destruct (writer_messages_within_limit Sample.rr_size Sample.qs_size
                Sample.wire Sample.write_ok
                Sample_rr_size_nonneg Sample_qs_size_nonneg Sample_compress_le
                Sample.request [Sample.big])
      as [Hlimit _].
    split; [vm_compute; reflexivity|].
    split; [vm_compute; reflexivity|].
    apply Forall_forall. exact Hlimit.
Defined.

(** C8: [flush] on a writer that holds no record. The running size is the
    17 bytes of the seeded reply, so the test [this.size === 0] fails, and
    the callback is handed a message without answers. *)
Lemma flush_on_empty_buffer_writes :
  let w := new_MessageWriter Sample.rr_size Sample.qs_size Sample.request in
  answer (w_msg w) = []
  /\ w_size w = 17
  /\ flush Sample.rr_size Sample.qs_size Sample.wire Sample.write_ok w []
     = ([w_msg w], Ok w).
Proof.
  vm_compute. repeat split.
Qed.

(** ** [verifyNSEC] and [verifyBitmap] *)

Lemma verifyBitmap_loop_spec (name : string) (owner : Owner) (bitmap : list Z) :
  forall hasNS,
    match verifyBitmap_loop name owner bitmap hasNS with
    | Ok h =>
        (forall t, In t bitmap -> util.hasType (rrs owner) t = true)
        /\ h = hasNS || existsb (fun t => t =? types.NS) bitmap
    | Throw e =>
        exists t, e = BogusMissingType t name /\ In t bitmap
                  /\ util.hasType (rrs owner) t = false
    end.
Proof.
  induction bitmap as [|t bitmap IH]; intros hasNS; simpl.
  - split; [intros t []|]. now rewrite orb_false_r.
  - destruct (util.hasType (rrs owner) t) eqn:Ht; simpl.
    + specialize (IH (if t =? types.NS then true else hasNS)).
      destruct (verifyBitmap_loop name owner bitmap _) as [h|e].
      * destruct IH as [Hall Hh]. split.
        -- intros t' [<-|Hin]; [assumption | now apply Hall].
        -- rewrite Hh. destruct (t =? types.NS), hasNS; reflexivity.
      * destruct IH as [t' [He [Hin Hf]]]. exists t'. auto.
    + exists t. auto.
Qed.


Lemma verifyBitmap_spec (name : string) (owner : Owner) (bitmap : list Z) :
  match verifyBitmap name owner bitmap with
  | Ok _ => bitmap_ok owner bitmap
  | Throw e => is_bogus e = true /\ ~ bitmap_ok owner bitmap
  end.
Proof.
  unfold verifyBitmap, bitmap_ok.
  pose proof (verifyBitmap_loop_spec name owner bitmap false) as H.
  destruct (verifyBitmap_loop name owner bitmap false) as [h|e]; simpl.
  - destruct H as [Hall Hh]. simpl in Hh.
    assert (Hns : h = true <-> In types.NS bitmap).
    { rewrite Hh, existsb_exists. split.
      - intros [t [Hin Ht]]. apply Z.eqb_eq in Ht. now subst.
      - intros Hin. exists types.NS. split; [assumption | reflexivity]. }
    destruct (delegation owner); simpl.
    + destruct h; simpl.
      * split; [assumption|]. intros _. now apply Hns.
      * split; [reflexivity|]. intros [_ Hd].
        specialize (Hd eq_refl). apply Hns in Hd. discriminate.
    + split; [assumption | discriminate].
  - destruct H as [t [-> [Hin Hf]]]. split; [reflexivity|].
    intros [Hall _]. rewrite (Hall t Hin) in Hf. discriminate.
Qed.




(** The outcome of one turn of the loop, read off the code. *)
Lemma nsec_walk_step (fuel : nat) (v : AXFRValidator) (name : string)
  (seen : NameSet.t) :
  (exists e, nsec_walk (S fuel) v name seen = Some (Throw e)
             /\ (is_bogus e = true \/ e = TypeError)
             /\ (forall next, ~ visit_ok v name next))
  \/ (exists next, visit_ok v name next
        /\ nsec_walk (S fuel) v name seen
           = if NameSet.has seen next then
               if String.eqb next (origin v) then Some (Ok seen)
               else Some (Throw BogusBadChain)
             else nsec_walk fuel v next (seen ++ [next])).
Proof.
  cbn [nsec_walk].
  destruct (OwnerMap.get (owners v) name) as [owner|] eqn:Hget.
  2:{ left. exists BogusInvalidData. split; [reflexivity|]. split; [now left|].
      intros next. intros [o [rr [b [Ho _]]]]. congruence. }
  destruct (util.extractSet (rrs owner) name [types.NSEC]) as [|rr [|rr' l]] eqn:Hset.
  1,3: left; exists (BogusNSECMustExist name); split; [reflexivity|];
       (split; [now left|]); intros next;
       intros [o [r [b [Ho [Hx _]]]]]; congruence.
  destruct (rr_data rr) as [ns|next bitmap|rd] eqn:Hdata; simpl.
  1,3: left; exists TypeError; split; [reflexivity|]; (split; [now right|]);
       intros next; intros [o [r [b [Ho [Hx [Hd _]]]]]]; congruence.
  pose proof (verifyBitmap_spec name owner bitmap) as Hb.
  destruct (verifyBitmap name owner bitmap) as [u|e].
  - right. exists next. split.
    + exists owner, rr, bitmap. auto.
    + unfold NameSet.add.
      destruct (NameSet.has seen next); [|reflexivity].
      destruct (String.eqb next (origin v)); reflexivity.
  - left. exists e. split; [reflexivity|]. destruct Hb as [Hbog Hnot].
    split; [now left|]. intros nxt.
    intros [o [r [b [Ho [Hx [Hd Hok]]]]]].
    assert (o = owner) by congruence. subst o.
    assert (r = rr) by congruence. subst r.
    assert (b = bitmap) by congruence. subst b. contradiction.
Qed.

Lemma visit_ok_unique (v : AXFRValidator) (name a b : string) :
  visit_ok v name a -> visit_ok v name b -> a = b.
Proof.
  intros [o [r [bm [Ho [Hx [Hd _]]]]]] [o' [r' [bm' [Ho' [Hx' [Hd' _]]]]]].
  congruence.
Qed.

Lemma get_Some_key (m : OwnerMap.t) (k : string) (o : Owner) :
  OwnerMap.get m k = Some o -> In k (map fst m).
Proof.
  induction m as [|[k' o'] m IH]; simpl; [discriminate|].
  destruct (String.eqb k k') eqn:Hk.
  - apply String.eqb_eq in Hk. now left.
  - intros H. right. now apply IH.
Qed.

Lemma get_None_key (m : OwnerMap.t) (k : string) :
  OwnerMap.get m k = None -> ~ In k (map fst m).
Proof.
  induction m as [|[k' o'] m IH]; simpl; [tauto|].
  destruct (String.eqb k k') eqn:Hk; [discriminate|].
  apply String.eqb_neq in Hk. intros H [Heq|Hin]; [congruence|].
  now apply IH.
Qed.

Lemma nsec_walk_sound (v : AXFRValidator) (fuel : nat) :
  forall name seen out,
    NoDup seen ->
    nsec_walk fuel v name seen = Some (Ok out) ->
    exists rest,
      out = seen ++ rest /\ NoDup out /\ links v (name :: rest) (origin v).
Proof.
  induction fuel as [|fuel IH]; intros name seen out Hnd Hw; [discriminate|].
  destruct (nsec_walk_step fuel v name seen)
    as [[e [He _]] | [next [Hvisit Hstep]]]; [congruence|].
  rewrite Hstep in Hw. destruct (NameSet.has seen next) eqn:Hhas.
  - destruct (String.eqb next (origin v)) eqn:Ho; [|discriminate].
    apply String.eqb_eq in Ho. subst next. injection Hw as <-.
    exists []. rewrite app_nil_r. simpl. auto.
  - assert (Hnd' : NoDup (seen ++ [next])).
    { apply NoDup_app; [assumption | repeat constructor; tauto |].
      intros x Hx [<-|[]]. apply has_In in Hx. congruence. }
    destruct (IH next (seen ++ [next]) out Hnd' Hw) as [rest [Hout [Hnd2 Hl]]].
    exists (next :: rest). rewrite <- app_assoc in Hout. simpl in Hout.
    split; [assumption|]. split; [assumption|]. simpl. split; assumption.
Qed.

Lemma nsec_walk_complete (v : AXFRValidator) (rest : list string) :
  forall fuel name seen,
    links v (name :: rest) (origin v) ->
    NoDup (seen ++ rest) ->
    In (origin v) seen ->
    (List.length rest < fuel)%nat ->
    nsec_walk fuel v name seen = Some (Ok (seen ++ rest)).
Proof.
  induction rest as [|b rest IH]; intros fuel name seen Hl Hnd Ho Hf;
    (destruct fuel as [|fuel]; [simpl in Hf; lia|]);
    destruct Hl as [Hvisit Hl];
    (destruct (nsec_walk_step fuel v name seen)
      as [[e [_ [_ Hno]]] | [next [Hvisit' Hstep]]];
     [now apply Hno in Hvisit|]);
    rewrite Hstep; simpl in Hvisit;
    rewrite (visit_ok_unique v name _ _ Hvisit' Hvisit).
  - rewrite (proj2 (has_In seen (origin v)) Ho), String.eqb_refl.
    now rewrite app_nil_r.
  - assert (Hb : NameSet.has seen b = false).
    { destruct (NameSet.has seen b) eqn:Hb; [|reflexivity].
      apply has_In in Hb. apply NoDup_remove_2 in Hnd.
      exfalso. apply Hnd. apply in_or_app. now left. }
    rewrite Hb.
    replace (seen ++ b :: rest) with ((seen ++ [b]) ++ rest)
      by (now rewrite <- app_assoc).
    apply IH.
    + exact Hl.
    + now rewrite <- app_assoc.
    + apply in_or_app. now left.
    + simpl in Hf. lia.
Qed.


Lemma unseen_add (v : AXFRValidator) (seen : NameSet.t) (next : string) :
  (unseen v (seen ++ [next]) <= unseen v seen)%nat
  /\ (In next (map fst (owners v)) -> NameSet.has seen next = false ->
      unseen v (seen ++ [next]) < unseen v seen)%nat.
Proof.
  unfold unseen. induction (map fst (owners v)) as [|k ks [IHle IHlt]]; simpl.
  - split; [lia | intros []].
  - assert (Hk : NameSet.has (seen ++ [next]) k
                 = NameSet.has seen k || String.eqb k next).
    { unfold NameSet.has. rewrite existsb_app. simpl. now rewrite orb_false_r. }
    rewrite Hk. destruct (NameSet.has seen k) eqn:Hs; simpl.
    + split; [assumption|]. intros [->|Hin] Hn; [congruence | now apply IHlt].
    + destruct (String.eqb k next) eqn:Hkn; simpl.
      * split; [lia|]. intros _ _. lia.
      * split; [lia|]. intros [->|Hin] Hn.
        -- rewrite String.eqb_refl in Hkn. discriminate.
        -- specialize (IHlt Hin Hn). lia.
Qed.

Lemma nsec_walk_total (v : AXFRValidator) (fuel : nat) :
  forall name seen,
    (unseen v seen
     + match OwnerMap.get (owners v) name with
       | Some _ => 1
       | None => 0
       end < fuel)%nat ->
    exists r, nsec_walk fuel v name seen = Some r.
Proof.
  induction fuel as [|fuel IH]; intros name seen Hm; [lia|].
  destruct (nsec_walk_step fuel v name seen)
    as [[e [He _]] | [next [Hvisit Hstep]]]; [now exists (Throw e)|].
  rewrite Hstep. destruct (NameSet.has seen next) eqn:Hhas.
  - destruct (String.eqb next (origin v)); eexists; reflexivity.
  - apply IH. destruct Hvisit as [o [_ [_ [Ho _]]]]. rewrite Ho in Hm.
    destruct (unseen_add v seen next) as [Hle Hlt].
    destruct (OwnerMap.get (owners v) next) as [o'|] eqn:Hn.
    + apply get_Some_key in Hn. specialize (Hlt Hn Hhas). lia.
    + lia.
Qed.

Lemma links_keys (v : AXFRValidator) (closing : string) (l : list string) :
  links v l closing -> incl l (map fst (owners v)).
Proof.
  induction l as [|a l IH]; intros Hl x Hx; [destruct Hx|].
  destruct Hl as [[o [_ [_ [Ho _]]]] Hl]. destruct Hx as [<-|Hx].
  - now apply get_Some_key in Ho.
  - now apply IH.
Qed.

Lemma nsec_walk_throws (v : AXFRValidator) (fuel : nat) :
  forall name seen e,
    nsec_walk fuel v name seen = Some (Throw e) ->
    is_bogus e = true \/ e = TypeError.
Proof.
  induction fuel as [|fuel IH]; intros name seen e Hw; [discriminate|].
  destruct (nsec_walk_step fuel v name seen)
    as [[e' [He [Hb _]]] | [next [Hvisit Hstep]]].
  - rewrite He in Hw. now injection Hw as <-.
  - rewrite Hstep in Hw. destruct (NameSet.has seen next).
    + destruct (String.eqb next (origin v)); [discriminate|].
      injection Hw as <-. now left.
    + now apply IH in Hw.
Qed.

(** C2. [verifyNSEC] always returns. It succeeds with [seen] exactly when
    [seen] is a chain: it starts at the origin, repeats no name, every name
    of it has an owner with exactly one NSEC record whose bitmap lists only
    types present at that owner and lists NS when the owner is a delegation,
    every name's record points at the name after it, and the record of the
    last name points back at the origin. During the walk, a record that
    points at a name seen before ends the walk: with success and the names
    seen when that name is the origin, with 'bogus: bad NSEC chain'
    otherwise. Every failure is classified bogus, unless the data of a
    record of type NSEC lacks the NSEC fields. *)
Theorem verifyNSEC_spec (v : AXFRValidator) :
  (exists r, verifyNSEC v = Some r)
  /\ (forall seen, verifyNSEC v = Some (Ok seen) <-> nsec_chain v seen)
  /\ (forall e, verifyNSEC v = Some (Throw e) ->
                is_bogus e = true \/ e = TypeError)
  /\ (forall fuel name seen next,
        visit_ok v name next -> In next seen ->
        nsec_walk (S fuel) v name seen
        = Some (if String.eqb next (origin v) then Ok seen
                else Throw BogusBadChain)
        /\ is_bogus BogusBadChain = true).
Proof.
  split; [|split; [|split]].
  - apply nsec_walk_total.
    change (NameSet.add [] (origin v)) with ([] ++ [origin v]).
    destruct (unseen_add v [] (origin v)) as [Hle Hlt].
    assert (Hall : (unseen v [] <= List.length (owners v))%nat).
    { unfold unseen. rewrite <- (length_map fst (owners v)).
      apply filter_length_le. }
    destruct (OwnerMap.get (owners v) (origin v)) as [o|] eqn:Ho.
    + apply get_Some_key in Ho. specialize (Hlt Ho eq_refl). lia.
    + lia.
  - intros seen. unfold verifyNSEC.
    change (NameSet.add [] (origin v)) with [origin v]. split.
    + intros Hw. apply nsec_walk_sound in Hw; [|repeat constructor; tauto].
      destruct Hw as [rest [-> [Hnd Hl]]]. exists rest. auto.
    + intros [rest [-> [Hnd Hl]]].
      apply (nsec_walk_complete v rest _ (origin v) [origin v]);
        [assumption | assumption | now left |].
      pose proof (NoDup_incl_length Hnd (links_keys v _ _ Hl)) as Hlen.
      simpl in Hlen. rewrite length_map in Hlen. lia.
  - intros e. apply nsec_walk_throws.
  - intros fuel name seen next Hvisit Hin. split; [|reflexivity].
    destruct (nsec_walk_step fuel v name seen)
      as [[e [_ [_ Hno]]] | [next' [Hvisit' Hstep]]];
      [now apply Hno in Hvisit|].
    rewrite Hstep, (visit_ok_unique v name _ _ Hvisit' Hvisit).
    rewrite (proj2 (has_In seen next) Hin).
    destruct (String.eqb next (origin v)); reflexivity.
Qed.

(** ** [verifyZone]: glue *)

Lemma set_keys (m : OwnerMap.t) (k : string) (o : Owner) :
  map fst (OwnerMap.set m k o)
  = if existsb (String.eqb k) (map fst m) then map fst m else map fst m ++ [k].
Proof.
  induction m as [|[k' o'] m IH]; simpl; [reflexivity|].
  destruct (String.eqb k k') eqn:Hk; simpl; [reflexivity|].
  rewrite IH. now destruct (existsb (String.eqb k) (map fst m)).
Qed.

Lemma set_keys_NoDup (m : OwnerMap.t) (k : string) (o : Owner) :
  NoDup (map fst m) -> NoDup (map fst (OwnerMap.set m k o)).
Proof.
  intros Hnd. rewrite set_keys.
  destruct (existsb (String.eqb k) (map fst m)) eqn:Hk; [assumption|].
  apply NoDup_app; [assumption | repeat constructor; tauto |].
  intros x Hx [Heq|[]]. subst x.
  assert (existsb (String.eqb k) (map fst m) = true); [|congruence].
  apply existsb_exists. exists k. split; [assumption | apply String.eqb_refl].
Qed.

Lemma get_In (m : OwnerMap.t) (k : string) (o : Owner) :
  NoDup (map fst m) -> (OwnerMap.get m k = Some o <-> In (k, o) m).
Proof.
  induction m as [|[k' o'] m IH]; simpl; intros Hnd.
  - split; [discriminate | tauto].
  - inversion Hnd as [|? ? Hnotin Hnd']; subst.
    destruct (String.eqb k k') eqn:Hk.
    + apply String.eqb_eq in Hk. subst k'. split.
      * intros [= ->]. now left.
      * intros [[= ->]|Hin]; [reflexivity|].
        exfalso. apply Hnotin. now apply (in_map fst) in Hin.
    + apply String.eqb_neq in Hk. rewrite (IH Hnd'). split.
      * now right.
      * intros [[= -> ->]|Hin]; [congruence | assumption].
Qed.


Lemma collect_spec (v v' : AXFRValidator) (rr : RR) :
  collect v rr = Ok v' ->
  (NoDup (map fst (owners v)) -> NoDup (map fst (owners v')))
  /\ (forall n, In n (maybeGlue v') <-> In n (maybeGlue v) \/ ns_target n rr).
Proof.
  unfold collect. destruct (rr_type rr =? types.NSEC3); [discriminate|].
  intros [= <-]. simpl. split; [apply set_keys_NoDup|].
  intros n. unfold ns_target.
  destruct (rr_type rr =? types.NS) eqn:Hns.
  - apply Z.eqb_eq in Hns. destruct (data_ns (rr_data rr)) as [ns|].
    + rewrite <- !has_In, has_add. rewrite orb_true_iff, String.eqb_eq.
      split.
      * intros [->|H]; [right; auto | now left].
      * intros [H|[_ [= ->]]]; [now right | now left].
    + split; [now left|]. intros [H|[_ H]]; [assumption | discriminate].
  - apply Z.eqb_neq in Hns. split; [now left|].
    intros [H|[H _]]; [assumption | contradiction].
Qed.

Lemma collect_all_spec (records : list RR) :
  forall v v',
    collect_all v records = Ok v' ->
    (NoDup (map fst (owners v)) -> NoDup (map fst (owners v')))
    /\ (forall n, In n (maybeGlue v')
                  <-> In n (maybeGlue v)
                      \/ exists rr, In rr records /\ ns_target n rr).
Proof.
  induction records as [|rr records IH]; intros v v' Hc; simpl in Hc.
  - injection Hc as <-. split; [tauto|]. intros n. split; [now left|].
    intros [H|[rr [[] _]]]. assumption.
  - destruct (collect v rr) as [v1|e] eqn:H1; [|discriminate]. simpl in Hc.
    destruct (collect_spec v v1 rr H1) as [Hnd1 Hg1].
    destruct (IH v1 v' Hc) as [Hnd Hg]. split; [tauto|].
    intros n. rewrite Hg, Hg1. split.
    + intros [[H|H]|[r [Hin H]]].
      * now left.
      * right. exists rr. split; [now left | assumption].
      * right. exists r. split; [now right | assumption].
    + intros [H|[r [[<-|Hin] H]]].
      * left. now left.
      * left. now right.
      * right. now exists r.
Qed.



Lemma is_glue_spec (v : AXFRValidator) (name : string) (owner : Owner) :
  is_glue v name owner = true
  <-> In name (maybeGlue v) /\ parent_is_delegation (owners v) name
      /\ address_only owner.
Proof.
  unfold is_glue, parent_is_delegation, address_only.
  assert (Haddr : (len (util.filterSet (rrs owner) [types.A; types.AAAA]) =? 0)
                  = true
                  <-> forall rr, In rr (rrs owner) ->
                        rr_type rr = types.A \/ rr_type rr = types.AAAA).
  { unfold util.filterSet, len. rewrite Z.eqb_eq.
    induction (rrs owner) as [|r l IH]; simpl.
    - split; [intros _ rr [] | reflexivity].
    - destruct (rr_type r =? types.A) eqn:Ha; simpl.
      + apply Z.eqb_eq in Ha. rewrite IH. split.
        * intros H rr [<-|Hin]; [now left | now apply H].
        * intros H rr Hin. apply H. now right.
      + destruct (rr_type r =? types.AAAA) eqn:Hb; simpl.
        * apply Z.eqb_eq in Hb. rewrite IH. split.
          -- intros H rr [<-|Hin]; [now right | now apply H].
          -- intros H rr Hin. apply H. now right.
        * apply Z.eqb_neq in Ha, Hb. split; [lia|].
          intros H. destruct (H r (or_introl eq_refl)); contradiction. }
  rewrite <- has_In. destruct (NameSet.has (maybeGlue v) name).
  2:{ split; [discriminate | intros [H _]; discriminate]. }
  destruct (OwnerMap.get (owners v) _) as [parent|].
  2:{ split; [discriminate | intros [_ [[p [H _]] _]]; discriminate]. }
  destruct (delegation parent) eqn:Hd.
  - rewrite Haddr. split.
    + intros H. split; [reflexivity|]. split; [now exists parent | assumption].
    + tauto.
  - split; [discriminate|]. intros [_ [[p [[= <-] H]] _]]. congruence.
Qed.

Section GlueProperties.

Variable KeyMap : Type.


Lemma glue_of_In (v : AXFRValidator) (entries : list (string * Owner)) :
  forall glue name,
    In name (glue_of v entries glue)
    <-> In name glue
        \/ exists owner, In (name, owner) entries /\ is_glue v name owner = true.
Proof.
  induction entries as [|[n o] entries IH]; intros glue name; simpl.
  - split; [now left | intros [H|[o [[] _]]]; assumption].
  - rewrite IH. destruct (is_glue v n o) eqn:Hg.
    + rewrite <- !has_In, has_add, orb_true_iff, String.eqb_eq. split.
      * intros [[->|Hx]|[o' [Hin Hx]]].
        -- right. exists o. split; [now left | assumption].
        -- now left.
        -- right. exists o'. split; [now right | assumption].
      * intros [Hx|[o' [[Heq|Hin] Hx]]]; [| injection Heq as -> -> |].
        -- left. now right.
        -- left. now left.
        -- right. now exists o'.
    + split.
      * intros [Hx|[o' [Hin Hx]]]; [now left|].
        right. exists o'. split; [now right | assumption].
      * intros [Hx|[o' [[Heq|Hin] Hx]]];
          [now left | injection Heq as -> ->; congruence |].
        right. now exists o'.
Qed.

Lemma verify_owners_spec (verifyMessage : Message -> KeyMap -> bool)
  (v : AXFRValidator) (keyMap : KeyMap) (entries : list (string * Owner)) :
  forall glue glue',
    verify_owners KeyMap verifyMessage v keyMap entries glue = Ok glue'
    <-> (forall name owner,
           In (name, owner) entries -> is_glue v name owner = false ->
           verifyMessage (verification_input owner) keyMap = true)
        /\ glue' = glue_of v entries glue.
Proof.
  induction entries as [|[n o] entries IH]; intros glue glue'; simpl.
  - split.
    + intros [= <-]. split; [intros ? ? [] | reflexivity].
    + now intros [_ ->].
  - destruct (is_glue v n o) eqn:Hg.
    + rewrite IH. split.
      * intros [Hall ->]. split; [|reflexivity].
        intros name owner [Heq|Hin] Hng;
          [injection Heq as -> ->; congruence | now apply (Hall name owner)].
      * intros [Hall ->]. split; [|reflexivity].
        intros name owner Hin. apply (Hall name owner). now right.
    + destruct (verifyMessage (verification_input o) keyMap) eqn:Hv; simpl.
      * rewrite IH. split.
        -- intros [Hall ->]. split; [|reflexivity].
           intros name owner [Heq|Hin] Hng;
             [injection Heq as -> ->; assumption | now apply (Hall name owner)].
        -- intros [Hall ->]. split; [|reflexivity].
           intros name owner Hin. apply (Hall name owner). now right.
      * split; [discriminate|]. intros [Hall _].
        rewrite (Hall n o (or_introl eq_refl) Hg) in Hv. discriminate.
Qed.

(** C5 (as amended). When [verifyZone] on a fresh validator returns [db]:
    an owner that some NS record names as its target is in the glue set
    exactly when the owner named by the last label of its name is a
    delegation and all its records are of type A or AAAA; an owner that is
    not in the glue set has passed the verifier; and the verifier is not
    consulted on the owners of the glue set: any verifier that accepts the
    owners outside the glue set gives the same [db]. *)
Theorem glue_classification
  (verifyMessage : Message -> KeyMap -> bool)
  (messages : list Message) (keyMap : KeyMap) (db : MergeDB) :
  verifyZone KeyMap verifyMessage new_AXFRValidator messages keyMap
  = Some (Ok db) ->
  (forall name owner,
     OwnerMap.get (names db) name = Some owner ->
     (exists rr, In rr (flat_map answer messages) /\ ns_target name rr) ->
     (In name (glue db)
      <-> parent_is_delegation (names db) name /\ address_only owner))
  /\ (forall name owner,
        OwnerMap.get (names db) name = Some owner ->
        ~ In name (glue db) ->
        verifyMessage (verification_input owner) keyMap = true)
  /\ (forall verifyMessage' : Message -> KeyMap -> bool,
        (forall name owner,
           OwnerMap.get (names db) name = Some owner ->
           ~ In name (glue db) ->
           verifyMessage' (verification_input owner) keyMap = true) ->
        verifyZone KeyMap verifyMessage' new_AXFRValidator messages keyMap
        = Some (Ok db)).
Proof.
  unfold verifyZone.
  destruct (collect_all new_AXFRValidator (flat_map answer messages))
    as [v1|e] eqn:Hc; [|discriminate].
  destruct (collect_all_spec _ _ _ Hc) as [Hnd Hmg].
  specialize (Hnd (NoDup_nil _)).
  destruct (verify_owners KeyMap verifyMessage v1 keyMap (owners v1) [])
    as [g|e] eqn:Hv; [|discriminate].
  apply verify_owners_spec in Hv. destruct Hv as [Hall Hg].
  destruct (verifyNSEC v1) as [[chain|e]|] eqn:Hn; try discriminate.
  intros [= <-]. simpl.
  assert (Hglue : forall name owner,
             OwnerMap.get (owners v1) name = Some owner ->
             (In name g <-> is_glue v1 name owner = true)).
  { intros name owner Hget. rewrite Hg, glue_of_In. split.
    - intros [[]|[o [Hin Hig]]]. apply (get_In _ _ _ Hnd) in Hin.
      congruence.
    - intros Hig. right. exists owner. split; [|assumption].
      now apply (get_In _ _ _ Hnd). }
  split; [|split].
  - intros name owner Hget Href. rewrite (Hglue name owner Hget), is_glue_spec.
    rewrite Hmg. simpl. split.
    + tauto.
    + intros [Hp Ha]. split; [now right | now split].
  - intros name owner Hget Hnot. apply (Hall name owner).
    + now apply (get_In _ _ _ Hnd).
    + destruct (is_glue v1 name owner) eqn:Hig; [|reflexivity].
      exfalso. apply Hnot. now apply (Hglue name owner Hget).
  - intros verifyMessage' Hall'.
    assert (Hv' : verify_owners KeyMap verifyMessage' v1 keyMap (owners v1) []
                  = Ok g).
    { apply verify_owners_spec. split; [|assumption].
      intros name owner Hin Hig. apply (get_In _ _ _ Hnd) in Hin.
      apply (Hall' name owner Hin). rewrite (Hglue name owner Hin). congruence. }
    now rewrite Hv'.
Qed.

End GlueProperties.

(** C5 (as amended) on the root with the delegation [de.]: the verifier
    rejects every address record, and the glue owner is never shown to it. *)
Lemma glue_classification_witness :
  verifyZone unit Sample.reject_addresses new_AXFRValidator Sample.glue_zone tt
  = Some (Ok Sample.glue_db)
  /\ (In "a.nic.de."%string (glue Sample.glue_db)
      <-> parent_is_delegation (names Sample.glue_db) "a.nic.de."
          /\ address_only (mkOwner false [Sample.opaque "a.nic.de." types.A])).
Proof.
  assert (Hz : verifyZone unit Sample.reject_addresses new_AXFRValidator
                          Sample.glue_zone tt = Some (Ok Sample.glue_db))
    by (vm_compute; reflexivity).
  split; [exact Hz|].
  apply (proj1 (glue_classification unit Sample.reject_addresses
                  Sample.glue_zone tt Sample.glue_db Hz)).
  - reflexivity.
  - exists (mkRR "de." types.NS (NSRecord "a.nic.de.")).
    split; [simpl; tauto | split; reflexivity].
Defined.

(** C5 as stated fails on names of three labels. In [glue_zone] the owner
    [a.nic.de.] is the target of an NS record and is classified as glue,
    although the name left when its leftmost label is stripped, [nic.de.],
    is no owner at all. In [deep_zone] the stripped name [b.c.] is a
    delegation and the records of [a.b.c.] are addresses only, yet the owner
    goes to the verifier, which rejects it. *)
Lemma glue_parent_is_not_the_stripped_name :
  (verifyZone unit Sample.reject_addresses new_AXFRValidator Sample.glue_zone tt
   = Some (Ok Sample.glue_db)
   /\ In "a.nic.de."%string (glue Sample.glue_db)
   /\ ns_target "a.nic.de." (mkRR "de." types.NS (NSRecord "a.nic.de."))
   /\ spec_parent "a.nic.de." = "nic.de."%string
   /\ OwnerMap.get (names Sample.glue_db) "nic.de." = None)
  /\ (verifyZone unit Sample.reject_addresses new_AXFRValidator
                 Sample.deep_zone tt
      = Some (Throw (BogusUnableToValidate "a.b.c."))
      /\ ns_target "a.b.c." (mkRR "b.c." types.NS (NSRecord "a.b.c."))
      /\ spec_parent "a.b.c." = "b.c."%string
      /\ (exists v, collect_all new_AXFRValidator
                                (flat_map answer Sample.deep_zone) = Ok v
                    /\ OwnerMap.get (owners v) "b.c."
                       = Some (mkOwner true
                                 [mkRR "b.c." types.NS (NSRecord "a.b.c.");
                                  mkRR "b.c." types.NSEC
                                       (NSECRecord "." [types.NS; types.NSEC])])
                    /\ OwnerMap.get (owners v) "a.b.c."
                       = Some (mkOwner false [Sample.opaque "a.b.c." types.A]))).
Proof.
  split.
  - repeat split; vm_compute; tauto.
  - split; [vm_compute; reflexivity|]. split; [split; reflexivity|].
    split; [vm_compute; reflexivity|].
    eexists. split; [vm_compute; reflexivity|]. split; reflexivity.
Qed.

(** C2 on [glue_zone]: the chain [verifyNSEC] returns. *)
Lemma verifyNSEC_spec_witness :
  let v := {| owners := names Sample.glue_db; maybeGlue := ["a.nic.de."]%string;
              origin := "." |} in
  verifyNSEC v = Some (Ok ["."; "de."]%string) /\ nsec_chain v ["."; "de."]%string.
Proof.
  assert (H : verifyNSEC {| owners := names Sample.glue_db;
                            maybeGlue := ["a.nic.de."]%string;
                            origin := "." |} = Some (Ok ["."; "de."]%string))
    by (vm_compute; reflexivity).
  split; [exact H|]. now apply verifyNSEC_spec.
Defined.

(** ** [sendAXFR]: what is emitted *)


Section Emission.

Variable RR_getSize : RR -> Z.
Variable Question_getSize : Question -> Z.
Variable wire : Message -> list byte.
Variable write : list Message -> list byte -> bool.
Variable toZone : list byte -> string -> list RR.

Local Abbreviation getSize := (Message_getSize RR_getSize Question_getSize).
Local Abbreviation flush' := (flush RR_getSize Question_getSize wire write).
Local Abbreviation writeRR' := (writeRR RR_getSize Question_getSize wire write).
Local Abbreviation writeAll' := (writeAll RR_getSize Question_getSize wire write).
Local Abbreviation size_inv' := (size_inv RR_getSize Question_getSize).
Local Abbreviation appends' := (appends RR_getSize Question_getSize).


Lemma flush_size_inv (w w' : MessageWriter) (sent sent' : list Message) :
  flush' w sent = (sent', Ok w') -> size_inv' w -> size_inv' w'.
Proof.
  intros H. apply flush_Ok in H.
  destruct H as [[_ [_ ->]]|[_ [_ [_ ->]]]]; [tauto|].
  intros _. reflexivity.
Qed.

Lemma writeRR_size_inv (w w' : MessageWriter) (rr : RR) (sent sent' : list Message) :
  writeRR' w rr sent = (sent', Ok w') -> size_inv' w -> size_inv' w'.
Proof.
  unfold writeRR, sbind.
  set (w1 := {| w_req := w_req w; w_msg := w_msg w; w_size := w_size w;
                w_written := w_written w + 1 |}).
  intros H Hinv. assert (H1 : size_inv' w1) by exact Hinv.
  assert (Hpush : forall w2, size_inv' w2 ->
            size_inv' {| w_req := w_req w2;
                        w_msg := set_answer (w_msg w2) (answer (w_msg w2) ++ [rr]);
                        w_size := w_size w2 + RR_getSize rr;
                        w_written := w_written w2 |}).
  { intros w2 H2. unfold size_inv in *. simpl.
    rewrite (getSize_push RR_getSize Question_getSize). now f_equal. }
  destruct (RR_getSize rr + w_size w1 >? MAX_MESSAGE_SIZE).
  - destruct (flush' w1 sent) as [s1 [w2|e]] eqn:Hf;
      [|discriminate].
    apply flush_size_inv in Hf; [|exact H1].
    unfold sret in H. injection H as <- <-. now apply Hpush.
  - unfold sret in H. injection H as <- <-. now apply Hpush.
Qed.

Lemma flush_emitted (w w' : MessageWriter) (sent sent' : list Message) :
  flush' w sent = (sent', Ok w') -> emitted w' sent' = emitted w sent.
Proof.
  intros H. apply flush_Ok in H.
  destruct H as [[_ [-> ->]]|[_ [_ [-> ->]]]]; [reflexivity|].
  unfold emitted. simpl.
  rewrite flat_map_app. simpl. now rewrite !app_nil_r.
Qed.

Lemma writeRR_emitted (w w' : MessageWriter) (rr : RR) (sent sent' : list Message) :
  writeRR' w rr sent = (sent', Ok w') ->
  emitted w' sent' = emitted w sent ++ [rr].
Proof.
  unfold writeRR, sbind.
  set (w1 := {| w_req := w_req w; w_msg := w_msg w; w_size := w_size w;
                w_written := w_written w + 1 |}).
  assert (He : forall s, emitted w1 s = emitted w s) by reflexivity.
  destruct (RR_getSize rr + w_size w1 >? MAX_MESSAGE_SIZE).
  - destruct (flush' w1 sent) as [s1 [w2|e]] eqn:Hf; [|discriminate].
    apply flush_emitted in Hf. unfold sret. intros [= <- <-].
    rewrite <- He, <- Hf. unfold emitted. simpl. now rewrite app_assoc.
  - unfold sret. intros [= <- <-]. unfold emitted. simpl. now rewrite app_assoc.
Qed.


Lemma appends_refl (P : RR -> Prop) w sent : appends' P w sent w sent.
Proof.
  split; [|tauto]. exists []. split; [now rewrite app_nil_r | intros ? []].
Qed.

Lemma appends_trans (P : RR -> Prop) w0 s0 w1 s1 w2 s2 :
  appends' P w0 s0 w1 s1 -> appends' P w1 s1 w2 s2 -> appends' P w0 s0 w2 s2.
Proof.
  intros [[x [Hx Px]] Hi] [[y [Hy Py]] Hj]. split; [|tauto].
  exists (x ++ y). split.
  - now rewrite Hy, Hx, app_assoc.
  - intros rr Hin. apply in_app_or in Hin. destruct Hin; auto.
Qed.

Lemma appends_weaken (P Q : RR -> Prop) w0 s0 w1 s1 :
  (forall rr, P rr -> Q rr) -> appends' P w0 s0 w1 s1 -> appends' Q w0 s0 w1 s1.
Proof. intros H [[x [Hx Px]] Hi]. split; [|exact Hi]. exists x. split; auto. Qed.

Lemma writeRR_appends (P : RR -> Prop) w rr sent sent' w' :
  P rr -> writeRR' w rr sent = (sent', Ok w') -> appends' P w sent w' sent'.
Proof.
  intros HP Hw. split; [|now apply (writeRR_size_inv _ _ _ _ _ Hw)].
  exists [rr]. split; [now apply writeRR_emitted|].
  now intros r [<-|[]].
Qed.

Lemma writeAll_appends (rrs : list RR) :
  forall w sent sent' w',
    writeAll' w rrs sent = (sent', Ok w') ->
    appends' (fun rr => In rr rrs) w sent w' sent'.
Proof.
  induction rrs as [|rr rrs IH]; intros w sent sent' w'; simpl.
  - simpl. unfold sret. intros [= <- <-]. apply appends_refl.
  - simpl. unfold sbind.
    destruct (writeRR' w rr sent) as [s1 [w1|e]] eqn:H1; [|discriminate].
    intros H2. apply IH in H2.
    eapply appends_trans.
    + apply (writeRR_appends (fun r => rr = r \/ In r rrs) _ _ _ _ _
               (or_introl eq_refl) H1).
    + eapply appends_weaken; [|exact H2]. intros r Hr. now right.
Qed.

Lemma write_local_zone_appends (zone : list RR) :
  forall w sent sent' w',
    write_local_zone RR_getSize Question_getSize wire write w zone sent
    = (sent', Ok w') ->
    appends' (fun rr => In rr zone) w sent w' sent'.
Proof.
  induction zone as [|rr zone IH]; intros w sent sent' w'; simpl.
  - unfold sret. intros [= <- <-]. apply appends_refl.
  - destruct (rr_type rr =? types.RRSIG).
    + intros H. apply IH in H. eapply appends_weaken; [|exact H].
      intros r Hr. now right.
    + unfold sbind, transfer_writeRR.
      destruct (writeRR' w rr sent) as [s1 [w1|e]] eqn:H1; [|discriminate].
      intros H2. apply IH in H2. eapply appends_trans.
      * apply (writeRR_appends (fun r => rr = r \/ In r zone) _ _ _ _ _
                 (or_introl eq_refl) H1).
      * eapply appends_weaken; [|exact H2]. intros r Hr. now right.
Qed.


Lemma pickRRs_spec (p : Plugin) (name : string) (zone : list RR) (db : MergeDB) :
  let '(zone', db', _) := pickRRs p name zone db in
  (forall rr, In rr zone' -> In rr zone)
  /\ names db' = names db /\ glue db' = glue db
  /\ forall n, In n (nsecChain db') -> In n (nsecChain db).
Proof.
  unfold pickRRs. destruct (NameSet.has (nsecChain db) name); simpl.
  - destruct (preferICANN p); simpl.
    + repeat split; auto. intros rr [].
    + repeat split; auto. intros n. rewrite <- !has_In, has_delete.
      intros H. now apply andb_true_iff in H.
  - repeat split; auto.
Qed.

Lemma local_phase_appends (p : Plugin) (tree : list NameState) :
  forall w db log sent sent' w' db' log',
    local_phase RR_getSize Question_getSize wire write toZone
                p tree w db log sent
    = (sent', Ok (w', db', log')) ->
    appends' (local_record toZone tree) w sent w' sent'
    /\ names db' = names db /\ glue db' = glue db
    /\ forall n, In n (nsecChain db') -> In n (nsecChain db).
Proof.
  induction tree as [|ns tree IH]; intros w db log sent sent' w' db' log'.
  - simpl. unfold sret. intros [= <- <- <- <-].
    split; [apply appends_refl | auto].
  - assert (Hrest : forall w0 s0 w1 s1,
               appends' (local_record toZone tree) w0 s0 w1 s1 ->
               appends' (local_record toZone (ns :: tree)) w0 s0 w1 s1).
    { intros w0 s0 w1 s1. apply appends_weaken.
      intros rr [n [Hn Hrr]]. exists n. split; [now right | assumption]. }
    simpl. destruct (len (ns_data ns) <=? 0).
    + intros H. apply IH in H. destruct H as [Ha Hdb]. split; auto.
    + pose proof (pickRRs_spec p (util.fqdn (ns_name ns))
                    (toZone (ns_data ns) (util.fqdn (ns_name ns))) db) as Hp.
      destruct (pickRRs p _ _ db) as [[zone db1] warned].
      destruct Hp as [Hz [Hn [Hg Hc]]].
      destruct (len zone =? 0).
      * intros H. apply IH in H. destruct H as [Ha [Hn' [Hg' Hc']]].
        split; [auto|]. split; [congruence|]. split; [congruence|]. auto.
      * unfold sbind.
        destruct (write_local_zone _ _ _ _ w zone sent) as [s1 [w1|e]] eqn:H1;
          [|discriminate].
        apply write_local_zone_appends in H1.
        intros H. apply IH in H. destruct H as [Ha [Hn' [Hg' Hc']]].
        split; [|split; [congruence|split; [congruence|auto]]].
        eapply appends_trans; [|apply Hrest; exact Ha].
        eapply appends_weaken; [|exact H1].
        intros rr Hrr. exists ns. split; [now left | auto].
Qed.



Lemma write_merge_zone_appends (names : OwnerMap.t) (glue0 : list string)
  (zone : list RR) :
  forall w glue glues sent sent' w' glue' glues',
    write_merge_zone RR_getSize Question_getSize wire write names
                     w zone glue glues sent
    = (sent', Ok (w', glue', glues')) ->
    (forall n, In n glue -> In n glue0) ->
    glue_records names glue0 glues ->
    appends' (fun rr => In rr zone) w sent w' sent'
    /\ (forall n, In n glue' -> In n glue0)
    /\ glue_records names glue0 glues'.
Proof.
  induction zone as [|rr zone IH];
    intros w glue glues sent sent' w' glue' glues'; simpl.
  - unfold sret. intros [= <- <- <- <-] Hg Hgl.
    split; [apply appends_refl | auto].
  - assert (Htl : forall w0 s0 w1 s1,
               appends' (fun r => In r zone) w0 s0 w1 s1 ->
               appends' (fun r => rr = r \/ In r zone) w0 s0 w1 s1).
    { intros w0 s0 w1 s1. apply appends_weaken. intros r Hr. now right. }
    destruct ((rr_type rr =? types.NSEC) || (rr_type rr =? types.RRSIG)).
    + intros H Hg Hgl. destruct (IH _ _ _ _ _ _ _ _ H Hg Hgl) as [Ha Hr].
      split; [now apply Htl | exact Hr].
    + unfold sbind, transfer_writeRR.
      destruct (writeRR' w rr sent) as [s1 [w1|e]] eqn:H1; [|discriminate].
      pose proof (writeRR_appends (fun r => rr = r \/ In r zone) _ _ _ _ _
                    (or_introl eq_refl) H1) as Hhd.
      destruct (if rr_type rr =? types.NS then data_ns (rr_data rr) else None)
        as [ns|].
      * destruct (NameSet.has glue ns) eqn:Hhas.
        -- destruct (OwnerMap.get names ns) as [glueData|] eqn:Hget;
             [|discriminate].
           intros H Hg Hgl.
           assert (Hg' : forall n, In n (NameSet.delete glue ns) -> In n glue0).
           { intros n. rewrite <- has_In, has_delete. intros Hn.
             apply andb_true_iff in Hn. apply Hg. apply has_In. tauto. }
           assert (Hgl' : glue_records names glue0 (glues ++ [rrs glueData])).
           { intros l Hl. apply in_app_or in Hl. destruct Hl as [Hl|[<-|[]]].
             - now apply Hgl.
             - exists ns, glueData. split; [|auto].
               apply Hg. now apply has_In. }
           destruct (IH _ _ _ _ _ _ _ _ H Hg' Hgl') as [Ha Hr].
           split; [|exact Hr]. eapply appends_trans; [exact Hhd | now apply Htl].
        -- intros H Hg Hgl. destruct (IH _ _ _ _ _ _ _ _ H Hg Hgl) as [Ha Hr].
           split; [|exact Hr]. eapply appends_trans; [exact Hhd | now apply Htl].
      * intros H Hg Hgl. destruct (IH _ _ _ _ _ _ _ _ H Hg Hgl) as [Ha Hr].
        split; [|exact Hr]. eapply appends_trans; [exact Hhd | now apply Htl].
Qed.

Lemma write_glue_appends (glues : list (list RR)) :
  forall w sent sent' w',
    write_glue RR_getSize Question_getSize wire write w glues sent
    = (sent', Ok w') ->
    appends' (fun rr => exists l, In l glues /\ In rr l) w sent w' sent'.
Proof.
  induction glues as [|l glues IH]; intros w sent sent' w'; simpl.
  - unfold sret. intros [= <- <-]. apply appends_refl.
  - unfold sbind, transfer_writeAll.
    destruct (writeAll' w l sent) as [s1 [w1|e]] eqn:H1; [|discriminate].
    apply writeAll_appends in H1. intros H2. apply IH in H2.
    eapply appends_trans.
    + eapply appends_weaken; [|exact H1]. intros rr Hrr. exists l.
      split; [now left | assumption].
    + eapply appends_weaken; [|exact H2]. intros rr [l' [Hl' Hrr]].
      exists l'. split; [now right | assumption].
Qed.

(** Every record the merge loop hands to the writer is stored under a name
    of the chain set it iterates over or under a name of the glue set. *)
Lemma merge_phase_appends (names : OwnerMap.t) (chain0 glue0 : list string)
  (chain : list string) :
  forall w glue sent sent' w' glue',
    merge_phase RR_getSize Question_getSize wire write names
                chain w glue sent
    = (sent', Ok (w', glue')) ->
    (forall n, In n chain -> In n chain0) ->
    (forall n, In n glue -> In n glue0) ->
    appends' (external_record names chain0 glue0) w sent w' sent'.
Proof.
  induction chain as [|name chain IH]; intros w glue sent sent' w' glue'; simpl.
  - unfold sret. intros [= <- <- <-] _ _. apply appends_refl.
  - destruct (OwnerMap.get names name) as [owner|] eqn:Hget; [|discriminate].
    unfold sbind.
    destruct (write_merge_zone _ _ _ _ names w (rrs owner) glue [] sent)
      as [s1 [[[w1 glue1] glues1]|e]] eqn:H1; [|discriminate].
    destruct (write_glue _ _ _ _ w1 glues1 s1) as [s2 [w2|e]] eqn:H2;
      [|discriminate].
    intros H3 Hc Hg.
    assert (Hnil : glue_records names glue0 []) by (intros l []).
    destruct (write_merge_zone_appends names glue0 _ _ _ _ _ _ _ _ _ H1 Hg Hnil)
      as [Ha1 [Hg1 Hgl1]].
    apply write_glue_appends in H2.
    apply IH in H3; [|intros n Hn; apply Hc; now right | exact Hg1].
    eapply appends_trans; [|eapply appends_trans; [|exact H3]].
    + eapply appends_weaken; [|exact Ha1]. intros rr Hrr.
      exists name, owner. split; [left; apply Hc; now left | auto].
    + eapply appends_weaken; [|exact H2]. intros rr [l [Hl Hrr]].
      destruct (Hgl1 l Hl) as [n [o [Hn [Ho ->]]]].
      exists n, o. auto.
Qed.

End Emission.

(** ** The merge data [verifyZone] returns *)

Lemma get_set (m : OwnerMap.t) (k k' : string) (o : Owner) :
  OwnerMap.get (OwnerMap.set m k o) k'
  = if String.eqb k' k then Some o else OwnerMap.get m k'.
Proof.
  induction m as [|[k1 o1] m IH]; simpl; [reflexivity|].
  destruct (String.eqb k k1) eqn:Hk; simpl.
  - apply String.eqb_eq in Hk. subst k1. now destruct (String.eqb k' k).
  - rewrite IH. destruct (String.eqb k' k1) eqn:H1; [|reflexivity].
    destruct (String.eqb k' k) eqn:H2; [|reflexivity].
    apply String.eqb_eq in H1, H2. subst. rewrite String.eqb_refl in Hk.
    discriminate.
Qed.


Lemma collect_inv (v v' : AXFRValidator) (rr : RR) :
  collect v rr = Ok v' -> validator_inv v -> validator_inv v'.
Proof.
  unfold collect. destruct (rr_type rr =? types.NSEC3); [discriminate|].
  intros [= <-] [Ho Hall]. split; [exact Ho|]. simpl. intros n o.
  rewrite get_set. destruct (String.eqb n (rr_name rr)) eqn:Hn.
  - apply String.eqb_eq in Hn. subst n. intros [= <-]. simpl.
    assert (Hold : (forall r,
                      In r (rrs match OwnerMap.get (owners v) (rr_name rr) with
                                | Some o => o
                                | None => {| delegation := false; rrs := [] |}
                                end) -> rr_name r = rr_name rr)
                   /\ (rr_name rr = "."%string ->
                       delegation match OwnerMap.get (owners v) (rr_name rr) with
                                  | Some o => o
                                  | None => {| delegation := false; rrs := [] |}
                                  end = false)).
    { destruct (OwnerMap.get (owners v) (rr_name rr)) as [o|] eqn:Hg.
      - exact (Hall _ _ Hg).
      - simpl. split; [intros r [] | reflexivity]. }
    destruct Hold as [Hrrs Hdel]. split.
    + intros r Hr. apply in_app_or in Hr. destruct Hr as [Hr|[<-|[]]]; auto.
    + intros Hroot. specialize (Hdel Hroot). rewrite Ho.
      replace (String.eqb (rr_name rr) ".") with true
        by (symmetry; now apply String.eqb_eq).
      simpl. rewrite andb_false_r. exact Hdel.
  - apply Hall.
Qed.

Lemma collect_all_inv (records : list RR) :
  forall v v', collect_all v records = Ok v' ->
               validator_inv v -> validator_inv v'.
Proof.
  induction records as [|rr records IH]; intros v v' Hc Hinv; simpl in Hc.
  - now injection Hc as <-.
  - destruct (collect v rr) as [v1|e] eqn:H1; [|discriminate].
    apply (IH v1 v' Hc). now apply (collect_inv v v1 rr).
Qed.

Lemma new_AXFRValidator_inv : validator_inv new_AXFRValidator.
Proof. split; [reflexivity | discriminate]. Qed.


Lemma verifyZone_merge_db_ok (KeyMap : Type)
  (verifyMessage : Message -> KeyMap -> bool)
  (messages : list Message) (keyMap : KeyMap) (db : MergeDB) :
  verifyZone KeyMap verifyMessage new_AXFRValidator messages keyMap
  = Some (Ok db) ->
  merge_db_ok db.
Proof.
  unfold verifyZone.
  destruct (collect_all new_AXFRValidator (flat_map answer messages))
    as [v1|e] eqn:Hc; [|discriminate].
  pose proof (collect_all_inv _ _ _ Hc new_AXFRValidator_inv) as [Ho Hall].
  destruct (verify_owners KeyMap verifyMessage v1 keyMap (owners v1) [])
    as [g|e] eqn:Hv; [|discriminate].
  apply verify_owners_spec in Hv. destruct Hv as [_ Hg].
  destruct (verifyNSEC v1) as [[chain|e]|]; try discriminate.
  intros [= <-]. split; simpl.
  - intros n o Hget. now apply (Hall n o Hget).
  - rewrite Hg, glue_of_In. intros [[]|[o [_ Hig]]].
    apply is_glue_spec in Hig. destruct Hig as [_ [[parent [Hp Hd]] _]].
    change (util.fqdn (util.from "." (-1))) with "."%string in Hp.
    destruct (Hall _ _ Hp) as [_ Hdel]. rewrite (Hdel eq_refl) in Hd.
    discriminate.
Qed.

Section Transfer.

Variable RR_getSize : RR -> Z.
Variable Question_getSize : Question -> Z.
Variable wire : Message -> list byte.
Variable write : list Message -> list byte -> bool.
Variable toZone : list byte -> string -> list RR.
Variable soa : RR.
Variable decode : list byte -> option Message.
Variable network : nat -> Server -> Transport.
Variable KeyMap : Type.
Variable verifyMessage : Message -> KeyMap -> bool.

Hypothesis RR_getSize_nonneg : forall rr, 0 <= RR_getSize rr.
Hypothesis Question_getSize_nonneg : forall qs, 0 <= Question_getSize qs.

Lemma loadMergeZone_merge_db_ok (p : Plugin) (c : AXFRClient) (keyMap : KeyMap)
  (db : MergeDB) :
  loadMergeZone decode network KeyMap verifyMessage p c keyMap = Some (Ok db) ->
  merge_db_ok db.
Proof.
  unfold loadMergeZone. destruct (disableMerge p).
  - intros [= <-]. split; simpl; [discriminate | tauto].
  - destruct (query decode network c) as [[[c' log] [[data|]|e]]|];
      try discriminate.
    apply verifyZone_merge_db_ok.
Qed.

(** C10. [sendAXFR] with the merge data [loadMergeZone] returned, on a
    transfer that runs to its end: the request is refused and nothing is
    sent, or the records sent are the SOA record of the server, then records
    of the local store, then records of the external zone that the merge
    loop wrote. The merge loop iterates over the chain set from which '.'
    was deleted, and none of the records it writes is owned by '.'. *)
Theorem sendAXFR_external_origin_not_emitted
  (p : Plugin) (c : AXFRClient) (keyMap : KeyMap) (db : MergeDB)
  (req : Message) (rinfo : RInfo) (tree : list NameState)
  (sent : list Message) (out : Sent) :
  loadMergeZone decode network KeyMap verifyMessage p c keyMap = Some (Ok db) ->
  sendAXFR RR_getSize Question_getSize wire write toZone soa
           p req rinfo (Ok db) tree [] = (sent, Ok out) ->
  (sent = [] /\ response out = refuse)
  \/ exists local merged,
       flat_map answer sent = soa :: local ++ merged
       /\ (forall rr, In rr local -> local_record toZone tree rr)
       /\ (forall rr, In rr merged ->
             rr_name rr <> "."%string
             /\ external_record (names db)
                                (NameSet.delete (nsecChain db) ".") (glue db) rr)
       /\ ~ In "."%string (NameSet.delete (nsecChain db) ".")
       /\ response out = set_answer (setReply new_Message req) [soa].
Proof.
  intros Hload Hsend. apply loadMergeZone_merge_db_ok in Hload.
  destruct Hload as [Hkeyed Hglue].
  unfold sendAXFR in Hsend.
  destruct (negb (ri_tcp rinfo)).
  { left. unfold sret in Hsend. now injection Hsend as <- <-. }
  destruct (negb (existsb (String.eqb (ri_address rinfo)) (ipList p))).
  { left. unfold sret in Hsend. now injection Hsend as <- <-. }
  right. unfold sbind in Hsend.
  set (w0 := new_MessageWriter RR_getSize Question_getSize req) in Hsend.
  set (db0 := {| glue := glue db; names := names db;
                 nsecChain := NameSet.delete (nsecChain db) "." |}) in Hsend.
  destruct (transfer_writeRR RR_getSize Question_getSize wire write
                             w0 soa []) as [s1 [w1|e]] eqn:H1; [|discriminate].
  destruct (local_phase RR_getSize Question_getSize wire write toZone
                        p tree w1 db0 [] s1)
    as [s2 [[[w2 db2] log2]|e]] eqn:H2; [|discriminate].
  destruct (merge_phase RR_getSize Question_getSize wire write
                        (names db2) (nsecChain db2) w2 (glue db2) s2)
    as [s3 [[w3 g3]|e]] eqn:H3; [|discriminate].
  destruct (transfer_flush RR_getSize Question_getSize wire write w3 s3)
    as [s4 [w4|e]] eqn:H4; [|discriminate].
  unfold sret in Hsend. injection Hsend as <- <-.
  pose proof (writeRR_appends RR_getSize Question_getSize wire write
                (fun r => soa = r) _ _ _ _ _ eq_refl H1) as [[x1 [E1 _]] I1].
  pose proof (writeRR_emitted RR_getSize Question_getSize wire write
                _ _ _ _ _ H1) as E1'.
  apply (local_phase_appends RR_getSize Question_getSize wire write toZone)
    in H2. destruct H2 as [[[local [E2 P2]] I2] [Hn2 [Hg2 Hc2]]].
  apply (merge_phase_appends RR_getSize Question_getSize wire write
           (names db2) (nsecChain db0) (glue db0)) in H3;
    [|exact Hc2 | now rewrite Hg2].
  destruct H3 as [[merged [E3 P3]] I3].
  assert (Hinv3 : size_inv RR_getSize Question_getSize w3).
  { apply I3, I2, I1. reflexivity. }
  unfold transfer_flush in H4. apply flush_Ok in H4.
  destruct H4 as [[Hz _]|[_ [_ [-> ->]]]].
  { pose proof (getSize_header RR_getSize Question_getSize
                  RR_getSize_nonneg Question_getSize_nonneg (w_msg w3)) as Hh.
    unfold size_inv in Hinv3. lia. }
  exists local, merged.
  assert (Hnot : ~ In "."%string (NameSet.delete (nsecChain db) ".")).
  { rewrite <- has_In, has_delete, String.eqb_refl. discriminate. }
  split; [|split; [exact P2|split; [|split; [exact Hnot | reflexivity]]]].
  - rewrite flat_map_app. simpl. rewrite app_nil_r.
    change (flat_map answer s3 ++ answer (w_msg w3)) with (emitted w3 s3).
    rewrite E3, E2, E1'. unfold emitted, w0. simpl. reflexivity.
  - intros rr Hrr. specialize (P3 rr Hrr). rewrite Hn2 in P3. simpl in P3.
    split; [|exact P3].
    destruct P3 as [n [o [Hin [Hget Hrrs]]]].
    rewrite (Hkeyed n o Hget rr Hrrs). intros ->.
    destruct Hin as [Hin|Hin]; [now apply Hnot | now apply Hglue].
Qed.

End Transfer.

(** C10 on the root zone with the delegation [de.], merged into a local
    store that holds [com]. *)
Lemma sendAXFR_external_origin_not_emitted_witness :
  loadMergeZone Sample.decode Sample.network unit Sample.reject_addresses
                Sample.prefer_local
                (new_AXFRClient Sample.fromHost Sample.options) tt
  = Some (Ok Sample.glue_db)
  /\ exists sent out,
       sendAXFR Sample.rr_size Sample.qs_size Sample.wire Sample.write_ok
                Sample.toZone Sample.soa Sample.prefer_local Sample.request
                Sample.rinfo (Ok Sample.glue_db) Sample.tree []
       = (sent, Ok out)
       /\ flat_map answer sent
          = [Sample.soa; Sample.opaque "com." types.NS;
             mkRR "de." types.NS (NSRecord "a.nic.de.");
             Sample.opaque "a.nic.de." types.A]
       /\ ((sent = [] /\ response out = refuse)
           \/ exists local merged,
                flat_map answer sent = Sample.soa :: local ++ merged
                /\ (forall rr, In rr local ->
                      local_record Sample.toZone Sample.tree rr)
                /\ (forall rr, In rr merged ->
                      rr_name rr <> "."%string
                      /\ external_record
                           (names Sample.glue_db)
                           (NameSet.delete (nsecChain Sample.glue_db) ".")
                           (glue Sample.glue_db) rr)
                /\ ~ In "."%string
                       (NameSet.delete (nsecChain Sample.glue_db) ".")
                /\ response out
                   = set_answer (setReply new_Message Sample.request)
                                [Sample.soa]).
Proof.
  assert (Hload : loadMergeZone Sample.decode Sample.network unit
                    Sample.reject_addresses Sample.prefer_local
                    (new_AXFRClient Sample.fromHost Sample.options) tt
                  = Some (Ok Sample.glue_db)) by (vm_compute; reflexivity).
  split; [exact Hload|].
  eexists. eexists.
  split; [vm_compute; reflexivity|]. split; [vm_compute; reflexivity|].
  apply (sendAXFR_external_origin_not_emitted
           Sample.rr_size Sample.qs_size Sample.wire Sample.write_ok
           Sample.toZone Sample.soa Sample.decode Sample.network unit
           Sample.reject_addresses Sample_rr_size_nonneg Sample_qs_size_nonneg
           Sample.prefer_local (new_AXFRClient Sample.fromHost Sample.options)
           tt Sample.glue_db Sample.request Sample.rinfo Sample.tree _ _ Hload).
  vm_compute. reflexivity.
Defined.

(** ** [AXFRQuery.read]: reassembly *)

Lemma Zgtb_false (x y : Z) : x <= y -> (x >? y) = false.
Proof. intros H. rewrite Z.gtb_ltb. now apply Z.ltb_ge. Qed.

Lemma Zgtb_true (x y : Z) : y < x -> (x >? y) = true.
Proof. intros H. now apply Z.gtb_lt. Qed.


Lemma slice_suffix (d : list byte) (off : Z) :
  0 <= off -> Buffer.slice d off (len d) = skipn (Z.to_nat off) d.
Proof.
  intros H. unfold Buffer.slice, len. apply firstn_all2.
  rewrite length_skipn. lia.
Qed.

Lemma slice_prefix (d : list byte) (w : Z) :
  Buffer.slice d 0 w = firstn (Z.to_nat w) d.
Proof. unfold Buffer.slice. simpl. now rewrite Z.sub_0_r. Qed.

Lemma copy_put (src target : list byte) (ts w : Z) :
  0 <= ts -> 0 <= w -> ts + w <= len target ->
  Buffer.copy src target ts 0 w
  = put target (Z.to_nat ts) (firstn (Z.to_nat w) src).
Proof.
  intros Hts Hw Hfit. unfold Buffer.copy, put. rewrite slice_prefix.
  rewrite firstn_firstn.
  replace (Nat.min (Z.to_nat (len target - ts)) (Z.to_nat w)) with (Z.to_nat w)
    by (unfold len in *; lia).
  reflexivity.
Qed.

Lemma put_length (target : list byte) (off : nat) (src : list byte) :
  (off + List.length src <= List.length target)%nat ->
  List.length (put target off src) = List.length target.
Proof.
  intros H. unfold put. rewrite !length_app, length_firstn, length_skipn. lia.
Qed.

Lemma put_put (target : list byte) (off : nat) (x y : list byte) :
  (off + List.length x + List.length y <= List.length target)%nat ->
  put (put target off x) (off + List.length x) y = put target off (x ++ y).
Proof.
  intros H. unfold put.
  assert (Hoff : List.length (firstn off target) = off)
    by (rewrite length_firstn; lia).
  rewrite firstn_app, Hoff, firstn_firstn.
  replace (Nat.min (off + List.length x) off) with off by lia.
  replace (off + List.length x - off)%nat with (List.length x) by lia.
  rewrite firstn_app, firstn_all, Nat.sub_diag. simpl. rewrite app_nil_r.
  rewrite <- !app_assoc. f_equal. f_equal. f_equal.
  rewrite skipn_app, Hoff.
  rewrite (skipn_all2 (firstn off target)) by lia. simpl.
  replace (off + List.length x + List.length y - off)%nat
    with (List.length x + List.length y)%nat by lia.
  rewrite skipn_app.
  rewrite (skipn_all2 x) by lia. simpl.
  replace (List.length x + List.length y - List.length x)%nat
    with (List.length y) by lia.
  rewrite skipn_skipn, length_app. f_equal. lia.
Qed.

Lemma firstn_put (target : list byte) (off : nat) (src : list byte) :
  (off + List.length src <= List.length target)%nat ->
  firstn (off + List.length src) (put target off src) = firstn off target ++ src.
Proof.
  intros H. unfold put.
  assert (Hoff : List.length (firstn off target) = off)
    by (rewrite length_firstn; lia).
  rewrite firstn_app, Hoff.
  rewrite (firstn_all2 (firstn off target)) by lia.
  replace (off + List.length src - off)%nat with (List.length src) by lia.
  rewrite firstn_app, firstn_all, Nat.sub_diag. simpl. now rewrite app_nil_r.
Qed.

Lemma readUInt16BE_range (d : list byte) :
  0 <= Buffer.readUInt16BE d 0 <= MAX_MESSAGE_SIZE.
Proof.
  unfold Buffer.readUInt16BE, MAX_MESSAGE_SIZE.
  pose proof (Byte.to_N_bounded (nth (Z.to_nat 0) d x00)).
  pose proof (Byte.to_N_bounded (nth (Z.to_nat (0 + 1)) d x00)).
  lia.
Qed.

Lemma readUInt16BE_app (a b : list byte) :
  (2 <= List.length a)%nat ->
  Buffer.readUInt16BE (a ++ b) 0 = Buffer.readUInt16BE a 0.
Proof.
  intros H. unfold Buffer.readUInt16BE. simpl.
  rewrite !app_nth1 by (simpl; lia). reflexivity.
Qed.


Lemma new_AXFRQuery_wf (junk : nat -> byte) (id maxMessages : Z) :
  query_wf (new_AXFRQuery junk id maxMessages).
Proof.
  unfold query_wf, new_AXFRQuery.
  cbn [buf size target ok]. unfold len, Buffer.allocUnsafe.
  rewrite length_map, length_seq.
  unfold MAX_MESSAGE_SIZE. repeat split; lia.
Qed.



Lemma skipn_app_le {A : Type} (n : nat) (a b : list A) :
  (n <= List.length a)%nat -> skipn n (a ++ b) = skipn n a ++ b.
Proof.
  intros H. rewrite skipn_app.
  replace (n - List.length a)%nat with 0%nat by lia. reflexivity.
Qed.

Lemma skipn_app_ge {A : Type} (n : nat) (a b : list A) :
  (List.length a <= n)%nat -> skipn n (a ++ b) = skipn (n - List.length a) b.
Proof.
  intros H. rewrite skipn_app. now rewrite (skipn_all2 a) by lia.
Qed.

Lemma firstn_app_le {A : Type} (n : nat) (a b : list A) :
  (n <= List.length a)%nat -> firstn n (a ++ b) = firstn n a.
Proof.
  intros H. rewrite firstn_app.
  replace (n - List.length a)%nat with 0%nat by lia. simpl.
  now rewrite app_nil_r.
Qed.

Lemma firstn_app_ge {A : Type} (n : nat) (a b : list A) :
  (List.length a <= n)%nat ->
  firstn n (a ++ b) = a ++ firstn (n - List.length a) b.
Proof.
  intros H. rewrite firstn_app. now rewrite (firstn_all2 a) by lia.
Qed.

Lemma len_put (target : list byte) (off : Z) (src : list byte) :
  0 <= off -> off + len src <= len target ->
  len (put target (Z.to_nat off) src) = len target.
Proof.
  intros H0 H. unfold len in *. rewrite put_length; lia.
Qed.

Lemma query_wf_partial (q : AXFRQuery) (body : list byte) (t : Z) :
  query_wf q -> size q + len body < t -> t <= MAX_MESSAGE_SIZE ->
  query_wf {| buf := put (buf q) (Z.to_nat (size q)) body;
              target := t; size := size q + len body; id := id q;
              msgs := msgs q; ok := ok q; maxMessages := maxMessages q |}.
Proof.
  intros [Hbuf [Hs [Ht [H0 [Hlt Hok]]]]] Hb Hmax.
  unfold query_wf. cbn [buf target size ok].
  rewrite len_put by lia.
  unfold len in *. repeat split; try lia; assumption.
Qed.

Lemma query_wf_reset (q : AXFRQuery) (chunk : list byte) (msgs1 : list Message) :
  query_wf q -> size q + len chunk <= MAX_MESSAGE_SIZE ->
  query_wf {| buf := put (buf q) (Z.to_nat (size q)) chunk;
              target := 0; size := 0; id := id q;
              msgs := msgs1; ok := ok q; maxMessages := maxMessages q |}.
Proof.
  intros [Hbuf [Hs [Ht [H0 [Hlt Hok]]]]] Hb.
  unfold query_wf. cbn [buf target size ok].
  rewrite len_put by lia.
  unfold MAX_MESSAGE_SIZE in *. repeat split; try lia; assumption.
Qed.

Section Reassembly.

Variable decode : list byte -> option Message.



Lemma read_S (fuel : nat) (q : AXFRQuery) (data : list byte) :
  read decode (S fuel) q data
  = match read_step decode q data with
    | Throw e => Some (Throw e)
    | Ok (q', None) => Some (Ok q')
    | Ok (q', Some rest) => read decode fuel q' rest
    end.
Proof.
  cbn [read]. unfold read_step, complete.
  destruct (target q =? 0).
  - destruct (assert (len data >? 1) MalformedPacket) as [[]|e]; simpl;
      [|reflexivity].
    repeat match goal with
           | |- context [if ?c then _ else _] => destruct c; simpl
           | |- context [match decode ?x with _ => _ end] =>
               destruct (decode x); simpl
           | |- context [assert ?c ?e] => destruct (assert c e) as [[]|]; simpl
           end; reflexivity.
  - simpl.
    repeat match goal with
           | |- context [if ?c then _ else _] => destruct c; simpl
           | |- context [match decode ?x with _ => _ end] =>
               destruct (decode x); simpl
           | |- context [assert ?c ?e] => destruct (assert c e) as [[]|]; simpl
           end; reflexivity.
Qed.


Lemma frame_length_range (q : AXFRQuery) (data : list byte) :
  query_wf q ->
  size q <= frame_length q data <= MAX_MESSAGE_SIZE.
Proof.
  intros [_ [Hs [Ht [H0 [Hlt _]]]]]. unfold frame_length.
  destruct (target q =? 0) eqn:Hz.
  - apply Z.eqb_eq in Hz. rewrite (H0 Hz).
    apply readUInt16BE_range.
  - apply Z.eqb_neq in Hz. specialize (Hlt Hz). lia.
Qed.

(** A chunk that starts a frame with fewer than two bytes. *)
Lemma read_step_short (q : AXFRQuery) (data : list byte) :
  target q = 0 -> (List.length data < 2)%nat ->
  read_step decode q data = Throw MalformedPacket.
Proof.
  intros Ht Hl. unfold read_step. rewrite Ht. simpl.
  replace (len data >? 1) with false; [reflexivity|].
  symmetry. unfold len. apply Zgtb_false. lia.
Qed.

Lemma read_step_header (q : AXFRQuery) (data : list byte) :
  (target q = 0 -> (2 <= List.length data)%nat) ->
  (if target q =? 0 then
     assert (len data >? 1) MalformedPacket ;;;
     Ok (Buffer.readUInt16BE data 0, 2)
   else Ok (target q, 0))
  = Ok (frame_length q data, Z.of_nat (prefix_bytes q)).
Proof.
  intros H. unfold frame_length, prefix_bytes.
  destruct (target q =? 0) eqn:Hz; [|reflexivity].
  apply Z.eqb_eq in Hz. specialize (H Hz).
  replace (len data >? 1) with true; [reflexivity|].
  symmetry. unfold len. apply Z.gtb_lt. lia.
Qed.

(** A chunk that does not complete the frame is appended to the buffer. *)
Lemma read_step_partial (q : AXFRQuery) (data : list byte) :
  query_wf q ->
  (target q = 0 -> (2 <= List.length data)%nat) ->
  (List.length (skipn (prefix_bytes q) data) < needed q data)%nat ->
  read_step decode q data
  = Ok ({| buf := put (buf q) (Z.to_nat (size q)) (skipn (prefix_bytes q) data);
           target := frame_length q data;
           size := size q + len (skipn (prefix_bytes q) data);
           id := id q; msgs := msgs q; ok := ok q;
           maxMessages := maxMessages q |}, None).
Proof.
  intros Hwf Hhdr Hlt. pose proof (frame_length_range q data Hwf) as Hr.
  destruct Hwf as [Hbuf [Hs _]]. unfold needed in Hlt.
  unfold read_step. rewrite (read_step_header q data Hhdr). simpl.
  rewrite slice_suffix by lia. rewrite Nat2Z.id.
  set (body := skipn (prefix_bytes q) data) in *.
  set (t := frame_length q data) in *.
  assert (Hex : (size q + len body >? t) = false).
  { apply Zgtb_false. unfold len. lia. }
  rewrite Hex.
  assert (Hne : (size q + len body =? t) = false).
  { apply Z.eqb_neq. unfold len. lia. }
  rewrite Hne.
  rewrite copy_put; [| lia | unfold len; lia |].
  - unfold len at 1. rewrite Nat2Z.id, firstn_all. reflexivity.
  - unfold len, MAX_MESSAGE_SIZE in *. lia.
Qed.

(** A chunk that completes the frame: the frame is decoded, and what follows
    it in the chunk is left for the next call. *)
Lemma read_step_full (q : AXFRQuery) (data : list byte) :
  query_wf q ->
  (target q = 0 -> (2 <= List.length data)%nat) ->
  (needed q data <= List.length (skipn (prefix_bytes q) data))%nat ->
  read_step decode q data
  = let body := skipn (prefix_bytes q) data in
    let t := frame_length q data in
    let buf1 := put (buf q) (Z.to_nat (size q)) (firstn (needed q data) body) in
    r <- complete decode q (firstn (Z.to_nat t) buf1) ;;
    let '(msgs1, done) := r in
    if done then
      Ok ({| buf := buf1; target := t; size := t; id := id q;
             msgs := msgs1; ok := true; maxMessages := maxMessages q |}, None)
    else
      Ok ({| buf := buf1; target := 0; size := 0; id := id q;
             msgs := msgs1; ok := ok q; maxMessages := maxMessages q |},
          if (needed q data <? List.length body)%nat
          then Some (skipn (needed q data) body) else None).
Proof.
  intros Hwf Hhdr Hge. pose proof (frame_length_range q data Hwf) as Hr.
  destruct Hwf as [Hbuf [Hs _]]. unfold needed in *.
  unfold read_step. rewrite (read_step_header q data Hhdr). simpl.
  rewrite slice_suffix by lia. rewrite Nat2Z.id.
  set (body := skipn (prefix_bytes q) data) in *.
  set (t := frame_length q data) in *.
  rewrite slice_prefix.
  destruct (size q + len body >? t) eqn:Hex.
  - apply Z.gtb_lt in Hex.
    replace (size q + (t - size q)) with t by lia. rewrite Z.eqb_refl.
    rewrite copy_put; [| lia | lia | unfold len, MAX_MESSAGE_SIZE in *; lia].
    rewrite slice_suffix by lia.
    replace (Z.to_nat (t - size q) <? List.length body)%nat with true
      by (symmetry; apply Nat.ltb_lt; unfold len in Hex; lia).
    reflexivity.
  - rewrite Z.gtb_ltb in Hex. apply Z.ltb_ge in Hex.
    assert (Heq : len body = t - size q) by (unfold len in *; lia).
    replace (size q + len body) with t by lia. rewrite Z.eqb_refl.
    rewrite copy_put; [| lia | lia | unfold len, MAX_MESSAGE_SIZE in *; lia].
    rewrite Heq.
    replace (Z.to_nat (t - size q) <? List.length body)%nat with false
      by (symmetry; apply Nat.ltb_ge; unfold len in Heq; lia).
    reflexivity.
Qed.

(** What [read_step] leaves: the transfer is over, or the query is again in
    a state [read] is called in and the bytes left over, if any, are fewer
    than the chunk had and start a frame. *)
Lemma read_step_next (q q' : AXFRQuery) (data : list byte)
  (rest : option (list byte)) :
  query_wf q ->
  read_step decode q data = Ok (q', rest) ->
  (ok q' = true /\ rest = None)
  \/ (query_wf q'
      /\ match rest with
         | Some r => (List.length r < List.length data)%nat /\ target q' = 0
         | None => True
         end).
Proof.
  intros Hwf Hstep. pose proof (frame_length_range q data Hwf) as Hr.
  pose proof Hwf as [Hbuf [Hs [Ht [H0 [Hlt Hok]]]]].
  assert (Hcases : (target q = 0 /\ (List.length data < 2)%nat)
                   \/ (target q = 0 -> (2 <= List.length data)%nat)).
  { destruct (Z.eq_dec (target q) 0) as [Hz|Hz]; [|tauto].
    destruct (Nat.lt_ge_cases (List.length data) 2); tauto. }
  destruct Hcases as [[Hz Hshort]|Hhdr].
  { rewrite read_step_short in Hstep by assumption. discriminate. }
  assert (Hpre : (prefix_bytes q <= List.length data)%nat
                 /\ (target q <> 0 -> prefix_bytes q = 0%nat)
                 /\ (target q = 0 -> prefix_bytes q = 2%nat)).
  { unfold prefix_bytes. destruct (target q =? 0) eqn:Hz.
    - apply Z.eqb_eq in Hz. specialize (Hhdr Hz). repeat split; tauto || lia.
    - apply Z.eqb_neq in Hz. repeat split; tauto || lia. }
  destruct Hpre as [Hpre [Hpre0 Hpre2]].
  destruct (Nat.lt_ge_cases (List.length (skipn (prefix_bytes q) data))
                            (needed q data)) as [Hpart|Hfull].
  - rewrite read_step_partial in Hstep by auto. injection Hstep as <- <-.
    right. split; [|exact I].
    apply query_wf_partial; [assumption | | lia].
    unfold needed, len in *. lia.
  - rewrite read_step_full in Hstep by auto. cbv zeta in Hstep.
    destruct (complete decode q _) as [[msgs1 [|]]|e]; cbn [bind] in Hstep;
      try discriminate; injection Hstep as <- <-.
    + left. split; reflexivity.
    + right. split.
      * apply query_wf_reset; [assumption|].
        unfold len. rewrite length_firstn. unfold needed in *. lia.
      * destruct (_ <? _)%nat eqn:Hn; [|exact I]. apply Nat.ltb_lt in Hn.
        cbn [target]. split; [|reflexivity].
        rewrite !length_skipn. rewrite length_skipn in Hn.
        destruct (Z.eq_dec (target q) 0) as [Hz|Hz].
        -- rewrite (Hpre2 Hz) in *. lia.
        -- specialize (Hlt Hz). unfold needed, frame_length in *.
           rewrite (proj2 (Z.eqb_neq _ _) Hz) in *. lia.
Qed.

(** [read] returns once its fuel exceeds the length of the chunk, and more
    fuel does not change what it returns. *)
Lemma read_enough (f1 : nat) :
  forall data q,
    query_wf q -> (List.length data < f1)%nat ->
    exists r, forall f, (List.length data < f)%nat ->
                        read decode f q data = Some r.
Proof.
  induction f1 as [|f1 IH]; intros data q Hwf Hlen; [lia|].
  destruct (read_step decode q data) as [[q' [rest|]]|e] eqn:Hstep.
  - destruct (read_step_next q q' data _ Hwf Hstep) as [[_ Hn]|[Hwf' [Hl _]]];
      [discriminate|].
    destruct (IH rest q' Hwf' ltac:(lia)) as [r Hr]. exists r.
    intros f Hf. destruct f as [|f]; [lia|].
    rewrite read_S, Hstep. apply Hr. lia.
  - exists (Ok q'). intros f Hf. destruct f as [|f]; [lia|].
    now rewrite read_S, Hstep.
  - exists (Throw e). intros f Hf. destruct f as [|f]; [lia|].
    now rewrite read_S, Hstep.
Qed.

Lemma read_fuel (q : AXFRQuery) (data : list byte) (f1 f2 : nat) :
  query_wf q -> (List.length data < f1)%nat -> (List.length data < f2)%nat ->
  read decode f1 q data = read decode f2 q data.
Proof.
  intros Hwf H1 H2. destruct (read_enough f1 data q Hwf H1) as [r Hr].
  now rewrite (Hr f1 H1), (Hr f2 H2).
Qed.

Lemma frame_walk_S (f : nat) (q : AXFRQuery) (a : list byte) :
  query_wf q ->
  frame_walk (S f) (target q - size q) a
  = if (target q =? 0) && (List.length a <? 2)%nat then None
    else
      let body := skipn (prefix_bytes q) a in
      if (needed q a <? List.length body)%nat
      then frame_walk f 0 (skipn (needed q a) body)
      else Some (Z.of_nat (needed q a) - len body).
Proof.
  intros Hwf. pose proof (frame_length_range q a Hwf) as Hr.
  destruct Hwf as [_ [Hs [Ht [H0 [Hlt _]]]]].
  cbn [frame_walk]. unfold needed, prefix_bytes, frame_length in *.
  destruct (target q =? 0) eqn:Hz.
  - apply Z.eqb_eq in Hz. pose proof (H0 Hz) as Hs0.
    rewrite Hz, Hs0. rewrite Hs0 in Hr.
    change (0 - 0 =? 0) with true. cbv iota beta zeta.
    rewrite Z.sub_0_r. unfold len. cbn [andb].
    set (t := Buffer.readUInt16BE a 0) in *.
    destruct (List.length a <? 2)%nat eqn:Hl.
    + apply Nat.ltb_lt in Hl.
      replace (Z.of_nat (List.length a) >? 1) with false; [reflexivity|].
      symmetry. apply Zgtb_false. lia.
    + apply Nat.ltb_ge in Hl.
      replace (Z.of_nat (List.length a) >? 1) with true
        by (symmetry; apply Zgtb_true; lia).
      destruct (Z.to_nat t <? List.length (skipn 2 a))%nat eqn:Hn.
      * apply Nat.ltb_lt in Hn.
        replace (Z.of_nat (List.length (skipn 2 a)) >? t) with true
          by (symmetry; apply Zgtb_true; lia).
        reflexivity.
      * apply Nat.ltb_ge in Hn.
        replace (Z.of_nat (List.length (skipn 2 a)) >? t) with false
          by (symmetry; apply Zgtb_false; lia).
        f_equal. lia.
  - apply Z.eqb_neq in Hz. specialize (Hlt Hz).
    replace (target q - size q =? 0) with false
      by (symmetry; apply Z.eqb_neq; lia).
    unfold len. cbn [andb skipn].
    destruct (Z.to_nat (target q - size q) <? List.length a)%nat eqn:Hn.
    + apply Nat.ltb_lt in Hn.
      replace (Z.of_nat (List.length a) >? target q - size q) with true
        by (symmetry; apply Zgtb_true; lia).
      reflexivity.
    + apply Nat.ltb_ge in Hn.
      replace (Z.of_nat (List.length a) >? target q - size q) with false
        by (symmetry; apply Zgtb_false; lia).
      f_equal. lia.
Qed.

(** Reading [a ++ b] is reading [a], then [b], when the framing of [a] cuts
    no length prefix and [b] is not empty. *)
Lemma read_split (f : nat) :
  forall a q b p,
    query_wf q -> b <> [] ->
    frame_walk f (target q - size q) a = Some p ->
    forall F, (List.length (a ++ b) < F)%nat ->
      read decode F q (a ++ b)
      = match read decode (S (List.length a)) q a with
        | Some (Ok q') =>
            if ok q' then Some (Ok q')
            else read decode (S (List.length b)) q' b
        | r => r
        end
      /\ forall q', read decode (S (List.length a)) q a = Some (Ok q') ->
                    ok q' = false ->
                    query_wf q' /\ target q' - size q' = p.
Proof.
  induction f as [|f IH]; intros a q b p Hwf Hb Hwalk F HF; [discriminate|].
  rewrite frame_walk_S in Hwalk by assumption.
  destruct ((target q =? 0) && (List.length a <? 2)%nat) eqn:Hshort;
    [discriminate|].
  cbv zeta in Hwalk.
  assert (Hhdr : target q = 0 -> (2 <= List.length a)%nat).
  { intros Hz. rewrite Hz in Hshort. simpl in Hshort.
    now apply Nat.ltb_ge in Hshort. }
  assert (Hhdr' : target q = 0 -> (2 <= List.length (a ++ b))%nat).
  { intros Hz. rewrite length_app. specialize (Hhdr Hz). lia. }
  assert (Hfl : frame_length q (a ++ b) = frame_length q a).
  { unfold frame_length. destruct (target q =? 0) eqn:Hz; [|reflexivity].
    apply Z.eqb_eq in Hz. now apply readUInt16BE_app, Hhdr. }
  assert (Hnd : needed q (a ++ b) = needed q a).
  { unfold needed. now rewrite Hfl. }
  assert (Hbody : skipn (prefix_bytes q) (a ++ b)
                  = skipn (prefix_bytes q) a ++ b).
  { apply skipn_app_le. unfold prefix_bytes.
    destruct (target q =? 0) eqn:Hz; [|lia].
    apply Z.eqb_eq in Hz. now apply Hhdr. }
  pose proof (frame_length_range q a Hwf) as Hrange.
  pose proof Hwf as [Hbuf [Hs [Ht [H0 [Hlt Hok]]]]].
  assert (Hblen : (0 < List.length b)%nat).
  { destruct b; [contradiction | simpl; lia]. }
  rewrite length_app in HF.
  destruct F as [|F]; [lia|]. rewrite !read_S.
  destruct (needed q a <? List.length (skipn (prefix_bytes q) a))%nat eqn:Hover.
  - (* the frame ends inside [a] *)
    apply Nat.ltb_lt in Hover.
    pose proof (read_step_full q a Hwf Hhdr ltac:(lia)) as Ea.
    rewrite (read_step_full q (a ++ b) Hwf Hhdr')
      by (rewrite Hnd, Hbody, length_app; lia).
    rewrite Ea. cbv zeta. rewrite Hnd, Hfl, Hbody. cbv zeta in Ea.
    rewrite firstn_app_le by lia.
    destruct (complete decode q _) as [[msgs1 [|]]|e]; cbn [bind] in *.
    + split; [reflexivity|]. intros q' [= <-]. discriminate.
    + replace (needed q a <? List.length (skipn (prefix_bytes q) a ++ b))%nat
        with true by (symmetry; apply Nat.ltb_lt; rewrite length_app; lia).
      replace (needed q a <? List.length (skipn (prefix_bytes q) a))%nat
        with true in * by (symmetry; now apply Nat.ltb_lt).
      rewrite skipn_app_le by lia.
      destruct (read_step_next q _ a _ Hwf Ea) as [[Hk _]|[Hwf2 [Hl2 _]]];
        [cbn [ok] in Hk; congruence|].
      set (q2 := {| buf := _; target := 0 |}) in *.
      set (ra := skipn (needed q a) (skipn (prefix_bytes q) a)) in *.
      destruct (IH ra q2 b p Hwf2 Hb Hwalk F
                   ltac:(rewrite length_app; lia)) as [IH1 IH2].
      rewrite IH1.
      rewrite (read_fuel q2 ra (List.length a) (S (List.length ra)) Hwf2)
        by lia.
      split; [reflexivity | exact IH2].
    + split; [reflexivity | discriminate].
  - apply Nat.ltb_ge in Hover. injection Hwalk as <-.
    destruct (Nat.eq_dec (List.length (skipn (prefix_bytes q) a)) (needed q a))
      as [Hexact|Hless].
    + (* the frame ends with [a] *)
      assert (Ha : (0 < List.length a)%nat).
      { destruct (Z.eq_dec (target q) 0) as [Hz|Hz];
          [specialize (Hhdr Hz); lia|].
        specialize (Hlt Hz). unfold needed, frame_length, prefix_bytes in Hexact.
        rewrite (proj2 (Z.eqb_neq _ _) Hz) in Hexact. simpl in Hexact. lia. }
      pose proof (read_step_full q a Hwf Hhdr ltac:(lia)) as Ea.
      rewrite (read_step_full q (a ++ b) Hwf Hhdr')
        by (rewrite Hnd, Hbody, length_app; lia).
      rewrite Ea. cbv zeta. rewrite Hnd, Hfl, Hbody. cbv zeta in Ea.
      rewrite firstn_app_le by lia.
      destruct (complete decode q _) as [[msgs1 [|]]|e]; cbn [bind] in *.
      * split; [reflexivity|]. intros q' [= <-]. discriminate.
      * replace (needed q a <? List.length (skipn (prefix_bytes q) a ++ b))%nat
          with true by (symmetry; apply Nat.ltb_lt; rewrite length_app; lia).
        replace (needed q a <? List.length (skipn (prefix_bytes q) a))%nat
          with false in * by (symmetry; apply Nat.ltb_ge; lia).
        rewrite skipn_app_ge by lia. rewrite Hexact, Nat.sub_diag. cbn [skipn].
        destruct (read_step_next q _ a _ Hwf Ea) as [[Hk _]|[Hwf2 _]];
          [cbn [ok] in Hk; congruence|].
        set (q2 := {| buf := _; target := 0 |}) in *.
        replace (ok q2) with false by (symmetry; exact Hok).
        rewrite (read_fuel q2 b F (S (List.length b)) Hwf2) by lia.
        split; [reflexivity|]. intros q' [= <-]. intros _.
        split; [exact Hwf2|]. unfold q2. cbn [target size]. unfold len. lia.
      * split; [reflexivity | discriminate].
    + (* [a] ends inside the frame *)
      assert (Hpart : (List.length (skipn (prefix_bytes q) a) < needed q a)%nat)
        by lia.
      pose proof (read_step_partial q a Hwf Hhdr Hpart) as Ea.
      rewrite Ea.
      destruct (read_step_next q _ a _ Hwf Ea) as [[Hk _]|[Hwf1 _]];
        [cbn [ok] in Hk; congruence|].
      set (body := skipn (prefix_bytes q) a) in *.
      set (q1 := {| buf := put (buf q) (Z.to_nat (size q)) body |}) in *.
      assert (Hq1 : target q1 - size q1 = Z.of_nat (needed q a) - len body).
      { unfold q1, needed, len in *. simpl. lia. }
      split; [|intros q' [= <-] _; split; assumption].
      replace (ok q1) with false by (symmetry; exact Hok).
      rewrite read_S.
      assert (Ht1 : target q1 <> 0).
      { unfold q1, needed in *. simpl. lia. }
      assert (Hpb1 : prefix_bytes q1 = 0%nat).
      { unfold prefix_bytes. now rewrite (proj2 (Z.eqb_neq _ _) Ht1). }
      assert (Hfl1 : forall d, frame_length q1 d = frame_length q a).
      { intros d. unfold frame_length at 1.
        now rewrite (proj2 (Z.eqb_neq _ _) Ht1). }
      assert (Hnd1 : forall d, needed q1 d
                               = (needed q a - List.length body)%nat).
      { intros d. unfold needed at 1. rewrite Hfl1. unfold q1, needed, len.
        simpl. lia. }
      assert (Hsz1 : Z.to_nat (size q1)
                     = (Z.to_nat (size q) + List.length body)%nat).
      { unfold q1, len. simpl. lia. }
      assert (Hhdr1 : target q1 = 0 -> (2 <= List.length b)%nat) by tauto.
      destruct (Nat.lt_ge_cases (List.length (body ++ b)) (needed q a))
        as [Hshortab|Hfullab].
      * (* [a ++ b] ends inside the frame too *)
        rewrite (read_step_partial q (a ++ b) Hwf Hhdr')
          by (rewrite Hnd, Hbody; exact Hshortab).
        rewrite (read_step_partial q1 b Hwf1 Hhdr1)
          by (rewrite Hnd1, Hpb1; simpl; rewrite length_app in Hshortab; lia).
        rewrite Hfl, Hfl1, Hbody, Hpb1, Hsz1. simpl skipn.
        unfold q1 at 1. simpl buf.
        rewrite put_put
          by (rewrite length_app in Hshortab;
              unfold needed, len, MAX_MESSAGE_SIZE in *; lia).
        unfold q1, len. simpl. rewrite length_app.
        do 3 f_equal. lia.
      * (* the frame ends inside [b] *)
        rewrite (read_step_full q (a ++ b) Hwf Hhdr')
          by (rewrite Hnd, Hbody; exact Hfullab).
        rewrite (read_step_full q1 b Hwf1 Hhdr1)
          by (rewrite Hnd1, Hpb1; cbn [skipn]; rewrite length_app in Hfullab;
              lia).
        cbv zeta. rewrite Hnd, Hnd1, Hfl, Hfl1, Hbody, Hpb1, Hsz1. cbn [skipn].
        rewrite length_app in Hfullab.
        rewrite firstn_app_ge by lia. rewrite skipn_app_ge by lia.
        change (complete decode q1) with (complete decode q).
        assert (Hbufeq :
                  put (buf q1) (Z.to_nat (size q) + List.length body)
                      (firstn (needed q a - List.length body) b)
                  = put (buf q) (Z.to_nat (size q))
                        (body ++ firstn (needed q a - List.length body) b)).
        { unfold q1. cbn [buf]. apply put_put. rewrite length_firstn.
          unfold needed, len, MAX_MESSAGE_SIZE in *. lia. }
        rewrite Hbufeq.
        change (id q1) with (id q). change (maxMessages q1) with (maxMessages q).
        change (ok q1) with (ok q).
        destruct (complete decode q _) as [[msgs1 [|]]|e]; cbn [bind].
        -- reflexivity.
        -- rewrite length_app.
           destruct (needed q a <? List.length body + List.length b)%nat eqn:Hn.
           ++ apply Nat.ltb_lt in Hn.
              replace (needed q a - List.length body <? List.length b)%nat
                with true by (symmetry; apply Nat.ltb_lt; lia).
              apply read_fuel.
              ** apply query_wf_reset; [assumption|].
                 unfold len. rewrite length_app, length_firstn.
                 unfold needed, len, MAX_MESSAGE_SIZE in *. lia.
              ** rewrite length_skipn. lia.
              ** rewrite length_skipn. lia.
           ++ apply Nat.ltb_ge in Hn.
              replace (needed q a - List.length body <? List.length b)%nat
                with false by (symmetry; apply Nat.ltb_ge; lia).
              reflexivity.
        -- reflexivity.
Qed.

Lemma deliver_cons (q : AXFRQuery) (data : list byte) (rest : list (list byte)) :
  deliver decode q (data :: rest)
  = match on_data decode q data with
    | Some (Ok q') => if ok q' then Some (Ok q') else deliver decode q' rest
    | other => other
    end.
Proof. reflexivity. Qed.

Lemma deliver_one (q : AXFRQuery) (data : list byte) :
  deliver decode q [data] = on_data decode q data.
Proof.
  simpl. destruct (on_data decode q data) as [[q'|e]|]; try reflexivity.
  now destruct (ok q').
Qed.

Lemma deliver_chunks (chunks : list (list byte)) :
  forall c q,
    query_wf q ->
    prefix_intact (target q - size q) (c :: chunks) = true ->
    deliver decode q (c :: chunks) = on_data decode q (List.concat (c :: chunks)).
Proof.
  induction chunks as [|c2 cs IH]; intros c q Hwf Hint.
  - rewrite deliver_one. simpl. now rewrite app_nil_r.
  - cbn [prefix_intact] in Hint. destruct c as [|x c]; [discriminate|].
    destruct (frame_walk (S (List.length (x :: c))) (target q - size q) (x :: c))
      as [p|] eqn:Hwalk; [|discriminate].
    assert (Hb : List.concat (c2 :: cs) <> []).
    { cbn [prefix_intact] in Hint. destruct c2; [discriminate|]. discriminate. }
    destruct (read_split _ (x :: c) q (List.concat (c2 :: cs)) p Hwf Hb Hwalk
                (S (List.length ((x :: c) ++ List.concat (c2 :: cs))))
                ltac:(lia)) as [Hsplit Hnext].
    change (List.concat ((x :: c) :: c2 :: cs))
      with ((x :: c) ++ List.concat (c2 :: cs)).
    unfold on_data at 1. rewrite Hsplit.
    rewrite deliver_cons. unfold on_data at 1.
    destruct (read decode (S (List.length (x :: c))) q (x :: c))
      as [[q'|e]|] eqn:Hread; try reflexivity.
    destruct (ok q') eqn:Hok; [reflexivity|].
    destruct (Hnext q' eq_refl Hok) as [Hwf' Hp].
    rewrite IH by (try assumption; now rewrite Hp).
    reflexivity.
Qed.

(** C1 (as amended). For a fresh query and chunks none of which is empty
    and none of which ends between the two bytes of a length prefix, the
    chunks delivered one after the other leave the query as delivering all
    their bytes in one chunk does: the same messages, or the same error. The
    one-chunk delivery always returns. *)
Theorem reassembly_is_chunking_independent
  (junk : nat -> byte) (id maxMessages : Z)
  (c : list byte) (chunks : list (list byte)) :
  prefix_intact 0 (c :: chunks) = true ->
  deliver decode (new_AXFRQuery junk id maxMessages) (c :: chunks)
  = deliver decode (new_AXFRQuery junk id maxMessages) [List.concat (c :: chunks)]
  /\ exists r,
       deliver decode (new_AXFRQuery junk id maxMessages) [List.concat (c :: chunks)]
       = Some r.
Proof.
  intros Hint. pose proof (new_AXFRQuery_wf junk id maxMessages) as Hwf.
  rewrite deliver_one. split.
  - now apply deliver_chunks.
  - destruct (read_enough (S (List.length (List.concat (c :: chunks))))
                          (List.concat (c :: chunks)) _ Hwf ltac:(lia)) as [r Hr].
    exists r. apply Hr. lia.
Qed.

(** Delivered one byte at a time, a stream never gets past its first byte:
    the chunk that starts a frame has one byte, and [read] asserts two. *)
Lemma single_byte_chunks_fail (junk : nat -> byte) (id maxMessages : Z)
  (x : byte) (stream : list byte) :
  deliver decode (new_AXFRQuery junk id maxMessages)
          (map (fun b => [b]) (x :: stream))
  = Some (Throw MalformedPacket).
Proof.
  cbn [map]. rewrite deliver_cons. unfold on_data. rewrite read_S.
  rewrite read_step_short; [reflexivity | reflexivity | simpl; lia].
Qed.





End Reassembly.

(** C1 (as amended) on a transfer cut in the middle of its frame. *)
Lemma reassembly_is_chunking_independent_witness :
  prefix_intact 0 [[x00; x04; x00]; [x07; x00; x00]] = true
  /\ deliver Sample.decode (new_AXFRQuery Sample.zeros 7 1000)
             [[x00; x04; x00]; [x07; x00; x00]]
     = deliver Sample.decode (new_AXFRQuery Sample.zeros 7 1000)
               [Sample.stream].
Proof.
  split; [reflexivity|].
  apply (proj1 (reassembly_is_chunking_independent
                  Sample.decode Sample.zeros 7 1000
                  [x00; x04; x00] [[x07; x00; x00]] eq_refl)).
Defined.

(** C1 as stated fails on the delivery it names: the attempt whose socket
    delivers the stream below as one chunk resolves with the decoded
    message, and the attempt whose socket delivers the same bytes one at a
    time is rejected with 'Malformed packet received' by the first call of
    [read]. *)
Lemma byte_at_a_time_delivery_fails :
  exchange Sample.decode (new_AXFRQuery Sample.zeros 7 1000)
           (mkTransport 7 Sample.zeros [Sample.stream] SocketClose)
  = Some (Ok [Sample.reply])
  /\ List.concat (map (fun b => [b]) Sample.stream) = Sample.stream
  /\ deliver Sample.decode (new_AXFRQuery Sample.zeros 7 1000)
             (map (fun b => [b]) Sample.stream)
     = Some (Throw MalformedPacket)
  /\ exchange Sample.decode (new_AXFRQuery Sample.zeros 7 1000)
              (mkTransport 7 Sample.zeros
                           (map (fun b => [b]) Sample.stream) SocketClose)
     = Some (Throw MalformedPacket).
Proof.
  split; [vm_compute; reflexivity|]. split; [reflexivity|].
  split; [|vm_compute; reflexivity].
  exact (single_byte_chunks_fail Sample.decode Sample.zeros 7 1000
           x00 [x04; x00; x07; x00; x00]).
Qed.


(** * Further properties *)

(** ** The writer: conservation, refusal, packing *)

Section WriterFurther.

Variable RR_getSize : RR -> Z.
Variable Question_getSize : Question -> Z.
Variable wire : Message -> list byte.
Variable write : list Message -> list byte -> bool.

Local Abbreviation getSize := (Message_getSize RR_getSize Question_getSize).
Local Abbreviation flush' := (flush RR_getSize Question_getSize wire write).
Local Abbreviation writeRR' := (writeRR RR_getSize Question_getSize wire write).
Local Abbreviation writeAll' := (writeAll RR_getSize Question_getSize wire write).
Local Abbreviation size_inv' := (size_inv RR_getSize Question_getSize).
Local Abbreviation greedy' := (greedy RR_getSize Question_getSize).

Lemma flush_counters (w w' : MessageWriter) (sent sent' : list Message) :
  flush' w sent = (sent', Ok w') ->
  w_written w' = w_written w /\ w_req w' = w_req w.
Proof.
  intros H. apply flush_Ok in H.
  destruct H as [[_ [_ ->]]|[_ [_ [_ ->]]]]; auto.
Qed.

Lemma writeRR_counters (w w' : MessageWriter) (rr : RR)
  (sent sent' : list Message) :
  writeRR' w rr sent = (sent', Ok w') ->
  w_written w' = w_written w + 1 /\ w_req w' = w_req w.
Proof.
  unfold writeRR, sbind.
  set (w1 := {| w_req := w_req w; w_msg := w_msg w; w_size := w_size w;
                w_written := w_written w + 1 |}).
  destruct (RR_getSize rr + w_size w1 >? MAX_MESSAGE_SIZE).
  - destruct (flush' w1 sent) as [s1 [w2|e]] eqn:Hf; [|discriminate].
    apply flush_counters in Hf. destruct Hf as [Hw Hr].
    unfold sret. intros [= <- <-]. simpl. now rewrite Hw, Hr.
  - unfold sret. now intros [= <- <-].
Qed.

Lemma writeAll_emitted (rrs : list RR) :
  forall (w w' : MessageWriter) (sent sent' : list Message),
    writeAll' w rrs sent = (sent', Ok w') ->
    emitted w' sent' = emitted w sent ++ rrs
    /\ w_written w' = w_written w + len rrs
    /\ w_req w' = w_req w.
Proof.
  induction rrs as [|rr rrs IH]; intros w w' sent sent'.
  - simpl. unfold sret. intros [= <- <-].
    rewrite app_nil_r. unfold len. simpl. repeat split. lia.
  - cbn [writeAll]. unfold sbind.
    destruct (writeRR' w rr sent) as [s1 [w1|e]] eqn:H1; [|discriminate].
    intros H2. apply IH in H2. destruct H2 as [He [Hw Hr]].
    pose proof (writeRR_emitted _ _ _ _ _ _ _ _ _ H1) as He1.
    apply writeRR_counters in H1. destruct H1 as [Hw1 Hr1].
    split; [|split].
    + rewrite He, He1, <- app_assoc. reflexivity.
    + rewrite Hw, Hw1. unfold len. cbn [List.length]. lia.
    + congruence.
Qed.

(** X1. The writer neither loses, repeats nor reorders records: after
    [writeAll(rrs)] the records of the messages written, followed by those
    still in the buffer, are the ones there were before followed by [rrs];
    [written] has grown by the number of records. *)
Theorem writeAll_conserves_records (rrs : list RR) (w w' : MessageWriter)
  (sent sent' : list Message) :
  writeAll' w rrs sent = (sent', Ok w') ->
  emitted w' sent' = emitted w sent ++ rrs
  /\ w_written w' = w_written w + len rrs
  /\ w_req w' = w_req w.
Proof. apply writeAll_emitted. Qed.

Lemma accepted_app (sent a b : list Message) :
  accepted wire write sent (a ++ b)
  = accepted wire write sent a && accepted wire write (sent ++ a) b.
Proof.
  revert sent. induction a as [|m a IH]; intros sent; simpl.
  - now rewrite app_nil_r.
  - rewrite IH, <- app_assoc. simpl. now rewrite andb_assoc.
Qed.

Lemma write_log_refl {A : Type} (sent : list Message) (a : A) :
  write_log wire write sent sent (Ok a).
Proof. exists []. split; [now rewrite app_nil_r | reflexivity]. Qed.

Lemma write_log_trans {A B : Type} (s0 s1 s2 : list Message) (a : A)
  (r : result B) :
  write_log wire write s0 s1 (Ok a) ->
  write_log wire write s1 s2 r ->
  write_log wire write s0 s2 r.
Proof.
  intros [x [-> Hx]] [y [-> Hy]]. exists (x ++ y).
  split; [now rewrite app_assoc|].
  assert (Hacc : accepted wire write (s0 ++ x) y = true ->
                 accepted wire write s0 (x ++ y) = true).
  { intros H. rewrite accepted_app, Hx, H. reflexivity. }
  destruct r as [b|e]; [now apply Hacc|].
  destruct e; try (now apply Hacc).
  destruct Hy as [pre [m [-> [Hpre Hm]]]].
  exists (x ++ pre), m. split; [now rewrite app_assoc|].
  split; [|now rewrite app_assoc].
  now rewrite accepted_app, Hx, Hpre.
Qed.

Lemma write_log_Ok {A B : Type} (s0 s1 : list Message) (a : A) (b : B) :
  write_log wire write s0 s1 (Ok a) ->
  write_log wire write s0 s1 (Ok b).
Proof. intros [x Hx]. exists x. exact Hx. Qed.

Lemma write_log_Throw {A B : Type} (s0 s1 : list Message) (e : Error) :
  write_log wire write s0 s1 (@Throw A e) ->
  write_log wire write s0 s1 (@Throw B e).
Proof. intros [x Hx]. exists x. exact Hx. Qed.

Lemma flush_log (w : MessageWriter) (sent : list Message) :
  write_log wire write sent (fst (flush' w sent)) (snd (flush' w sent))
  /\ forall e, snd (flush' w sent) = Throw e -> writer_error e.
Proof.
  destruct (flush' w sent) as [sent' [w'|e]] eqn:Hf; simpl.
  - split; [|discriminate]. apply flush_Ok in Hf.
    destruct Hf as [[_ [-> _]]|[_ [Hw [-> _]]]]; [apply write_log_refl|].
    exists [w_msg w]. split; [reflexivity|]. simpl. now rewrite Hw.
  - apply flush_Throw in Hf.
    destruct Hf as [[-> [-> _]]|[-> [-> [_ Hw]]]].
    + split; [|intros e [= <-]; now right].
      exists []. split; [now rewrite app_nil_r | reflexivity].
    + split; [|intros e [= <-]; now left].
      exists [w_msg w]. split; [reflexivity|].
      exists [], (w_msg w). rewrite app_nil_r. auto.
Qed.

Lemma writeRR_log (w : MessageWriter) (rr : RR) (sent : list Message) :
  write_log wire write sent (fst (writeRR' w rr sent))
            (snd (writeRR' w rr sent))
  /\ forall e, snd (writeRR' w rr sent) = Throw e -> writer_error e.
Proof.
  unfold writeRR, sbind.
  set (w1 := {| w_req := w_req w; w_msg := w_msg w; w_size := w_size w;
                w_written := w_written w + 1 |}).
  destruct (RR_getSize rr + w_size w1 >? MAX_MESSAGE_SIZE).
  - destruct (flush_log w1 sent) as [Hl He].
    destruct (flush' w1 sent) as [s1 [w2|e]]; simpl in *.
    + split; [|discriminate]. eapply write_log_Ok. exact Hl.
    + split; [exact Hl | exact He].
  - simpl. split; [apply write_log_refl | discriminate].
Qed.

Lemma writeAll_log (rrs : list RR) :
  forall (w : MessageWriter) (sent : list Message),
    write_log wire write sent (fst (writeAll' w rrs sent))
              (snd (writeAll' w rrs sent))
    /\ forall e, snd (writeAll' w rrs sent) = Throw e -> writer_error e.
Proof.
  induction rrs as [|rr rrs IH]; intros w sent.
  - simpl. split; [apply write_log_refl | discriminate].
  - cbn [writeAll]. unfold sbind.
    destruct (writeRR_log w rr sent) as [Hl He].
    destruct (writeRR' w rr sent) as [s1 [w1|e]]; simpl in Hl, He.
    + destruct (IH w1 s1) as [Hl' He']. split; [|exact He'].
      eapply write_log_trans; [exact Hl | exact Hl'].
    + simpl. split; [exact Hl | exact He].
Qed.

(** X2. The two ways [writeAll] fails. It fails with ['unable to write
    message'] exactly when the callback has refused the last message it was
    handed, every message before that one having been accepted; after a
    refusal the callback is not called again. Its one other failure is the
    size error of [msg.compress()], on a message that is then not handed
    over: the callback has accepted all it was handed. *)
Theorem writeAll_stops_at_first_refusal (rrs : list RR) (w : MessageWriter)
  (sent : list Message) :
  let '(sent', r) := writeAll' w rrs sent in
  exists extra,
    sent' = sent ++ extra
    /\ match r with
       | Ok _ => accepted wire write sent extra = true
       | Throw e =>
           (e = UnableToWrite
            /\ exists pre m,
                 extra = pre ++ [m]
                 /\ accepted wire write sent pre = true
                 /\ write (sent ++ pre) (wire m) = false)
           \/ (e = MessageExceedsSizeLimits
               /\ accepted wire write sent extra = true)
       end.
Proof.
  destruct (writeAll_log rrs w sent) as [Hl He].
  destruct (writeAll' w rrs sent) as [sent' r]. simpl in Hl, He.
  destruct Hl as [extra [-> Hx]]. exists extra. split; [reflexivity|].
  destruct r as [w'|e]; [exact Hx|].
  destruct (He e eq_refl) as [->| ->]; [left | right];
    (split; [reflexivity | exact Hx]).
Qed.

Lemma greedy_app_l (a b : list Message) : greedy' (a ++ b) -> greedy' a.
Proof.
  induction a as [|m1 a IH]; [intros _; exact I|].
  destruct a as [|m2 a]; [intros _; exact I|].
  intros [H Hrest]. split; [exact H|]. apply IH. exact Hrest.
Qed.

Lemma greedy_last_head (m m' : Message) (l : list Message) :
  (forall rr tl, answer m = rr :: tl -> exists tl', answer m' = rr :: tl') ->
  greedy' (l ++ [m]) -> greedy' (l ++ [m']).
Proof.
  intros Hhd. induction l as [|m1 l IH]; [simpl; auto|].
  destruct l as [|m2 l].
  - simpl. intros [H _]. split; [|exact I].
    destruct (answer m) as [|rr tl]; [contradiction|].
    destruct (Hhd rr tl eq_refl) as [tl' ->]. exact H.
  - intros [H Hrest]. split; [exact H|]. apply IH. exact Hrest.
Qed.

Lemma greedy_snoc (m m' : Message) (l : list Message) (rr : RR)
  (tl : list RR) :
  answer m' = rr :: tl ->
  getSize m + RR_getSize rr > MAX_MESSAGE_SIZE ->
  greedy' (l ++ [m]) -> greedy' ((l ++ [m]) ++ [m']).
Proof.
  intros Ha Hs. induction l as [|m1 l IH].
  - simpl. intros _. rewrite Ha. auto.
  - destruct l as [|m2 l].
    + simpl. intros [H _]. split; [exact H|]. rewrite Ha. auto.
    + intros [H Hrest]. split; [exact H|]. apply IH. exact Hrest.
Qed.

Lemma writeRR_greedy (w : MessageWriter) (rr : RR) (sent : list Message) :
  size_inv' w -> greedy' (sent ++ [w_msg w]) ->
  match snd (writeRR' w rr sent) with
  | Ok w' =>
      size_inv' w' /\ greedy' (fst (writeRR' w rr sent) ++ [w_msg w'])
  | Throw _ => greedy' (fst (writeRR' w rr sent))
  end.
Proof.
  intros Hinv Hg.
  destruct (writeRR' w rr sent) as [s1 [w1|e]] eqn:Hrun; simpl.
  - split; [exact (writeRR_size_inv _ _ _ _ _ _ _ _ _ Hrun Hinv)|].
    revert Hrun. unfold writeRR, sbind.
    set (w0 := {| w_req := w_req w; w_msg := w_msg w; w_size := w_size w;
                  w_written := w_written w + 1 |}).
    destruct (RR_getSize rr + w_size w0 >? MAX_MESSAGE_SIZE) eqn:Hc.
    + destruct (flush' w0 sent) as [s2 [w2|e2]] eqn:Hf; [|discriminate].
      apply flush_Ok in Hf.
      destruct Hf as [[_ [-> ->]]|[_ [_ [-> ->]]]].
      * unfold sret. intros [= <- <-]. simpl.
        eapply greedy_last_head; [|exact Hg].
        intros r0 tl Hr. simpl. rewrite Hr. simpl. eauto.
      * unfold sret. intros [= <- <-]. simpl.
        eapply greedy_snoc; [reflexivity| |exact Hg].
        apply Z.gtb_lt in Hc. unfold size_inv in Hinv. simpl in Hc.
        rewrite <- Hinv. lia.
    + unfold sret. intros [= <- <-]. simpl.
      eapply greedy_last_head; [|exact Hg].
      intros r0 tl Hr. simpl. rewrite Hr. simpl. eauto.
  - revert Hrun. unfold writeRR, sbind.
    set (w0 := {| w_req := w_req w; w_msg := w_msg w; w_size := w_size w;
                  w_written := w_written w + 1 |}).
    destruct (RR_getSize rr + w_size w0 >? MAX_MESSAGE_SIZE).
    + destruct (flush' w0 sent) as [s2 [w2|e2]] eqn:Hf; [discriminate|].
      apply flush_Throw in Hf.
      destruct Hf as [[_ [-> _]]|[_ [-> _]]]; intros [= <- <-].
      * exact (greedy_app_l _ _ Hg).
      * exact Hg.
    + discriminate.
Qed.

Lemma writeAll_greedy (rrs : list RR) :
  forall (w : MessageWriter) (sent : list Message),
    size_inv' w -> greedy' (sent ++ [w_msg w]) ->
    match snd (writeAll' w rrs sent) with
    | Ok w' =>
        size_inv' w' /\ greedy' (fst (writeAll' w rrs sent) ++ [w_msg w'])
    | Throw _ => greedy' (fst (writeAll' w rrs sent))
    end.
Proof.
  induction rrs as [|rr rrs IH]; intros w sent Hinv Hg.
  - simpl. auto.
  - cbn [writeAll]. unfold sbind.
    pose proof (writeRR_greedy w rr sent Hinv Hg) as H1.
    destruct (writeRR' w rr sent) as [s1 [w1|e]]; simpl in H1.
    + destruct H1 as [Hinv1 Hg1]. exact (IH w1 s1 Hinv1 Hg1).
    + simpl. exact H1.
Qed.

(** X3. The writer fills each message as far as it can: in the sequence of
    messages written by [writeAll] on a new writer, followed by the message
    left in the buffer, every message but the last is followed by a message
    that is not empty and whose first record did not fit into it any more. *)
Theorem writeAll_packs_greedily (req : Message) (rrs : list RR) :
  let transfer := new_MessageWriter RR_getSize Question_getSize req in
  match snd (writeAll' transfer rrs []) with
  | Ok w' => greedy' (fst (writeAll' transfer rrs []) ++ [w_msg w'])
  | Throw _ => greedy' (fst (writeAll' transfer rrs []))
  end.
Proof.
  intros transfer.
  assert (Hinv : size_inv' transfer) by reflexivity.
  assert (Hg : greedy' ([] ++ [w_msg transfer])) by exact I.
  pose proof (writeAll_greedy rrs transfer [] Hinv Hg) as H.
  destruct (snd (writeAll' transfer rrs [])); [apply H | exact H].
Qed.

Lemma writeRR_header (seed : Message) (w : MessageWriter) (rr : RR)
  (sent : list Message) :
  set_answer (w_msg w) [] = seed ->
  Forall (fun m => set_answer m [] = seed) sent ->
  Forall (fun m => set_answer m [] = seed) (fst (writeRR' w rr sent))
  /\ forall w', snd (writeRR' w rr sent) = Ok w' ->
                set_answer (w_msg w') [] = seed.
Proof.
  intros Hw Hs. unfold writeRR, sbind.
  set (w1 := {| w_req := w_req w; w_msg := w_msg w; w_size := w_size w;
                w_written := w_written w + 1 |}).
  destruct (RR_getSize rr + w_size w1 >? MAX_MESSAGE_SIZE).
  - unfold flush. destruct (w_size w1 =? 0).
    + simpl. split; [exact Hs|]. now intros w' [= <-].
    + assert (Hs' : Forall (fun m => set_answer m [] = seed)
                           (sent ++ [w_msg w1])).
      { apply Forall_app. split; [exact Hs|]. now constructor. }
      destruct (Message_compress wire (w_msg w1)) as [data|e0];
        [|simpl; split; [exact Hs | discriminate]].
      destruct (write sent data); simpl.
      * split; [exact Hs'|]. now intros w' [= <-].
      * split; [exact Hs' | discriminate].
  - simpl. split; [exact Hs|]. now intros w' [= <-].
Qed.

Lemma writeAll_header (seed : Message) (rrs : list RR) :
  forall (w : MessageWriter) (sent : list Message),
    set_answer (w_msg w) [] = seed ->
    Forall (fun m => set_answer m [] = seed) sent ->
    Forall (fun m => set_answer m [] = seed) (fst (writeAll' w rrs sent))
    /\ forall w', snd (writeAll' w rrs sent) = Ok w' ->
                  set_answer (w_msg w') [] = seed.
Proof.
  induction rrs as [|rr rrs IH]; intros w sent Hw Hs.
  - simpl. split; [exact Hs|]. now intros w' [= <-].
  - cbn [writeAll]. unfold sbind.
    destruct (writeRR_header seed w rr sent Hw Hs) as [Hs1 Hw1].
    destruct (writeRR' w rr sent) as [s1 [w1|e]]; cbn [fst snd] in Hs1, Hw1.
    + apply IH; [now apply Hw1 | exact Hs1].
    + simpl. split; [exact Hs1 | discriminate].
Qed.

(** X4. The writer touches the answer section only: every message it hands
    to the callback is the reply to the request made by the constructor,
    with records in its answer section and nothing else changed. *)
Theorem writeAll_keeps_the_reply_header (req : Message) (rrs : list RR) :
  Forall (fun m => set_answer m [] = set_answer (setReply new_Message req) [])
         (fst ((w <~ writeAll' (new_MessageWriter RR_getSize Question_getSize
                                                  req) rrs ;;
                flush' w) [])).
Proof.
  unfold sbind.
  destruct (writeAll_header (set_answer (setReply new_Message req) []) rrs
              (new_MessageWriter RR_getSize Question_getSize req) []
              eq_refl (Forall_nil _)) as [Hs Hw].
  destruct (writeAll' _ rrs []) as [s1 [w1|e]]; cbn [fst snd] in Hs, Hw |- *;
    [|exact Hs].
  specialize (Hw w1 eq_refl). unfold flush.
  destruct (w_size w1 =? 0); [exact Hs|].
  assert (Hs' : Forall (fun m => set_answer m []
                                 = set_answer (setReply new_Message req) [])
                       (s1 ++ [w_msg w1])).
  { apply Forall_app. split; [exact Hs|]. now constructor. }
  destruct (Message_compress wire (w_msg w1)) as [data|e0]; [|exact Hs].
  destruct (write s1 data); exact Hs'.
Qed.

End WriterFurther.

(** ** [sendAXFR]: the records of a transfer *)

Section Plan.

Variable RR_getSize : RR -> Z.
Variable Question_getSize : Question -> Z.
Variable wire : Message -> list byte.
Variable write : list Message -> list byte -> bool.
Variable toZone : list byte -> string -> list RR.
Variable soa : RR.

Local Abbreviation flush' := (flush RR_getSize Question_getSize wire write).
Local Abbreviation writeRR' := (writeRR RR_getSize Question_getSize wire write).
Local Abbreviation writeAll' := (writeAll RR_getSize Question_getSize wire write).
Local Abbreviation sendAXFR' :=
  (sendAXFR RR_getSize Question_getSize wire write toZone soa).

Lemma writeAll_app (a b : list RR) :
  forall (w : MessageWriter) (sent : list Message),
    writeAll' w (a ++ b) sent
    = (w1 <~ writeAll' w a ;; writeAll' w1 b) sent.
Proof.
  induction a as [|rr a IH]; intros w sent.
  - reflexivity.
  - cbn [app writeAll]. run.
    destruct (writeRR' w rr sent) as [s1 [w1|e]]; [|reflexivity].
    rewrite IH. reflexivity.
Qed.

Lemma write_local_zone_writeAll (zone : list RR) :
  forall (w : MessageWriter) (sent : list Message),
    write_local_zone RR_getSize Question_getSize wire write w zone sent
    = writeAll' w (without_sigs zone) sent.
Proof.
  induction zone as [|rr zone IH]; intros w sent; [reflexivity|].
  cbn [write_local_zone without_sigs filter].
  destruct (rr_type rr =? types.RRSIG); cbn [negb].
  - apply IH.
  - cbn [writeAll]. run.
    destruct (writeRR' w rr sent) as [s1 [w1|e]]; [|reflexivity].
    apply IH.
Qed.

Lemma write_glue_writeAll (glues : list (list RR)) :
  forall (w : MessageWriter) (sent : list Message),
    write_glue RR_getSize Question_getSize wire write w glues sent
    = writeAll' w (List.concat glues) sent.
Proof.
  induction glues as [|l glues IH]; intros w sent; [reflexivity|].
  cbn [write_glue List.concat]. rewrite writeAll_app. run.
  destruct (writeAll' w l sent) as [s1 [w1|e]]; [|reflexivity].
  apply IH.
Qed.

Lemma len_zero_nil {A : Type} (l : list A) : (len l =? 0) = true -> l = [].
Proof.
  destruct l; [reflexivity|]. intros H. apply Z.eqb_eq in H.
  unfold len in H. cbn [List.length] in H. lia.
Qed.

Lemma local_phase_plan (p : Plugin) (tree : list NameState) :
  forall (w : MessageWriter) (db : MergeDB) (log : list Collision)
         (sent : list Message),
    local_phase RR_getSize Question_getSize wire write toZone
                p tree w db log sent
    = let '(records, db', log') := local_plan toZone p tree db log in
      (w' <~ writeAll' w records ;; sret (w', db', log')) sent.
Proof.
  induction tree as [|ns tree IH]; intros w db log sent; [reflexivity|].
  cbn [local_phase local_plan].
  destruct (len (ns_data ns) <=? 0); [apply IH|].
  destruct (pickRRs p (util.fqdn (ns_name ns))
                    (toZone (ns_data ns) (util.fqdn (ns_name ns))) db)
    as [[zone db1] warned].
  destruct (len zone =? 0) eqn:Hz.
  - apply len_zero_nil in Hz. subst zone. rewrite IH.
    destruct (local_plan toZone p tree db1 (log ++ warned))
      as [[records db2] log2]. reflexivity.
  - destruct (local_plan toZone p tree db1 (log ++ warned))
      as [[records db2] log2] eqn:Hplan.
    cbv beta iota. run. rewrite writeAll_app, write_local_zone_writeAll. run.
    destruct (writeAll' w (without_sigs zone) sent) as [s1 [w1|e]];
      [|reflexivity].
    rewrite IH, Hplan. reflexivity.
Qed.

Lemma write_merge_zone_plan (names : OwnerMap.t) (zone : list RR) :
  forall (w : MessageWriter) (glue : NameSet.t) (glues : list (list RR))
         (sent : list Message),
    write_merge_zone RR_getSize Question_getSize wire write names
                     w zone glue glues sent
    = let '(records, r) := merge_zone_plan names zone glue glues in
      (w' <~ writeAll' w records ;;
       match r with
       | Ok (glue', glues') => sret (w', glue', glues')
       | Throw e => sthrow e
       end) sent.
Proof.
  induction zone as [|rr zone IH]; intros w glue glues sent; [reflexivity|].
  cbn [write_merge_zone merge_zone_plan].
  destruct ((rr_type rr =? types.NSEC) || (rr_type rr =? types.RRSIG));
    [apply IH|].
  assert (Hstep : forall glue1 glues1,
    (w0 <~ transfer_writeRR RR_getSize Question_getSize wire write w rr ;;
     write_merge_zone RR_getSize Question_getSize wire write names
                      w0 zone glue1 glues1) sent
    = let '(records, r) := merge_zone_plan names zone glue1 glues1 in
      (w' <~ writeAll' w (rr :: records) ;;
       match r with
       | Ok (glue', glues') => sret (w', glue', glues')
       | Throw e => sthrow e
       end) sent).
  { intros glue1 glues1.
    destruct (merge_zone_plan names zone glue1 glues1) as [records r] eqn:Hp.
    cbn [writeAll]. run.
    destruct (writeRR' w rr sent) as [s1 [w1|e]]; [|reflexivity].
    rewrite IH, Hp. reflexivity. }
  destruct (if rr_type rr =? types.NS then data_ns (rr_data rr) else None)
    as [ns|].
  - destruct (NameSet.has glue ns).
    + destruct (OwnerMap.get names ns) as [glueData|].
      * rewrite Hstep.
        destruct (merge_zone_plan names zone (NameSet.delete glue ns)
                                  (glues ++ [rrs glueData])). reflexivity.
      * cbn [writeAll]. run.
        destruct (writeRR' w rr sent) as [s1 [w1|e]]; reflexivity.
    + rewrite Hstep.
      destruct (merge_zone_plan names zone glue glues). reflexivity.
  - rewrite Hstep.
    destruct (merge_zone_plan names zone glue glues). reflexivity.
Qed.

Lemma merge_phase_plan (names : OwnerMap.t) (chain : list string) :
  forall (w : MessageWriter) (glue : NameSet.t) (sent : list Message),
    merge_phase RR_getSize Question_getSize wire write names
                chain w glue sent
    = let '(records, r) := merge_plan names chain glue in
      (w' <~ writeAll' w records ;;
       match r with
       | Ok glue' => sret (w', glue')
       | Throw e => sthrow e
       end) sent.
Proof.
  induction chain as [|name chain IH]; intros w glue sent; [reflexivity|].
  cbn [merge_phase merge_plan].
  destruct (OwnerMap.get names name) as [owner|]; [|reflexivity].
  unfold sbind at 1. rewrite write_merge_zone_plan.
  destruct (merge_zone_plan names (rrs owner) glue [])
    as [records [[glue1 glues]|e]].
  - destruct (merge_plan names chain glue1) as [records2 r] eqn:Hp.
    run. rewrite writeAll_app. run.
    destruct (writeAll' w records sent) as [s1 [w1|e]]; [|reflexivity].
    rewrite write_glue_writeAll, writeAll_app. run.
    destruct (writeAll' w1 (List.concat glues) s1) as [s2 [w2|e]];
      [|reflexivity].
    rewrite IH, Hp. reflexivity.
  - run.
    destruct (writeAll' w records sent) as [s1 [w1|e']]; reflexivity.
Qed.

Lemma allowed_In (address : string) (ips : list string) :
  existsb (String.eqb address) ips = true <-> In address ips.
Proof.
  rewrite existsb_exists. split.
  - intros [x [Hx He]]. apply String.eqb_eq in He. now subst.
  - intros H. exists address. split; [exact H | apply String.eqb_refl].
Qed.

Lemma sendAXFR_plan (p : Plugin) (req : Message) (rinfo : RInfo)
  (db : MergeDB) (tree : list NameState) (sent : list Message) :
  ri_tcp rinfo = true ->
  In (ri_address rinfo) (ipList p) ->
  sendAXFR' p req rinfo (Ok db) tree sent
  = let '(records, r, log) := transfer_plan toZone soa p tree db in
    (w <~ writeAll' (new_MessageWriter RR_getSize Question_getSize req)
                    records ;;
     match r with
     | Throw e => sthrow e
     | Ok _ =>
         _ <~ flush' w ;;
         sret (mkSent (set_answer (setReply new_Message req) [soa]) log)
     end) sent.
Proof.
  intros Htcp Hip. apply allowed_In in Hip.
  unfold sendAXFR, transfer_plan. rewrite Htcp, Hip. cbn [negb].
  set (db0 := {| glue := glue db; names := names db;
                 nsecChain := NameSet.delete (nsecChain db) "." |}).
  set (transfer := new_MessageWriter RR_getSize Question_getSize req).
  destruct (local_plan toZone p tree db0 []) as [[local db1] log] eqn:Hl.
  destruct (merge_plan (names db1) (nsecChain db1) (glue db1))
    as [merged r] eqn:Hm.
  change (soa :: local ++ merged) with ([soa] ++ local ++ merged).
  run. rewrite writeAll_app. cbn [writeAll]. run.
  destruct (writeRR' transfer soa sent) as [s1 [w1|e]]; [|reflexivity].
  rewrite local_phase_plan, Hl, writeAll_app. run.
  destruct (writeAll' w1 local s1) as [s2 [w2|e]]; [|reflexivity].
  rewrite merge_phase_plan, Hm. run.
  destruct (writeAll' w2 merged s2) as [s3 [w3|e]]; [|reflexivity].
  destruct r as [glue'|e]; reflexivity.
Qed.

(** X5. What a transfer sends does not depend on the writer: a request
    that is not refused runs [writeAll] on one list of records, fixed by the
    name tree, the merge data and the collision policy (the SOA, the local
    records without their RRSIGs, then for every remaining external name its
    records without NSEC and RRSIG, followed by the glue of its name
    servers), then flushes and returns the closing SOA message. *)
Theorem sendAXFR_runs_its_plan (p : Plugin) (req : Message) (rinfo : RInfo)
  (db : MergeDB) (tree : list NameState) (sent : list Message) :
  ri_tcp rinfo = true ->
  In (ri_address rinfo) (ipList p) ->
  sendAXFR' p req rinfo (Ok db) tree sent
  = let '(records, r, log) := transfer_plan toZone soa p tree db in
    (w <~ writeAll' (new_MessageWriter RR_getSize Question_getSize req)
                    records ;;
     match r with
     | Throw e => sthrow e
     | Ok _ =>
         _ <~ flush' w ;;
         sret (mkSent (set_answer (setReply new_Message req) [soa]) log)
     end) sent.
Proof. apply sendAXFR_plan. Qed.

End Plan.

(** ** The validator: grouping, errors, the merge data *)

Lemma fold_add_keys (names : list string) :
  forall (s : NameSet.t),
    fold_left NameSet.add names s
    = fold_left (fun acc k => if existsb (String.eqb k) acc then acc
                              else acc ++ [k]) names s.
Proof. induction names as [|n names IH]; intros s; [reflexivity | apply IH]. Qed.

Lemma collect_origin (v v' : AXFRValidator) (rr : RR) :
  collect v rr = Ok v' -> origin v' = origin v.
Proof.
  unfold collect. destruct (rr_type rr =? types.NSEC3); [discriminate|].
  now intros [= <-].
Qed.

Lemma collect_owners (v v' : AXFRValidator) (rr : RR) :
  collect v rr = Ok v' ->
  let base := match OwnerMap.get (owners v) (rr_name rr) with
              | Some o => o
              | None => {| delegation := false; rrs := [] |}
              end in
  owners v'
  = OwnerMap.set (owners v) (rr_name rr)
      {| delegation :=
           delegation base
           || (negb (String.eqb (rr_name rr) (origin v))
               && (rr_type rr =? types.NS));
         rrs := rrs base ++ [rr] |}.
Proof.
  unfold collect. destruct (rr_type rr =? types.NSEC3); [discriminate|].
  intros [= <-]. cbn [owners]. f_equal. f_equal.
  destruct (rr_type rr =? types.NS),
           (String.eqb (rr_name rr) (origin v)),
           (delegation
              match OwnerMap.get (owners v) (rr_name rr) with
              | Some o => o
              | None => {| delegation := false; rrs := [] |}
              end); reflexivity.
Qed.

Lemma collect_maybeGlue (v v' : AXFRValidator) (rr : RR) :
  collect v rr = Ok v' ->
  maybeGlue v' = fold_left NameSet.add (ns_targets [rr]) (maybeGlue v).
Proof.
  unfold collect, ns_targets. destruct (rr_type rr =? types.NSEC3);
    [discriminate|].
  intros [= <-]. cbn [maybeGlue flat_map]. rewrite app_nil_r.
  destruct (rr_type rr =? types.NS); [|reflexivity].
  destruct (data_ns (rr_data rr)); reflexivity.
Qed.

Lemma ns_targets_cons (rr : RR) (records : list RR) :
  ns_targets (rr :: records) = ns_targets [rr] ++ ns_targets records.
Proof. unfold ns_targets. cbn [flat_map]. now rewrite app_nil_r. Qed.

Lemma hasType_cons (rr : RR) (l : list RR) (t : Z) :
  util.hasType (rr :: l) t = (rr_type rr =? t) || util.hasType l t.
Proof. reflexivity. Qed.

Lemma collect_all_groups (records : list RR) :
  forall v v',
    collect_all v records = Ok v' ->
    origin v' = origin v
    /\ map fst (owners v')
       = fold_left NameSet.add (map rr_name records) (map fst (owners v))
    /\ maybeGlue v' = fold_left NameSet.add (ns_targets records) (maybeGlue v)
    /\ forall name,
         OwnerMap.get (owners v') name
         = extend (OwnerMap.get (owners v) name) (origin v) name
                  (group records name).
Proof.
  induction records as [|rr records IH]; intros v v'.
  - simpl. intros [= <-]. auto.
  - cbn [collect_all]. destruct (collect v rr) as [v1|e] eqn:Hc;
      [|discriminate].
    cbn [bind]. intros Hrest.
    destruct (IH _ _ Hrest) as [Ho [Hk [Hg Hget]]].
    pose proof (collect_origin _ _ _ Hc) as Ho1.
    pose proof (collect_owners _ _ _ Hc) as Hown. cbv zeta in Hown.
    pose proof (collect_maybeGlue _ _ _ Hc) as Hg1.
    split; [congruence|]. split; [|split].
    + rewrite Hk, Hown, set_keys. reflexivity.
    + rewrite (ns_targets_cons rr records), fold_left_app, <- Hg1. exact Hg.
    + intros name. rewrite Hget, Hown, get_set, Ho1.
      unfold group. cbn [filter]. fold (group records name).
      rewrite (String.eqb_sym (rr_name rr) name).
      destruct (String.eqb name (rr_name rr)) eqn:Hn; [|reflexivity].
      apply String.eqb_eq in Hn. subst name.
      set (base := match OwnerMap.get (owners v) (rr_name rr) with
                   | Some o => o
                   | None => {| delegation := false; rrs := [] |}
                   end).
      destruct (group records (rr_name rr)) as [|x g] eqn:Hgr.
      * cbn [extend delegation rrs]. rewrite hasType_cons.
        cbn [util.hasType existsb]. rewrite orb_false_r. reflexivity.
      * cbn [extend delegation rrs]. rewrite (hasType_cons rr).
        rewrite <- app_assoc. cbn [app]. f_equal. f_equal. fold base.
        destruct (delegation base),
                 (String.eqb (rr_name rr) (origin v)),
                 (rr_type rr =? types.NS),
                 (util.hasType (x :: g) types.NS); reflexivity.
Qed.

(** X6. The first loop of [verifyZone] groups the records by owner name,
    compared character for character: in the merge data returned, the
    entries of [names] are the owner names in the order of their first
    occurrence, each holds the records of its name in arrival order, and it
    is marked a delegation exactly when it is not the root and holds an NS
    record. *)
Theorem verifyZone_groups_records (KeyMap : Type)
  (verifyMessage : Message -> KeyMap -> bool)
  (messages : list Message) (keyMap : KeyMap) (db : MergeDB) :
  verifyZone KeyMap verifyMessage new_AXFRValidator messages keyMap
  = Some (Ok db) ->
  let records := flat_map answer messages in
  map fst (names db) = first_seen (map rr_name records)
  /\ forall name,
       OwnerMap.get (names db) name
       = match group records name with
         | [] => None
         | g => Some {| delegation :=
                          negb (String.eqb name ".")
                          && util.hasType g types.NS;
                        rrs := g |}
         end.
Proof.
  unfold verifyZone.
  destruct (collect_all new_AXFRValidator (flat_map answer messages))
    as [v1|e1] eqn:Hc; [|discriminate].
  destruct (verify_owners KeyMap verifyMessage v1 keyMap (owners v1) [])
    as [glue1|e2]; [|discriminate].
  destruct (verifyNSEC v1) as [[chain|e3]|]; try discriminate.
  intros [= <-]. cbn [names]. cbv zeta.
  destruct (collect_all_groups _ _ _ Hc) as [_ [Hk [_ Hget]]].
  split; [exact Hk|].
  intros name. rewrite Hget. cbn [owners new_AXFRValidator OwnerMap.get origin].
  destruct (group (flat_map answer messages) name); reflexivity.
Qed.

Lemma collect_all_throws (records : list RR) :
  forall v e, collect_all v records = Throw e -> e = BogusNSEC3.
Proof.
  induction records as [|rr records IH]; intros v e; [discriminate|].
  cbn [collect_all]. destruct (collect v rr) as [v1|e1] eqn:Hc; cbn [bind].
  - apply IH.
  - intros [= <-]. now apply collect_throws in Hc.
Qed.

Lemma verify_owners_throws (KeyMap : Type)
  (verifyMessage : Message -> KeyMap -> bool) (v : AXFRValidator)
  (keyMap : KeyMap) (entries : list (string * Owner)) :
  forall glue e,
    verify_owners KeyMap verifyMessage v keyMap entries glue = Throw e ->
    exists name owner,
      e = BogusUnableToValidate name /\ In (name, owner) entries
      /\ verifyMessage (verification_input owner) keyMap = false.
Proof.
  induction entries as [|[name owner] entries IH]; intros glue e;
    [discriminate|].
  cbn [verify_owners]. destruct (is_glue v name owner).
  - intros H. destruct (IH _ _ H) as [n [o [He [Hin Hv]]]].
    exists n, o. split; [exact He|]. split; [now right | exact Hv].
  - destruct (verifyMessage (verification_input owner) keyMap) eqn:Hv;
      cbn [negb].
    + intros H. destruct (IH _ _ H) as [n [o [He [Hin Hv']]]].
      exists n, o. split; [exact He|]. split; [now right | exact Hv'].
    + intros [= <-]. exists name, owner. split; [reflexivity|].
      split; [now left | exact Hv].
Qed.

Lemma extractSet_In (records : list RR) (name : string) (types : list Z)
  (rr : RR) :
  In rr (util.extractSet records name types) ->
  In rr records /\ existsb (Z.eqb (rr_type rr)) types = true.
Proof.
  unfold util.extractSet. rewrite filter_In. intros [Hin H].
  apply andb_true_iff in H. tauto.
Qed.

Lemma nsec_walk_throws_bogus (v : AXFRValidator) (fuel : nat) :
  (forall n o rr, OwnerMap.get (owners v) n = Some o -> In rr (rrs o) ->
                  nsec_data_ok rr) ->
  forall name seen e,
    nsec_walk fuel v name seen = Some (Throw e) -> is_bogus e = true.
Proof.
  intros Hdata. induction fuel as [|fuel IH]; intros name seen e;
    [discriminate|].
  cbn [nsec_walk].
  destruct (OwnerMap.get (owners v) name) as [owner|] eqn:Hget;
    [|now intros [= <-]].
  destruct (util.extractSet (rrs owner) name [types.NSEC])
    as [|rr [|rr2 l]] eqn:Hx; try (now intros [= <-]).
  assert (Hrr : In rr (rrs owner) /\ rr_type rr = types.NSEC).
  { destruct (extractSet_In (rrs owner) name [types.NSEC] rr) as [Hin Ht].
    - rewrite Hx. now left.
    - split; [exact Hin|]. cbn [existsb] in Ht. rewrite orb_false_r in Ht.
      now apply Z.eqb_eq in Ht. }
  destruct (data_nsec (rr_data rr)) as [[next bitmap]|] eqn:Hd.
  - pose proof (verifyBitmap_spec name owner bitmap) as Hb.
    destruct (verifyBitmap name owner bitmap) as [u|e1].
    + destruct (NameSet.has seen next).
      * destruct (negb (String.eqb next (origin v))); [|discriminate].
        now intros [= <-].
      * apply IH.
    + intros [= <-]. apply Hb.
  - exfalso. destruct Hrr as [Hin Ht].
    exact (Hdata name owner rr Hget Hin Ht Hd).
Qed.

Lemma collect_all_Forall (P : RR -> Prop) (records : list RR) :
  forall v v',
    collect_all v records = Ok v' ->
    (forall rr, In rr records -> P rr) ->
    (forall n o rr, OwnerMap.get (owners v) n = Some o -> In rr (rrs o) ->
                    P rr) ->
    forall n o rr, OwnerMap.get (owners v') n = Some o -> In rr (rrs o) ->
                   P rr.
Proof.
  intros v v' H Hrec Hv n o rr.
  destruct (collect_all_groups _ _ _ H) as [_ [_ [_ Hget]]].
  rewrite Hget. unfold extend.
  destruct (group records n) as [|x g] eqn:Hg.
  - apply Hv.
  - intros [= <-]. cbn [rrs]. intros Hin. apply in_app_or in Hin.
    destruct Hin as [Hin|Hin].
    + destruct (OwnerMap.get (owners v) n) as [o|] eqn:Ho;
        [exact (Hv n o rr Ho Hin) | destruct Hin].
    + apply Hrec. rewrite <- Hg in Hin. unfold group in Hin.
      apply filter_In in Hin. tauto.
Qed.

(** X7. Every failure of [verifyZone] is classified bogus: on a zone whose
    NSEC records carry NSEC data, whatever [verifyZone] throws is an error
    whose message starts with ['bogus:']. *)
Theorem verifyZone_fails_bogus (KeyMap : Type)
  (verifyMessage : Message -> KeyMap -> bool)
  (messages : list Message) (keyMap : KeyMap) (e : Error) :
  (forall rr, In rr (flat_map answer messages) -> nsec_data_ok rr) ->
  verifyZone KeyMap verifyMessage new_AXFRValidator messages keyMap
  = Some (Throw e) ->
  is_bogus e = true.
Proof.
  intros Hdata. unfold verifyZone.
  destruct (collect_all new_AXFRValidator (flat_map answer messages))
    as [v1|e1] eqn:Hc.
  - destruct (verify_owners KeyMap verifyMessage v1 keyMap (owners v1) [])
      as [glue|e2] eqn:Hv.
    + unfold verifyNSEC.
      destruct (nsec_walk (S (List.length (owners v1))) v1 (origin v1)
                          (NameSet.add [] (origin v1)))
        as [[chain|e3]|] eqn:Hw; try discriminate.
      intros [= <-]. eapply nsec_walk_throws_bogus; [|exact Hw].
      apply (collect_all_Forall nsec_data_ok _ _ _ Hc Hdata).
      intros n o rr H. discriminate H.
    + intros [= <-]. apply verify_owners_throws in Hv.
      destruct Hv as [n [o [-> _]]]. reflexivity.
  - intros [= <-]. apply collect_all_throws in Hc. now subst.
Qed.

Lemma links_visits (v : AXFRValidator) (closing : string) (l : list string) :
  links v l closing ->
  forall n, In n l -> exists next, visit_ok v n next.
Proof.
  induction l as [|x l IH]; intros H n Hin; [destruct Hin|].
  destruct H as [Hx Hl]. destruct Hin as [<-|Hin].
  - eauto.
  - now apply IH.
Qed.

Lemma key_get (m : OwnerMap.t) (k : string) :
  In k (map fst m) -> exists o, OwnerMap.get m k = Some o.
Proof.
  intros H. destruct (OwnerMap.get m k) as [o|] eqn:Hg; [eauto|].
  now apply get_None_key in Hg.
Qed.

Lemma verifyZone_closed (KeyMap : Type)
  (verifyMessage : Message -> KeyMap -> bool)
  (messages : list Message) (keyMap : KeyMap) (db : MergeDB) :
  verifyZone KeyMap verifyMessage new_AXFRValidator messages keyMap
  = Some (Ok db) ->
  closed db
  /\ (forall n o, In n (glue db) -> OwnerMap.get (names db) n = Some o ->
                  address_only o)
  /\ (forall n, In n (glue db) -> ~ In n (nsecChain db)).
Proof.
  unfold verifyZone.
  destruct (collect_all new_AXFRValidator (flat_map answer messages))
    as [v1|e1] eqn:Hc; [|discriminate].
  destruct (verify_owners KeyMap verifyMessage v1 keyMap (owners v1) [])
    as [glue1|e2] eqn:Hv; [|discriminate].
  destruct (verifyNSEC v1) as [[chain|e3]|] eqn:Hw; try discriminate.
  intros [= <-]. cbn [glue names nsecChain].
  assert (Hnd : NoDup (map fst (owners v1))).
  { apply (collect_all_spec _ _ _ Hc). constructor. }
  apply verify_owners_spec in Hv. destruct Hv as [_ ->].
  assert (Hglue : forall n, In n (glue_of v1 (owners v1) []) ->
            exists o, OwnerMap.get (owners v1) n = Some o /\ address_only o).
  { intros n Hn. apply glue_of_In in Hn. destruct Hn as [[]|[o [Hin Hg]]].
    exists o. split; [now apply get_In | now apply is_glue_spec in Hg]. }
  unfold verifyNSEC in Hw.
  apply nsec_walk_sound in Hw;
    [|unfold NameSet.add; simpl; repeat constructor; intros []].
  destruct Hw as [rest [-> [_ Hl]]].
  assert (Hadd : NameSet.add [] (origin v1) = [origin v1]) by reflexivity.
  rewrite Hadd in *. cbn [app] in *.
  split; [split|split].
  - intros n Hn. apply key_get. eapply links_keys; eauto.
  - intros n Hn. destruct (Hglue n Hn) as [o [Ho _]]. eauto.
  - intros n o Hn Ho. destruct (Hglue n Hn) as [o' [Ho' Ha]].
    cbn [names] in Ho. rewrite Ho' in Ho. injection Ho as <-. exact Ha.
  - intros n Hn Hin. destruct (Hglue n Hn) as [o [Ho Ha]].
    destruct (links_visits _ _ _ Hl n Hin)
      as [next [o' [rr [bitmap [Ho' [Hx _]]]]]].
    assert (o' = o) by congruence. subst o'.
    destruct (extractSet_In (rrs o) n [types.NSEC] rr) as [Hrr Ht].
    { rewrite Hx. now left. }
    cbn [existsb] in Ht. rewrite orb_false_r in Ht. apply Z.eqb_eq in Ht.
    destruct (Ha rr Hrr) as [H|H]; rewrite Ht in H; discriminate H.
Qed.

(** X8. The merge data [verifyZone] returns is closed and its two sets are
    apart: every name of the chain set and of the glue set has an entry in
    [names], the records of a glue name are address records only, and no
    glue name is in the chain set. *)
Theorem verifyZone_result_is_closed (KeyMap : Type)
  (verifyMessage : Message -> KeyMap -> bool)
  (messages : list Message) (keyMap : KeyMap) (db : MergeDB) :
  verifyZone KeyMap verifyMessage new_AXFRValidator messages keyMap
  = Some (Ok db) ->
  closed db
  /\ (forall n o, In n (glue db) -> OwnerMap.get (names db) n = Some o ->
                  address_only o)
  /\ (forall n, In n (glue db) -> ~ In n (nsecChain db)).
Proof. apply verifyZone_closed. Qed.

(** X9. What [verifyZone] has verified when it succeeds: for every owner
    name of the zone that is not glue, the verifier has accepted the records
    of that name in arrival order, without the NS records when the name is
    not the root and holds one (a delegation), and with every record
    otherwise. *)
Theorem verifyZone_verifies_each_name (KeyMap : Type)
  (verifyMessage : Message -> KeyMap -> bool)
  (messages : list Message) (keyMap : KeyMap) (db : MergeDB) (name : string) :
  verifyZone KeyMap verifyMessage new_AXFRValidator messages keyMap
  = Some (Ok db) ->
  group (flat_map answer messages) name <> [] ->
  ~ In name (glue db) ->
  let g := group (flat_map answer messages) name in
  verifyMessage
    (set_answer new_Message
       (if negb (String.eqb name ".") && util.hasType g types.NS
        then util.filterSet g [types.NS] else g))
    keyMap = true.
Proof.
  unfold verifyZone.
  destruct (collect_all new_AXFRValidator (flat_map answer messages))
    as [v1|e1] eqn:Hc; [|discriminate].
  destruct (verify_owners KeyMap verifyMessage v1 keyMap (owners v1) [])
    as [glue1|e2] eqn:Hv; [|discriminate].
  destruct (verifyNSEC v1) as [[chain|e3]|]; try discriminate.
  intros [= <-] Hg Hglue. cbn [glue] in Hglue. cbv zeta.
  assert (Hnd : NoDup (map fst (owners v1))).
  { apply (collect_all_spec _ _ _ Hc). constructor. }
  destruct (collect_all_groups _ _ _ Hc) as [_ [_ [_ Hget]]].
  specialize (Hget name).
  cbn [owners new_AXFRValidator OwnerMap.get origin] in Hget.
  unfold extend in Hget.
  destruct (group (flat_map answer messages) name) as [|x g] eqn:Hgr;
    [contradiction|].
  cbn [delegation rrs orb app] in Hget.
  apply verify_owners_spec in Hv. destruct Hv as [Hver ->].
  apply get_In in Hget; [|exact Hnd].
  specialize (Hver _ _ Hget).
  unfold verification_input in Hver. cbn [delegation rrs] in Hver.
  apply Hver.
  destruct (is_glue v1 name _) eqn:Hig; [|reflexivity].
  exfalso. apply Hglue. apply glue_of_In. right. eauto.
Qed.

(** ** [sendAXFR]: failures, what is never sent, the shape of the stream *)

Lemma incl_delete (s : NameSet.t) (x : string) : incl (NameSet.delete s x) s.
Proof.
  intros n. rewrite <- !has_In, has_delete. intros H.
  now apply andb_true_iff in H.
Qed.

Section PlanProperties.

Variable toZone : list byte -> string -> list RR.

Lemma local_plan_spec (p : Plugin) (tree : list NameState) :
  forall (db : MergeDB) (log : list Collision),
    let '(records, db', log') := local_plan toZone p tree db log in
    names db' = names db /\ glue db' = glue db
    /\ incl (nsecChain db') (nsecChain db)
    /\ forall rr, In rr records ->
                  rr_type rr <> types.RRSIG /\ local_record toZone tree rr.
Proof.
  induction tree as [|ns tree IH]; intros db log.
  - simpl. repeat split; auto using incl_refl; destruct H.
  - cbn [local_plan].
    assert (Hrest : forall rr, local_record toZone tree rr ->
                               local_record toZone (ns :: tree) rr).
    { intros rr [n [Hn Hrr]]. exists n. split; [now right | exact Hrr]. }
    destruct (len (ns_data ns) <=? 0).
    + specialize (IH db log).
      destruct (local_plan toZone p tree db log) as [[records db2] log2].
      destruct IH as [Hn [Hg [Hc Hr]]]. repeat split; auto.
      * now apply Hr.
      * apply Hrest. now apply Hr.
    + pose proof (pickRRs_spec p (util.fqdn (ns_name ns))
                    (toZone (ns_data ns) (util.fqdn (ns_name ns))) db) as Hp.
      destruct (pickRRs p _ _ db) as [[zone db1] warned].
      destruct Hp as [Hz [Hn1 [Hg1 Hc1]]].
      specialize (IH db1 (log ++ warned)).
      destruct (local_plan toZone p tree db1 (log ++ warned))
        as [[records db2] log2].
      destruct IH as [Hn [Hg [Hc Hr]]].
      split; [congruence|]. split; [congruence|].
      split; [intros n Hin; apply Hc1, Hc, Hin|].
      intros rr Hin. apply in_app_or in Hin. destruct Hin as [Hin|Hin].
      * unfold without_sigs in Hin. apply filter_In in Hin.
        destruct Hin as [Hin Ht]. split.
        -- intros Heq. rewrite Heq in Ht. discriminate Ht.
        -- exists ns. split; [now left | now apply Hz].
      * split; [now apply Hr | apply Hrest; now apply Hr].
Qed.

End PlanProperties.

Lemma merge_zone_plan_spec (names : OwnerMap.t) (glue0 : list string)
  (zone : list RR) :
  forall (glue : NameSet.t) (glues : list (list RR)),
    incl glue glue0 ->
    glue_records names glue0 glues ->
    let '(records, r) := merge_zone_plan names zone glue glues in
    (forall rr, In rr records ->
                In rr zone /\ rr_type rr <> types.NSEC
                /\ rr_type rr <> types.RRSIG)
    /\ match r with
       | Ok (glue', glues') =>
           incl glue' glue0 /\ glue_records names glue0 glues'
       | Throw e =>
           e = TypeError
           /\ exists g, In g glue0 /\ OwnerMap.get names g = None
       end.
Proof.
  induction zone as [|rr zone IH]; intros glue glues Hg Hgl.
  - simpl. split; [intros rr []| auto].
  - cbn [merge_zone_plan].
    destruct ((rr_type rr =? types.NSEC) || (rr_type rr =? types.RRSIG))
      eqn:Hskip.
    + specialize (IH glue glues Hg Hgl).
      destruct (merge_zone_plan names zone glue glues) as [records r].
      destruct IH as [Hr Hres]. split; [|exact Hres].
      intros x Hx. destruct (Hr x Hx) as [Hin Ht]. split; [now right | exact Ht].
    + apply orb_false_iff in Hskip. destruct Hskip as [Hn Hs].
      apply Z.eqb_neq in Hn, Hs.
      assert (Hcons : forall glue1 glues1,
                incl glue1 glue0 -> glue_records names glue0 glues1 ->
                let '(records, r) :=
                  (let '(records, r) :=
                     merge_zone_plan names zone glue1 glues1 in
                   (rr :: records, r)) in
                (forall x, In x records ->
                           In x (rr :: zone) /\ rr_type x <> types.NSEC
                           /\ rr_type x <> types.RRSIG)
                /\ match r with
                   | Ok (glue', glues') =>
                       incl glue' glue0 /\ glue_records names glue0 glues'
                   | Throw e =>
                       e = TypeError
                       /\ exists g, In g glue0 /\ OwnerMap.get names g = None
                   end).
      { intros glue1 glues1 Hg1 Hgl1. specialize (IH glue1 glues1 Hg1 Hgl1).
        destruct (merge_zone_plan names zone glue1 glues1) as [records r].
        destruct IH as [Hr Hres]. split; [|exact Hres].
        intros x [<-|Hx]; [split; [now left | auto]|].
        destruct (Hr x Hx) as [Hin Ht]. split; [now right | exact Ht]. }
      destruct (if rr_type rr =? types.NS then data_ns (rr_data rr) else None)
        as [ns|]; [|now apply Hcons].
      destruct (NameSet.has glue ns) eqn:Hhas; [|now apply Hcons].
      apply has_In in Hhas.
      destruct (OwnerMap.get names ns) as [glueData|] eqn:Hget.
      * apply Hcons.
        -- intros n Hin. apply Hg. now apply incl_delete in Hin.
        -- intros l Hl. apply in_app_or in Hl. destruct Hl as [Hl|[<-|[]]].
           ++ now apply Hgl.
           ++ exists ns, glueData. split; [now apply Hg | auto].
      * split.
        -- intros x [<-|[]]. split; [now left | auto].
        -- split; [reflexivity|]. exists ns. split; [now apply Hg | exact Hget].
Qed.

(** A record the merge loop hands to the writer: a record of a chain name
    that is neither NSEC nor RRSIG, or a record of a glue name. *)
Lemma merge_plan_spec (names : OwnerMap.t) (chain0 glue0 : list string)
  (chain : list string) :
  forall (glue : NameSet.t),
    incl chain chain0 -> incl glue glue0 ->
    let '(records, r) := merge_plan names chain glue in
    (forall rr, In rr records ->
       (exists n o, In n chain0 /\ OwnerMap.get names n = Some o
                    /\ In rr (rrs o) /\ rr_type rr <> types.NSEC
                    /\ rr_type rr <> types.RRSIG)
       \/ (exists g o, In g glue0 /\ OwnerMap.get names g = Some o
                       /\ In rr (rrs o)))
    /\ match r with
       | Ok _ => True
       | Throw e =>
           e = TypeError
           /\ exists n, (In n chain0 \/ In n glue0)
                        /\ OwnerMap.get names n = None
       end.
Proof.
  induction chain as [|name chain IH]; intros glue Hc Hg.
  - simpl. split; [intros rr []| exact I].
  - cbn [merge_plan].
    destruct (OwnerMap.get names name) as [owner|] eqn:Hget.
    + assert (Hnil : glue_records names glue0 []) by (intros l []).
      pose proof (merge_zone_plan_spec names glue0 (rrs owner) glue [] Hg Hnil)
        as Hz.
      destruct (merge_zone_plan names (rrs owner) glue [])
        as [records [[glue1 glues]|e]].
      * destruct Hz as [Hr [Hg1 Hgl1]].
        assert (Hc' : incl chain chain0)
          by (intros n Hn; apply Hc; now right).
        specialize (IH glue1 Hc' Hg1).
        destruct (merge_plan names chain glue1) as [records2 r].
        destruct IH as [Hr2 Hres]. split; [|exact Hres].
        intros rr Hin. apply in_app_or in Hin. destruct Hin as [Hin|Hin].
        -- left. exists name, owner. destruct (Hr rr Hin) as [H1 [H2 H3]].
           repeat split; auto. apply Hc. now left.
        -- apply in_app_or in Hin. destruct Hin as [Hin|Hin];
             [|now apply Hr2].
           right. apply in_concat in Hin. destruct Hin as [l [Hl Hin]].
           destruct (Hgl1 l Hl) as [g [o [Hgin [Ho ->]]]]. exists g, o. auto.
      * destruct Hz as [Hr [-> [g [Hgin Hnone]]]]. split.
        -- intros rr Hin. left. exists name, owner.
           destruct (Hr rr Hin) as [H1 [H2 H3]].
           repeat split; auto. apply Hc. now left.
        -- split; [reflexivity|]. exists g. auto.
    + split; [intros rr []|]. split; [reflexivity|].
      exists name. split; [left; apply Hc; now left | exact Hget].
Qed.

Section TransferFurther.

Variable RR_getSize : RR -> Z.
Variable Question_getSize : Question -> Z.
Variable wire : Message -> list byte.
Variable write : list Message -> list byte -> bool.
Variable toZone : list byte -> string -> list RR.
Variable soa : RR.
Variable decode : list byte -> option Message.
Variable network : nat -> Server -> Transport.
Variable KeyMap : Type.
Variable verifyMessage : Message -> KeyMap -> bool.

Local Abbreviation getSize := (Message_getSize RR_getSize Question_getSize).
Local Abbreviation flush' := (flush RR_getSize Question_getSize wire write).
Local Abbreviation writeRR' := (writeRR RR_getSize Question_getSize wire write).
Local Abbreviation writeAll' := (writeAll RR_getSize Question_getSize wire write).
Local Abbreviation sendAXFR' :=
  (sendAXFR RR_getSize Question_getSize wire write toZone soa).
Local Abbreviation loadMergeZone' :=
  (loadMergeZone decode network KeyMap verifyMessage).
Local Abbreviation size_inv' := (size_inv RR_getSize Question_getSize).
Local Abbreviation base_size' := (base_size RR_getSize Question_getSize).

(** What [loadMergeZone] returns is closed, and its glue names hold address
    records only. *)
Lemma loadMergeZone_closed (p : Plugin) (c : AXFRClient) (keyMap : KeyMap)
  (db : MergeDB) :
  loadMergeZone' p c keyMap = Some (Ok db) ->
  closed db
  /\ forall n o, In n (glue db) -> OwnerMap.get (names db) n = Some o ->
                 address_only o.
Proof.
  unfold loadMergeZone. destruct (disableMerge p).
  - intros [= <-]. split; [split|]; intros n; simpl; intros; contradiction.
  - destruct (query decode network c) as [[[c' log] [[data|]|e]]|];
      try discriminate.
    intros H. apply verifyZone_closed in H. tauto.
Qed.

(** The plan of a transfer over closed merge data does not fail, and its
    records are the SOA, then local records that are no RRSIG, then external
    records that are neither NSEC nor RRSIG or belong to a glue name. *)
Lemma transfer_plan_spec (p : Plugin) (tree : list NameState) (db : MergeDB) :
  closed db ->
  exists local merged glue' log,
    transfer_plan toZone soa p tree db
    = (soa :: local ++ merged, Ok glue', log)
    /\ (forall rr, In rr local ->
                   rr_type rr <> types.RRSIG /\ local_record toZone tree rr)
    /\ (forall rr, In rr merged ->
          (exists n o, In n (nsecChain db) /\ OwnerMap.get (names db) n = Some o
                       /\ In rr (rrs o) /\ rr_type rr <> types.NSEC
                       /\ rr_type rr <> types.RRSIG)
          \/ (exists g o, In g (glue db) /\ OwnerMap.get (names db) g = Some o
                          /\ In rr (rrs o))).
Proof.
  intros [Hchain Hglue]. unfold transfer_plan.
  set (db0 := {| glue := glue db; names := names db;
                 nsecChain := NameSet.delete (nsecChain db) "." |}).
  pose proof (local_plan_spec toZone p tree db0 []) as Hl.
  destruct (local_plan toZone p tree db0 []) as [[local db1] log].
  destruct Hl as [Hn [Hg [Hc Hr]]]. cbn [names glue nsecChain db0] in Hn, Hg, Hc.
  assert (Hc0 : incl (nsecChain db1) (nsecChain db)).
  { intros n Hin. apply Hc in Hin. now apply incl_delete in Hin. }
  pose proof (merge_plan_spec (names db1) (nsecChain db) (glue db)
                (nsecChain db1) (glue db1) Hc0) as Hm.
  rewrite Hg in Hm. specialize (Hm (incl_refl _)).
  rewrite Hn in Hm.
  rewrite Hn, Hg.
  destruct (merge_plan (names db) (nsecChain db1) (glue db)) as [merged r].
  destruct Hm as [Hrec Hres].
  destruct r as [glue'|e].
  - exists local, merged, glue', log. auto.
  - exfalso. destruct Hres as [_ [n [[Hin|Hin] Hnone]]].
    + destruct (Hchain n Hin) as [o Ho]. congruence.
    + destruct (Hglue n Hin) as [o Ho]. congruence.
Qed.

Lemma refused_or_allowed (p : Plugin) (req : Message) (rinfo : RInfo)
  (loaded : result MergeDB) (tree : list NameState) (sent : list Message) :
  sendAXFR' p req rinfo loaded tree sent = (sent, Ok (mkSent refuse []))
  \/ (ri_tcp rinfo = true /\ In (ri_address rinfo) (ipList p)).
Proof.
  unfold sendAXFR. destruct (ri_tcp rinfo); [|now left]. cbn [negb].
  destruct (existsb (String.eqb (ri_address rinfo)) (ipList p)) eqn:Hip;
    [|now left].
  right. split; [reflexivity | now apply allowed_In].
Qed.

Lemma sendAXFR_writer_errors (p : Plugin) (c : AXFRClient)
  (keyMap : KeyMap) (db : MergeDB) (req : Message) (rinfo : RInfo)
  (tree : list NameState) (sent : list Message) :
  loadMergeZone' p c keyMap = Some (Ok db) ->
  let '(sent', r) := sendAXFR' p req rinfo (Ok db) tree sent in
  write_log wire write sent sent' r
  /\ forall e, r = Throw e -> writer_error e.
Proof.
  intros Hload. apply loadMergeZone_closed in Hload. destruct Hload as [Hcl _].
  destruct (refused_or_allowed p req rinfo (Ok db) tree sent)
    as [Href|[Htcp Hip]].
  - rewrite Href. split; [apply write_log_refl | discriminate].
  - rewrite (sendAXFR_plan _ _ _ _ _ _ _ _ _ _ _ _ Htcp Hip).
    destruct (transfer_plan_spec p tree db Hcl)
      as [local [merged [glue' [log [-> _]]]]].
    unfold sbind.
    destruct (writeAll_log RR_getSize Question_getSize wire write
                (soa :: local ++ merged)
                (new_MessageWriter RR_getSize Question_getSize req) sent)
      as [Hl He].
    destruct (writeAll' _ (soa :: local ++ merged) sent) as [s1 [w1|e]];
      cbn [fst snd] in Hl, He;
      [|split; [eapply write_log_Throw; exact Hl
               |intros e0 [= <-]; exact (He e eq_refl)]].
    destruct (flush_log RR_getSize Question_getSize wire write w1 s1)
      as [Hl2 He2].
    destruct (flush' w1 s1) as [s2 [w2|e]]; cbn [fst snd] in Hl2, He2.
    + unfold sret. split; [|discriminate].
      eapply write_log_trans; [exact Hl|].
      eapply write_log_Ok. exact Hl2.
    + split; [|intros e0 [= <-]; exact (He2 e eq_refl)].
      eapply write_log_trans; [exact Hl|].
      eapply write_log_Throw. exact Hl2.
Qed.

(** X10. A transfer over the merge data of [loadMergeZone] fails in the
    writer and nowhere else, the resources of the name tree being taken to
    decode: the merge loop finds an entry for every name it looks up, so
    whatever [sendAXFR] throws is ['unable to write message'], thrown
    exactly when the callback has refused the last message it was handed,
    all earlier messages having been accepted, or the size error of
    [msg.compress()], thrown with every message handed over accepted. *)
Theorem sendAXFR_fails_only_in_the_writer (p : Plugin) (c : AXFRClient)
  (keyMap : KeyMap) (db : MergeDB) (req : Message) (rinfo : RInfo)
  (tree : list NameState) (sent : list Message) :
  loadMergeZone' p c keyMap = Some (Ok db) ->
  let '(sent', r) := sendAXFR' p req rinfo (Ok db) tree sent in
  write_log wire write sent sent' r
  /\ forall e, r = Throw e ->
                e = UnableToWrite \/ e = MessageExceedsSizeLimits.
Proof. apply sendAXFR_writer_errors. Qed.

Lemma sendAXFR_run (p : Plugin) (req : Message) (rinfo : RInfo)
  (db : MergeDB) (tree : list NameState) (sent sent' : list Message)
  (out : Sent) :
  ri_tcp rinfo = true ->
  In (ri_address rinfo) (ipList p) ->
  sendAXFR' p req rinfo (Ok db) tree sent = (sent', Ok out) ->
  exists rest glue' log s1 w1 w2,
    transfer_plan toZone soa p tree db = (soa :: rest, Ok glue', log)
    /\ writeAll' (new_MessageWriter RR_getSize Question_getSize req)
                 (soa :: rest) sent = (s1, Ok w1)
    /\ flush' w1 s1 = (sent', Ok w2)
    /\ out = mkSent (set_answer (setReply new_Message req) [soa]) log.
Proof.
  intros Htcp Hip. rewrite (sendAXFR_plan _ _ _ _ _ _ _ _ _ _ _ _ Htcp Hip).
  assert (Hhd : exists rest, fst (fst (transfer_plan toZone soa p tree db))
                             = soa :: rest).
  { unfold transfer_plan.
    destruct (local_plan toZone p tree _ []) as [[local db1] log].
    destruct (merge_plan (names db1) (nsecChain db1) (glue db1)) as [merged r].
    simpl. eauto. }
  destruct (transfer_plan toZone soa p tree db) as [[records r] log].
  destruct Hhd as [rest Hrest]. cbn [fst] in Hrest. subst records.
  unfold sbind.
  destruct (writeAll' _ (soa :: rest) sent) as [s1 [w1|e]] eqn:Hw;
    [|discriminate].
  destruct r as [glue'|e]; [|discriminate].
  destruct (flush' w1 s1) as [s2 [w2|e]] eqn:Hf; [|discriminate].
  unfold sret. intros [= <- <-].
  exists rest, glue', log, s1, w1, w2. auto.
Qed.

Lemma tl_prefix {A : Type} (a b l : list A) (x y : A) :
  a ++ b = x :: l -> In y (tl a) -> In y l.
Proof.
  destruct a as [|z a]; [intros _ []|].
  simpl. intros [= _ <-] H. apply in_or_app. now left.
Qed.

(** X11. A transfer that runs to its end sends no signatures and no
    external denial records: of the records [sendAXFR] writes over the merge
    data of [loadMergeZone], none after the leading SOA is an RRSIG, and an
    NSEC among them is a record of the local store. *)
Theorem sendAXFR_never_sends_signatures (p : Plugin) (c : AXFRClient)
  (keyMap : KeyMap) (db : MergeDB) (req : Message) (rinfo : RInfo)
  (tree : list NameState) (sent : list Message) (out : Sent) :
  loadMergeZone' p c keyMap = Some (Ok db) ->
  sendAXFR' p req rinfo (Ok db) tree [] = (sent, Ok out) ->
  forall rr, In rr (tl (flat_map answer sent)) ->
             rr_type rr <> types.RRSIG
             /\ (rr_type rr = types.NSEC -> local_record toZone tree rr).
Proof.
  intros Hload Hrun rr Hin.
  apply loadMergeZone_closed in Hload. destruct Hload as [Hcl Haddr].
  destruct (refused_or_allowed p req rinfo (Ok db) tree [])
    as [Href|[Htcp Hip]].
  { rewrite Href in Hrun. injection Hrun as <- _. destruct Hin. }
  destruct (sendAXFR_run _ _ _ _ _ _ _ _ Htcp Hip Hrun)
    as [rest [glue' [log [s1 [w1 [w2 [Hplan [Hw [Hf _]]]]]]]]].
  destruct (transfer_plan_spec p tree db Hcl)
    as [local [merged [glue2 [log2 [Hplan2 [Hloc Hmer]]]]]].
  rewrite Hplan in Hplan2. injection Hplan2 as -> _ _.
  apply writeAll_emitted in Hw. destruct Hw as [He _].
  apply flush_emitted in Hf. rewrite He in Hf.
  unfold emitted at 2 in Hf. cbn [flat_map app] in Hf.
  change (answer (w_msg (new_MessageWriter RR_getSize Question_getSize req)))
    with (@nil RR) in Hf. cbn [app] in Hf.
  unfold emitted in Hf.
  pose proof (tl_prefix _ _ _ _ rr Hf Hin) as Hrr.
  apply in_app_or in Hrr. destruct Hrr as [Hrr|Hrr].
  - destruct (Hloc rr Hrr) as [Ht Hl]. auto.
  - destruct (Hmer rr Hrr) as [[n [o [_ [_ [_ [Hn Hs]]]]]]|[g [o [Hg [Ho Hr]]]]].
    + split; [exact Hs | intros H; contradiction].
    + destruct (Haddr g o Hg Ho rr Hr) as [Ht|Ht]; rewrite Ht;
        split; discriminate.
Qed.

Lemma writeAll_size_inv (rrs : list RR) (w w' : MessageWriter)
  (sent sent' : list Message) :
  writeAll' w rrs sent = (sent', Ok w') -> size_inv' w -> size_inv' w'.
Proof. intros H. apply writeAll_appends in H. exact (proj2 H). Qed.

Lemma writeRR_nonempty (w : MessageWriter) (rr : RR) (sent : list Message) :
  answer (w_msg w) <> [] ->
  Forall (fun m => answer m <> []) sent ->
  Forall (fun m => answer m <> []) (fst (writeRR' w rr sent))
  /\ forall w', snd (writeRR' w rr sent) = Ok w' -> answer (w_msg w') <> [].
Proof.
  intros Hbuf Hsent.
  assert (Hpush : forall l, l ++ [rr] <> []) by (intros [|? ?]; discriminate).
  unfold writeRR, sbind.
  set (w1 := {| w_req := w_req w; w_msg := w_msg w; w_size := w_size w;
                w_written := w_written w + 1 |}).
  destruct (RR_getSize rr + w_size w1 >? MAX_MESSAGE_SIZE).
  - unfold flush. destruct (w_size w1 =? 0).
    + simpl. split; [exact Hsent|]. intros w' [= <-]. apply Hpush.
    + assert (Hs : Forall (fun m => answer m <> []) (sent ++ [w_msg w1])).
      { apply Forall_app. split; [exact Hsent|]. now constructor. }
      destruct (Message_compress wire (w_msg w1)) as [data|e0];
        [|simpl; split; [exact Hsent | discriminate]].
      destruct (write sent data); simpl.
      * split; [exact Hs|]. intros w' [= <-]. discriminate.
      * split; [exact Hs | discriminate].
  - simpl. split; [exact Hsent|]. intros w' [= <-]. apply Hpush.
Qed.

Lemma writeAll_nonempty (rrs : list RR) :
  forall (w : MessageWriter) (sent : list Message),
    answer (w_msg w) <> [] ->
    Forall (fun m => answer m <> []) sent ->
    Forall (fun m => answer m <> []) (fst (writeAll' w rrs sent))
    /\ forall w', snd (writeAll' w rrs sent) = Ok w' ->
                  answer (w_msg w') <> [].
Proof.
  induction rrs as [|rr rrs IH]; intros w sent Hbuf Hsent.
  - simpl. split; [exact Hsent|]. now intros w' [= <-].
  - cbn [writeAll]. unfold sbind.
    destruct (writeRR_nonempty w rr sent Hbuf Hsent) as [Hs Hw].
    destruct (writeRR' w rr sent) as [s1 [w1|e]]; cbn [fst snd] in Hs, Hw.
    + apply IH; [now apply Hw | exact Hs].
    + simpl. split; [exact Hs | discriminate].
Qed.

Hypothesis RR_getSize_nonneg : forall rr, 0 <= RR_getSize rr.
Hypothesis Question_getSize_nonneg : forall qs, 0 <= Question_getSize qs.

Lemma flush_final (w w' : MessageWriter) (sent sent' : list Message) :
  size_inv' w -> flush' w sent = (sent', Ok w') -> sent' = sent ++ [w_msg w].
Proof.
  intros Hinv Hf. apply flush_Ok in Hf.
  destruct Hf as [[Hz _]|[_ [_ [-> _]]]]; [|reflexivity].
  pose proof (getSize_header RR_getSize Question_getSize
                RR_getSize_nonneg Question_getSize_nonneg (w_msg w)) as Hh.
  unfold size_inv in Hinv. lia.
Qed.

Lemma sendAXFR_sent (p : Plugin) (req : Message) (rinfo : RInfo)
  (db : MergeDB) (tree : list NameState) (sent : list Message) (out : Sent) :
  ri_tcp rinfo = true ->
  In (ri_address rinfo) (ipList p) ->
  sendAXFR' p req rinfo (Ok db) tree [] = (sent, Ok out) ->
  exists rest glue' log,
    transfer_plan toZone soa p tree db = (soa :: rest, Ok glue', log)
    /\ flat_map answer sent = soa :: rest
    /\ out = mkSent (set_answer (setReply new_Message req) [soa]) log.
Proof.
  intros Htcp Hip Hrun.
  destruct (sendAXFR_run _ _ _ _ _ _ _ _ Htcp Hip Hrun)
    as [rest [glue' [log [s1 [w1 [w2 [Hplan [Hw [Hf Hout]]]]]]]]].
  exists rest, glue', log. split; [exact Hplan|]. split; [|exact Hout].
  assert (Hinv : size_inv' w1).
  { apply (writeAll_size_inv _ _ _ _ _ Hw). reflexivity. }
  apply writeAll_emitted in Hw. destruct Hw as [He _].
  apply (flush_final _ _ _ _ Hinv) in Hf. subst sent.
  rewrite flat_map_app. cbn [flat_map]. rewrite app_nil_r.
  exact He.
Qed.

(** X12. The stream of a transfer that succeeds: the messages written carry
    exactly the records of the plan, in order, and none stays in the buffer;
    when the SOA fits into an empty reply, no message written is empty and
    the first one starts with the SOA; the message returned carries the SOA
    alone. *)
Theorem sendAXFR_stream (p : Plugin) (req : Message) (rinfo : RInfo)
  (db : MergeDB) (tree : list NameState) (sent : list Message) (out : Sent) :
  ri_tcp rinfo = true ->
  In (ri_address rinfo) (ipList p) ->
  base_size' req + RR_getSize soa <= MAX_MESSAGE_SIZE ->
  sendAXFR' p req rinfo (Ok db) tree [] = (sent, Ok out) ->
  flat_map answer sent = fst (fst (transfer_plan toZone soa p tree db))
  /\ (exists first rest records,
        sent = first :: rest /\ answer first = soa :: records)
  /\ (forall m, In m sent -> answer m <> [])
  /\ answer (response out) = [soa]
  /\ collisions out = snd (transfer_plan toZone soa p tree db).
Proof.
  intros Htcp Hip Hfit Hrun.
  destruct (sendAXFR_sent _ _ _ _ _ _ _ Htcp Hip Hrun)
    as [rest [glue' [log [Hplan [Hflat ->]]]]].
  rewrite Hplan. cbn [fst snd response collisions set_answer answer].
  assert (Hne : Forall (fun m => answer m <> []) sent).
  { destruct (sendAXFR_run _ _ _ _ _ _ _ _ Htcp Hip Hrun)
      as [rest' [glue2 [log2 [s1 [w1 [w2 [Hplan2 [Hw [Hf _]]]]]]]]].
    rewrite Hplan in Hplan2. injection Hplan2 as <- _ _.
    assert (Hinv : size_inv' w1).
    { apply (writeAll_size_inv _ _ _ _ _ Hw). reflexivity. }
    apply (flush_final _ _ _ _ Hinv) in Hf. subst sent.
    revert Hw. cbn [writeAll]. unfold sbind.
    set (w0 := new_MessageWriter RR_getSize Question_getSize req).
    assert (Hfirst : writeRR' w0 soa []
                     = ([], Ok {| w_req := req;
                                  w_msg := set_answer (w_msg w0) [soa];
                                  w_size := w_size w0 + RR_getSize soa;
                                  w_written := 1 |})).
    { assert (Hsz : w_size w0 = base_size' req) by reflexivity.
      unfold writeRR, sbind. cbn [w_size]. rewrite Hsz.
      rewrite Zgtb_false by lia. reflexivity. }
    rewrite Hfirst. intros Hw.
    match type of Hw with
    | writeAll _ _ _ _ ?w _ _ = _ =>
        assert (Hbuf : answer (w_msg w) <> []) by (cbn; discriminate);
        pose proof (writeAll_nonempty rest w [] Hbuf (Forall_nil _)) as Hn
    end.
    rewrite Hw in Hn. cbn [fst snd] in Hn. destruct Hn as [Hs Hb].
    apply Forall_app. split; [exact Hs|]. constructor; [|constructor].
    now apply Hb. }
  split; [exact Hflat|]. split; [|split; [|split; reflexivity]].
  - destruct sent as [|first tl]; [discriminate Hflat|].
    inversion Hne as [|? ? Hfirst _]; subst.
    destruct (answer first) as [|x records] eqn:Ha; [contradiction|].
    cbn [flat_map] in Hflat. rewrite Ha in Hflat.
    injection Hflat as -> _. eauto.
  - now apply Forall_forall.
Qed.

Lemma local_plan_no_chain (p : Plugin) (tree : list NameState) :
  forall (db : MergeDB) (log : list Collision),
    nsecChain db = [] ->
    local_plan toZone p tree db log = (local_dump toZone tree, db, log).
Proof.
  induction tree as [|ns tree IH]; intros db log Hc; [reflexivity|].
  cbn [local_plan local_dump flat_map]. fold (local_dump toZone tree).
  destruct (len (ns_data ns) <=? 0); [now apply IH|].
  unfold pickRRs. rewrite Hc. cbn [NameSet.has existsb negb].
  rewrite app_nil_r, (IH db log Hc). reflexivity.
Qed.

Lemma sendAXFR_no_merge (p : Plugin) (c : AXFRClient) (keyMap : KeyMap)
  (db : MergeDB) (req : Message) (rinfo : RInfo) (tree : list NameState)
  (sent : list Message) (out : Sent) :
  disableMerge p = true ->
  ri_tcp rinfo = true ->
  In (ri_address rinfo) (ipList p) ->
  loadMergeZone' p c keyMap = Some (Ok db) ->
  sendAXFR' p req rinfo (Ok db) tree [] = (sent, Ok out) ->
  flat_map answer sent = soa :: local_dump toZone tree
  /\ collisions out = []
  /\ response out = set_answer (setReply new_Message req) [soa].
Proof.
  intros Hno Htcp Hip Hload Hrun.
  unfold loadMergeZone in Hload. rewrite Hno in Hload.
  injection Hload as <-.
  destruct (sendAXFR_sent _ _ _ _ _ _ _ Htcp Hip Hrun)
    as [rest [glue' [log [Hplan [Hflat ->]]]]].
  unfold transfer_plan in Hplan. cbn [glue names nsecChain NameSet.delete filter]
    in Hplan.
  rewrite local_plan_no_chain in Hplan by reflexivity.
  cbn [merge_plan nsecChain names glue] in Hplan.
  injection Hplan as <- _ <-. rewrite app_nil_r in Hflat.
  repeat split. exact Hflat.
Qed.

(** X13. With merging disabled a transfer is the local zone: what
    [loadMergeZone] returns makes [sendAXFR] write the SOA and then, for
    every entry of the name tree that has data, in order, its zone records
    without the RRSIG records; nothing else is written and no collision is
    logged. *)
Theorem sendAXFR_without_merge (p : Plugin) (c : AXFRClient) (keyMap : KeyMap)
  (db : MergeDB) (req : Message) (rinfo : RInfo) (tree : list NameState)
  (sent : list Message) (out : Sent) :
  disableMerge p = true ->
  ri_tcp rinfo = true ->
  In (ri_address rinfo) (ipList p) ->
  loadMergeZone' p c keyMap = Some (Ok db) ->
  sendAXFR' p req rinfo (Ok db) tree [] = (sent, Ok out) ->
  flat_map answer sent = soa :: local_dump toZone tree
  /\ collisions out = []
  /\ response out = set_answer (setReply new_Message req) [soa].
Proof.
  intros Hno Htcp Hip Hload Hrun.
  exact (sendAXFR_no_merge p c keyMap db req rinfo tree sent out
           Hno Htcp Hip Hload Hrun).
Qed.

(** X14. The middleware serves a transfer to allowed peers only: when a
    call of it writes a message or returns one that carries records, the
    first question of the request asks for an AXFR of the root, the request
    came over TCP, and its address is on the list of allowed addresses. *)
Theorem middle_serves_allowed_peers_only (p : Plugin) (req : Message)
  (rinfo : RInfo) (loaded : result MergeDB) (tree : list NameState)
  (sent sent' : list Message) (r : result (option Sent)) :
  middle RR_getSize Question_getSize wire write toZone soa
         p req rinfo loaded tree sent = (sent', r) ->
  sent' <> sent
  \/ (exists out, r = Ok (Some out) /\ answer (response out) <> []) ->
  exists qs rest,
    question req = qs :: rest
    /\ qs_name qs = "."%string /\ qs_type qs = types.AXFR
    /\ ri_tcp rinfo = true /\ In (ri_address rinfo) (ipList p).
Proof.
  unfold middle. destruct (question req) as [|qs rest].
  { unfold sthrow. intros [= <- <-] [H|[out [H _]]];
      [now contradiction H | discriminate H]. }
  destruct (String.eqb (qs_name qs) "." && (qs_type qs =? types.AXFR)) eqn:Hq.
  - apply andb_true_iff in Hq. destruct Hq as [Hn Ht].
    apply String.eqb_eq in Hn. apply Z.eqb_eq in Ht.
    destruct (refused_or_allowed p req rinfo loaded tree sent)
      as [Href|[Htcp Hip]].
    + unfold sbind. rewrite Href. unfold sret.
      intros [= <- <-] [H|[out [H Ha]]]; [now contradiction H|].
      injection H as <-. now contradiction Ha.
    + intros _ _. exists qs, rest. auto.
  - unfold sret. intros [= <- <-] [H|[out [H _]]];
      [now contradiction H | discriminate H].
Qed.

End TransferFurther.

(** ** The client: the round of the servers *)

Section ClientFurther.

Variable decode : list byte -> option Message.
Variable network : nat -> Server -> Transport.

Local Abbreviation attempts' := (attempts decode network).
Local Abbreviation attempt' := (attempt decode network).

Lemma with_index_same (c : AXFRClient) : with_index c (index c) = c.
Proof. destruct c. reflexivity. Qed.

Lemma index_with_index (c : AXFRClient) (z : Z) : index (with_index c z) = z.
Proof. reflexivity. Qed.

Lemma server_at_nth_error (l : list Server) (start : Z) (j : nat) :
  l <> [] ->
  nth_error l (Z.to_nat ((start + Z.of_nat j) mod len l))
  = Some (server_at l start j).
Proof.
  intros Hl. unfold server_at. apply nth_error_nth'.
  assert (0 < len l).
  { unfold len. destruct l; [contradiction | simpl; lia]. }
  pose proof (Z.mod_pos_bound (start + Z.of_nat j) (len l) H).
  unfold len in *. lia.
Qed.

Lemma nextServer_round (c : AXFRClient) (l : list Server) :
  servers c = Some l -> l <> [] -> 0 <= index c < len l ->
  nextServer c
  = Ok (with_index c ((index c + 1) mod len l),
        Some (server_at l (index c) 1)).
Proof.
  intros Hs Hl Hi. unfold nextServer, getServer, with_index. rewrite Hs.
  cbn [servers bind index]. rewrite Z.rem_mod_nonneg by lia.
  pose proof (Z.mod_pos_bound (index c + 1) (len l) ltac:(lia)) as Hb.
  destruct ((index c + 1) mod len l <? 0) eqn:Hneg;
    [apply Z.ltb_lt in Hneg; lia|].
  pose proof (server_at_nth_error l (index c) 1 Hl) as Hn.
  change (Z.of_nat 1) with 1 in Hn. rewrite Hn. reflexivity.
Qed.

Lemma server_at_shift (l : list Server) (start : Z) (j : nat) :
  l <> [] ->
  server_at l ((start + 1) mod len l) j = server_at l start (S j).
Proof.
  intros Hl. unfold server_at. f_equal. f_equal.
  rewrite Z.add_mod_idemp_l.
  - f_equal. lia.
  - unfold len. destruct l; [contradiction | simpl; lia].
Qed.

Lemma server_at_0 (l : list Server) (start : Z) :
  0 <= start < len l ->
  Some (server_at l start 0) = nth_error l (Z.to_nat start).
Proof.
  intros Hi. unfold server_at. rewrite Z.add_0_r, Z.mod_small by lia.
  symmetry. apply nth_error_nth'. unfold len in *. lia.
Qed.

Lemma attempts_fail (l : list Server) (err : nat -> Error) (k : nat) :
  l <> [] ->
  forall (n i : nat) (c : AXFRClient) (log : list Warning),
    servers c = Some l -> 0 <= index c < len l ->
    (forall j, (j < k)%nat ->
               attempt' c (i + j) (server_at l (index c) j)
               = Some (Throw (err (i + j)%nat))) ->
    attempts' (k + n) i c (Some (server_at l (index c) 0)) log
    = attempts' n (i + k) (with_index c ((index c + Z.of_nat k) mod len l))
                (Some (server_at l (index c) k))
                (log ++ map (fun j => let s := server_at l (index c) j in
                                      mkWarning (host s) (port s)
                                                (err (i + j)%nat))
                            (seq 0 k)).
Proof.
  intros Hl. induction k as [|k IH]; intros n i c log Hs Hi Hfail.
  - cbn [Nat.add seq map]. rewrite app_nil_r, Nat.add_0_r, Z.add_0_r.
    rewrite Z.mod_small by lia. now rewrite with_index_same.
  - cbn [Nat.add attempts].
    pose proof (Hfail 0%nat ltac:(lia)) as H0. rewrite Nat.add_0_r in H0.
    unfold attempt in H0. cbv zeta in H0. rewrite H0.
    rewrite (nextServer_round c l Hs Hl Hi).
    assert (Hlen : 0 < len l).
    { unfold len. destruct l; [contradiction | simpl; lia]. }
    pose proof (Z.mod_pos_bound (index c + 1) (len l) Hlen) as Hb.
    rewrite <- (server_at_shift l (index c) 0 Hl).
    pose proof (IH n (S i) (with_index c ((index c + 1) mod len l))
                  (log ++ [mkWarning (host (server_at l (index c) 0))
                                     (port (server_at l (index c) 0))
                                     (err i)]) Hs Hb) as IH'.
    rewrite !index_with_index in IH'. rewrite IH'.
    + rewrite (server_at_shift l (index c) k Hl).
      rewrite Z.add_mod_idemp_l by lia.
      replace (index c + 1 + Z.of_nat k) with (index c + Z.of_nat (S k))
        by lia.
      replace (S i + k)%nat with (i + S k)%nat by lia.
      f_equal.
      * rewrite <- app_assoc. f_equal. cbn [seq map app].
        rewrite Nat.add_0_r. f_equal.
        rewrite <- seq_shift, map_map. apply map_ext. intros j.
        rewrite (server_at_shift l (index c) j Hl).
        replace (S i + j)%nat with (i + S j)%nat by lia. reflexivity.
    + intros j Hj. rewrite (server_at_shift l (index c) j Hl).
      replace (S i + j)%nat with (i + S j)%nat by lia.
      specialize (Hfail (S j) ltac:(lia)). exact Hfail.
Qed.

Lemma query_round (c : AXFRClient) (l : list Server) (err : nat -> Error)
  (k n : nat) :
  servers c = Some l -> l <> [] -> 0 <= index c < len l ->
  Z.to_nat (maxAttempts c) = (k + n)%nat ->
  (forall j, (j < k)%nat ->
             attempt' c j (server_at l (index c) j) = Some (Throw (err j))) ->
  query decode network c
  = attempts' n k (with_index c ((index c + Z.of_nat k) mod len l))
              (Some (server_at l (index c) k))
              (failure_log l (index c) err k).
Proof.
  intros Hs Hl Hi Hn Hfail. unfold query, getServer. rewrite Hs.
  destruct (index c <? 0) eqn:Hneg; [apply Z.ltb_lt in Hneg; lia|].
  rewrite Hn, <- (server_at_0 l (index c) Hi).
  rewrite (attempts_fail l err k Hl n 0 c [] Hs Hi Hfail).
  reflexivity.
Qed.

(** X15. When every attempt fails the query gives up after [maxAttempts]
    attempts: it returns [null], has logged one warning per attempt, the
    servers having been tried in turn from the cursor on, the first after
    the last, and [loadMergeZone] then fails with ['no zone data']. *)
Theorem query_gives_up_after_maxAttempts (c : AXFRClient) (l : list Server)
  (err : nat -> Error) :
  servers c = Some l -> l <> [] -> 0 <= index c < len l ->
  (forall j, (j < Z.to_nat (maxAttempts c))%nat ->
             attempt' c j (server_at l (index c) j) = Some (Throw (err j))) ->
  query decode network c
  = Some (with_index c ((index c + Z.of_nat (Z.to_nat (maxAttempts c)))
                        mod len l),
          failure_log l (index c) err (Z.to_nat (maxAttempts c)),
          Ok None)
  /\ forall (KeyMap : Type) (verifyMessage : Message -> KeyMap -> bool)
            (p : Plugin) (keyMap : KeyMap),
       disableMerge p = false ->
       loadMergeZone decode network KeyMap verifyMessage p c keyMap
       = Some (Throw NoZoneData).
Proof.
  intros Hs Hl Hi Hfail.
  assert (Hq : query decode network c
               = Some (with_index c
                         ((index c + Z.of_nat (Z.to_nat (maxAttempts c)))
                          mod len l),
                       failure_log l (index c) err (Z.to_nat (maxAttempts c)),
                       Ok None)).
  { rewrite (query_round c l err (Z.to_nat (maxAttempts c)) 0 Hs Hl Hi
               ltac:(lia) Hfail).
    reflexivity. }
  split; [exact Hq|].
  intros KeyMap verifyMessage p keyMap Hno. unfold loadMergeZone.
  rewrite Hno, Hq. reflexivity.
Qed.

(** X16. The query returns the first transfer that succeeds: when the
    attempts before attempt [k] fail and attempt [k] succeeds, [k] being
    below [maxAttempts], the query returns the messages of attempt [k], has
    logged the [k] failures in order, and leaves the cursor on the server
    that answered, so that the next query starts there. *)
Theorem query_returns_first_success (c : AXFRClient) (l : list Server)
  (err : nat -> Error) (k : nat) (data : list Message) :
  servers c = Some l -> l <> [] -> 0 <= index c < len l ->
  (k < Z.to_nat (maxAttempts c))%nat ->
  (forall j, (j < k)%nat ->
             attempt' c j (server_at l (index c) j) = Some (Throw (err j))) ->
  attempt' c k (server_at l (index c) k) = Some (Ok data) ->
  query decode network c
  = Some (with_index c ((index c + Z.of_nat k) mod len l),
          failure_log l (index c) err k,
          Ok (Some data))
  /\ server_at l (index (with_index c ((index c + Z.of_nat k) mod len l))) 0
     = server_at l (index c) k.
Proof.
  intros Hs Hl Hi Hk Hfail Hok. split.
  - rewrite (query_round c l err k (Z.to_nat (maxAttempts c) - k) Hs Hl Hi
               ltac:(lia) Hfail).
    destruct (Z.to_nat (maxAttempts c) - k)%nat as [|n] eqn:Hn; [lia|].
    cbn [attempts]. unfold attempt in Hok. cbv zeta in Hok.
    cbn [client_maxMessages with_index]. rewrite Hok. reflexivity.
  - cbn [index with_index]. unfold server_at. f_equal. f_equal.
    rewrite Z.add_0_r. apply Z.mod_mod.
    unfold len. destruct l; [contradiction | simpl; lia].
Qed.

(** X17. A client without servers fails with a TypeError instead of
    returning [null]: when the options name no server list the first read of
    [this.servers[this.index]] throws, and when they name an empty list the
    first attempt reads [server.port] of [undefined]; no warning is logged. *)
Theorem query_without_servers (fromHost : string -> Z -> Server)
  (options : ClientOptions) :
  opt_servers options = None
  \/ (opt_servers options = Some []
      /\ 0 < maxAttempts (new_AXFRClient fromHost options)) ->
  query decode network (new_AXFRClient fromHost options)
  = Some (new_AXFRClient fromHost options, [], Throw TypeError).
Proof.
  intros [Hs|[Hs Hm]]; unfold query, getServer.
  - cbn [servers new_AXFRClient]. rewrite Hs. reflexivity.
  - cbn [servers index new_AXFRClient]. rewrite Hs. cbn [map].
    change (0 <? 0) with false. cbn [Z.to_nat nth_error].
    destruct (Z.to_nat (maxAttempts (new_AXFRClient fromHost options)))
      eqn:Hn; [lia|].
    reflexivity.
Qed.

End ClientFurther.

(** ** The query: the stream that is accepted *)

Section StreamFurther.

Variable decode : list byte -> option Message.

Lemma complete_Ok (q : AXFRQuery) (frame : list byte) (msgs1 : list Message)
  (done : bool) :
  complete decode q frame = Ok (msgs1, done) ->
  exists msg,
    decode frame = Some msg
    /\ msg_id msg = id q /\ answer msg <> []
    /\ (msgs q = [] -> first_type (answer msg) = types.SOA)
    /\ len (msgs q) + 1 <= maxMessages q
    /\ msgs1 = msgs q ++ [msg]
    /\ done = (last_type (answer msg) =? types.SOA).
Proof.
  unfold complete. destruct (decode frame) as [msg|]; [|discriminate].
  unfold assert.
  destruct (msg_id msg =? id q) eqn:Hid; [|discriminate].
  destruct (len (answer msg) =? 0) eqn:Ha; [discriminate|].
  cbn [negb bind].
  assert (Hfirst : (if len (msgs q) =? 0
                    then if first_type (answer msg) =? types.SOA
                         then Ok tt else Throw FirstNotSOA
                    else Ok tt) = Ok tt ->
                   msgs q = [] -> first_type (answer msg) = types.SOA).
  { intros H Hnil. rewrite Hnil in H. cbn in H.
    destruct (first_type (answer msg) =? types.SOA) eqn:Hf; [|discriminate].
    now apply Z.eqb_eq in Hf. }
  destruct (if len (msgs q) =? 0
            then if first_type (answer msg) =? types.SOA
                 then Ok tt else Throw FirstNotSOA
            else Ok tt) as [[]|e]; [|discriminate].
  cbn [bind].
  destruct (len (msgs q) + 1 >? maxMessages q) eqn:Hc; [discriminate|].
  cbn [bind]. intros [= <- <-]. exists msg.
  split; [reflexivity|]. split; [now apply Z.eqb_eq|].
  split.
  { intros Hnil. rewrite Hnil in Ha. discriminate Ha. }
  split; [now apply Hfirst|].
  split; [|auto].
  destruct (Z.gtb_spec (len (msgs q) + 1) (maxMessages q)); [discriminate|lia].
Qed.

Lemma transfer_inv_push (q : AXFRQuery) (msg : Message) (b : list byte)
  (t s : Z) :
  ok q = false -> transfer_inv q ->
  msg_id msg = id q -> answer msg <> [] ->
  (msgs q = [] -> first_type (answer msg) = types.SOA) ->
  transfer_inv {| buf := b; target := t; size := s; id := id q;
                  msgs := msgs q ++ [msg];
                  ok := last_type (answer msg) =? types.SOA;
                  maxMessages := maxMessages q |}.
Proof.
  intros Hok [Hall [Hfirst Hlast]] Hid Ha Hf. rewrite Hok in Hlast.
  unfold transfer_inv. cbn [msgs id ok].
  split; [|split].
  - apply Forall_app. split; [exact Hall|]. constructor; [auto | constructor].
  - intros m rest Heq. destruct (msgs q) as [|m0 l] eqn:Hm.
    + injection Heq as <- _. now apply Hf.
    + injection Heq as <- _. eapply Hfirst. reflexivity.
  - destruct (last_type (answer msg) =? types.SOA) eqn:Hl.
    + exists (msgs q), msg. split; [reflexivity|].
      split; [now apply Z.eqb_eq | exact Hlast].
    + apply Forall_app. split; [exact Hlast|].
      constructor; [now apply Z.eqb_neq | constructor].
Qed.

Lemma read_step_transfer_inv (q q' : AXFRQuery) (data : list byte)
  (rest : option (list byte)) :
  read_step decode q data = Ok (q', rest) ->
  ok q = false -> transfer_inv q ->
  transfer_inv q' /\ id q' = id q
  /\ (rest <> None -> ok q' = false).
Proof.
  unfold read_step.
  destruct (if target q =? 0
            then assert (len data >? 1) MalformedPacket;;;
                 Ok (Buffer.readUInt16BE data 0, 2)
            else Ok (target q, 0)) as [[target1 off]|e]; [|discriminate].
  cbn [bind].
  set (body := Buffer.slice data off (len data)).
  set (exceeds := size q + len body >? target1).
  set (writeLength := if exceeds then target1 - size q else len body).
  set (buf1 := Buffer.copy body (buf q) (size q) 0 writeLength).
  intros H Hok Hinv.
  destruct (size q + writeLength =? target1).
  - destruct (complete decode q (Buffer.slice buf1 0 target1))
      as [[msgs1 done]|e] eqn:Hc; [|discriminate].
    cbn [bind] in H. apply complete_Ok in Hc.
    destruct Hc as [msg [_ [Hid [Ha [Hf [_ [-> ->]]]]]]].
    pose proof (transfer_inv_push q msg buf1 target1 (size q + writeLength)
                  Hok Hinv Hid Ha Hf) as Hpush.
    pose proof (transfer_inv_push q msg buf1 0 0 Hok Hinv Hid Ha Hf) as Hpush0.
    destruct (last_type (answer msg) =? types.SOA) eqn:Hl.
    + injection H as <- <-. split; [exact Hpush|].
      split; [reflexivity | intros Hn; now contradiction Hn].
    + injection H as <- <-. rewrite Hok. split; [exact Hpush0|].
      split; reflexivity.
  - injection H as <- <-. split.
    + destruct Hinv as [Hall [Hfirst Hlast]]. unfold transfer_inv.
      cbn [msgs id ok]. auto.
    + split; [reflexivity | intros _; exact Hok].
Qed.

Lemma read_transfer_inv (fuel : nat) :
  forall (q q' : AXFRQuery) (data : list byte),
    read decode fuel q data = Some (Ok q') ->
    ok q = false -> transfer_inv q ->
    transfer_inv q' /\ id q' = id q.
Proof.
  induction fuel as [|fuel IH]; intros q q' data; [discriminate|].
  rewrite read_S.
  destruct (read_step decode q data) as [[q1 [rest|]]|e] eqn:Hs;
    try discriminate.
  - intros H Hok Hinv.
    destruct (read_step_transfer_inv _ _ _ _ Hs Hok Hinv) as [Hinv1 [Hid Hok1]].
    destruct (IH _ _ _ H (Hok1 ltac:(discriminate)) Hinv1) as [Hinv' Hid'].
    split; [exact Hinv' | congruence].
  - intros [= <-] Hok Hinv.
    destruct (read_step_transfer_inv _ _ _ _ Hs Hok Hinv) as [Hinv1 [Hid _]].
    auto.
Qed.

Lemma deliver_transfer_inv (chunks : list (list byte)) :
  forall (q q' : AXFRQuery),
    deliver decode q chunks = Some (Ok q') ->
    ok q = false -> transfer_inv q ->
    transfer_inv q' /\ id q' = id q.
Proof.
  induction chunks as [|data chunks IH]; intros q q'.
  - simpl. intros [= <-]. auto.
  - rewrite deliver_cons. unfold on_data.
    destruct (read decode (S (List.length data)) q data) as [[q1|e]|] eqn:Hr;
      try discriminate.
    intros H Hok Hinv.
    destruct (read_transfer_inv _ _ _ _ Hr Hok Hinv) as [Hinv1 Hid1].
    destruct (ok q1) eqn:Hok1.
    + injection H as <-. auto.
    + destruct (IH _ _ H Hok1 Hinv1) as [Hinv' Hid']. split; [auto|congruence].
Qed.

Lemma exchange_whole (junk : nat -> byte) (id0 maxMessages0 : Z)
  (t : Transport) (data : list Message) :
  exchange decode (new_AXFRQuery junk id0 maxMessages0) t = Some (Ok data) ->
  exists body final,
    data = body ++ [final]
    /\ last_type (answer final) = types.SOA
    /\ Forall (fun m => last_type (answer m) <> types.SOA) body
    /\ first_type (answer (hd final data)) = types.SOA
    /\ Forall (fun m => msg_id m = id0 /\ answer m <> []) data.
Proof.
  unfold exchange.
  destruct (deliver decode (new_AXFRQuery junk id0 maxMessages0) (tr_chunks t))
    as [[q'|e]|] eqn:Hd; try discriminate.
  destruct (ok q') eqn:Hok; [|discriminate].
  intros [= <-].
  assert (Hinv0 : transfer_inv (new_AXFRQuery junk id0 maxMessages0)).
  { unfold transfer_inv. cbn [msgs ok new_AXFRQuery].
    split; [constructor|]. split; [discriminate | constructor]. }
  destruct (deliver_transfer_inv _ _ _ Hd eq_refl Hinv0)
    as [[Hall [Hfirst Hlast]] Hid].
  rewrite Hok in Hlast. destruct Hlast as [body [final [Hm [Hl Hb]]]].
  exists body, final. split; [exact Hm|]. split; [exact Hl|].
  split; [exact Hb|]. split.
  - destruct (msgs q') as [|m rest] eqn:Hmsgs.
    + destruct body; discriminate Hm.
    + cbn [hd]. eapply Hfirst. reflexivity.
  - rewrite Hid in Hall. exact Hall.
Qed.

(** X18. A transfer that [exchange] reports as received is whole: the
    messages it resolves with are not none, each carries the id of the query
    and at least one record, the first record of the first message is an
    SOA, and the only message whose last record is an SOA is the last one. *)
Theorem exchange_result_is_whole (junk : nat -> byte) (id0 maxMessages0 : Z)
  (t : Transport) (data : list Message) :
  exchange decode (new_AXFRQuery junk id0 maxMessages0) t = Some (Ok data) ->
  exists body final,
    data = body ++ [final]
    /\ last_type (answer final) = types.SOA
    /\ Forall (fun m => last_type (answer m) <> types.SOA) body
    /\ first_type (answer (hd final data)) = types.SOA
    /\ Forall (fun m => msg_id m = id0 /\ answer m <> []) data.
Proof. apply exchange_whole. Qed.

Lemma byte_of_Z_to_N (x : Z) :
  0 <= x < 256 -> Z.of_N (Byte.to_N (byte_of_Z x)) = x.
Proof.
  intros Hx. unfold byte_of_Z.
  destruct (Byte.of_N (Z.to_N x)) as [b|] eqn:Hb.
  - apply Byte.to_of_N in Hb. rewrite Hb. lia.
  - apply Byte.of_N_None_iff in Hb. lia.
Qed.

Lemma writeUInt16BE_read (n : Z) (prefix rest : list byte) :
  writeUInt16BE n = Some prefix ->
  List.length prefix = 2%nat /\ Buffer.readUInt16BE (prefix ++ rest) 0 = n.
Proof.
  unfold writeUInt16BE.
  destruct ((0 <=? n) && (n <=? 65535)) eqn:Hn; [|discriminate].
  intros [= <-]. split; [reflexivity|].
  apply andb_true_iff in Hn. destruct Hn as [H0 H1].
  apply Z.leb_le in H0, H1.
  unfold Buffer.readUInt16BE. change (Z.to_nat 0) with 0%nat.
  change (Z.to_nat (0 + 1)) with 1%nat. cbn [app nth].
  rewrite !byte_of_Z_to_N.
  - pose proof (Z.div_mod n 256 ltac:(lia)). lia.
  - apply Z.mod_pos_bound. lia.
  - split; [apply Z.div_pos; lia | apply Z.div_lt_upper_bound; lia].
Qed.

Lemma frame_prefix (p : list byte) :
  len p <= MAX_MESSAGE_SIZE ->
  exists prefix,
    frame p = prefix ++ p /\ List.length prefix = 2%nat
    /\ forall rest, Buffer.readUInt16BE (frame p ++ rest) 0 = len p.
Proof.
  intros Hp. unfold frame.
  destruct (writeUInt16BE (len p)) as [prefix|] eqn:Hw.
  - exists prefix. split; [reflexivity|].
    split; [apply (writeUInt16BE_read _ _ [] Hw)|].
    intros rest. rewrite <- app_assoc. apply (writeUInt16BE_read _ _ _ Hw).
  - exfalso. unfold writeUInt16BE, MAX_MESSAGE_SIZE in *.
    assert (H0 : 0 <= len p) by (unfold len; lia).
    apply Z.leb_le in H0, Hp. rewrite H0, Hp in Hw. discriminate Hw.
Qed.

Lemma complete_ext (q q' : AXFRQuery) (p : list byte) :
  id q' = id q -> msgs q' = msgs q -> maxMessages q' = maxMessages q ->
  complete decode q' p = complete decode q p.
Proof. intros H1 H2 H3. unfold complete. now rewrite H1, H2, H3. Qed.

Lemma accept_frames_ext (ps : list (list byte)) :
  forall q q',
    id q' = id q -> msgs q' = msgs q -> maxMessages q' = maxMessages q ->
    accept_frames decode q' ps = accept_frames decode q ps.
Proof.
  induction ps as [|p ps IH]; intros q q' H1 H2 H3.
  - simpl. now rewrite H2.
  - cbn [accept_frames]. rewrite (complete_ext q q' p H1 H2 H3).
    destruct (complete decode q p) as [[msgs1 done]|e]; [|reflexivity].
    cbn [bind]. destruct done; [reflexivity|].
    apply IH; cbn [id msgs maxMessages with_msgs]; auto.
Qed.

Lemma read_step_frame (q : AXFRQuery) (p rest : list byte) :
  query_wf q -> target q = 0 -> len p <= MAX_MESSAGE_SIZE ->
  read_step decode q (frame p ++ rest)
  = r <- complete decode q p ;;
    let '(msgs1, done) := r in
    if done then
      Ok ({| buf := put (buf q) 0 p; target := len p; size := len p;
             id := id q; msgs := msgs1; ok := true;
             maxMessages := maxMessages q |}, None)
    else
      Ok ({| buf := put (buf q) 0 p; target := 0; size := 0; id := id q;
             msgs := msgs1; ok := ok q; maxMessages := maxMessages q |},
          match rest with
          | [] => None
          | _ => Some rest
          end).
Proof.
  intros Hwf Ht Hp.
  destruct (frame_prefix p Hp) as [prefix [Hf [Hlen Hread]]].
  assert (Hsize : size q = 0) by (apply Hwf; exact Ht).
  assert (Hpb : prefix_bytes q = 2%nat).
  { unfold prefix_bytes. now rewrite Ht. }
  assert (Hfl : frame_length q (frame p ++ rest) = len p).
  { unfold frame_length. rewrite Ht. apply Hread. }
  assert (Hnd : needed q (frame p ++ rest) = List.length p).
  { unfold needed. rewrite Hfl, Hsize. unfold len. lia. }
  assert (Hbody : skipn 2 (frame p ++ rest) = p ++ rest).
  { rewrite Hf, <- app_assoc. rewrite skipn_app_ge by lia.
    rewrite Hlen. reflexivity. }
  rewrite read_step_full.
  - cbv zeta. rewrite Hpb, Hfl, Hnd, Hbody, Hsize.
    rewrite firstn_app_le by lia. rewrite firstn_all.
    change (Z.to_nat 0) with 0%nat.
    assert (Hfirst : firstn (Z.to_nat (len p)) (put (buf q) 0 p) = p).
    { pose proof (firstn_put (buf q) 0 p) as H. cbn [Nat.add firstn app] in H.
      unfold len. rewrite Nat2Z.id. apply H.
      destruct Hwf as [Hb _]. unfold len, MAX_MESSAGE_SIZE in *. lia. }
    rewrite Hfirst.
    destruct (complete decode q p) as [[msgs1 done]|e]; [|reflexivity].
    cbn [bind]. destruct done; [reflexivity|].
    rewrite skipn_app_ge by lia. rewrite Nat.sub_diag. cbn [skipn].
    rewrite length_app.
    destruct rest as [|x rest].
    + cbn [List.length]. rewrite Nat.add_0_r, Nat.ltb_irrefl. reflexivity.
    + assert (Hlt : (List.length p <? List.length p + List.length (x :: rest))%nat
                    = true).
      { apply Nat.ltb_lt. cbn [List.length]. lia. }
      rewrite Hlt. reflexivity.
  - exact Hwf.
  - intros _. rewrite Hf, !length_app. lia.
  - rewrite Hpb, Hnd, Hbody, length_app. lia.
Qed.

Lemma frame_length_ge (p : list byte) :
  len p <= MAX_MESSAGE_SIZE -> (2 <= List.length (frame p))%nat.
Proof.
  intros Hp. destruct (frame_prefix p Hp) as [prefix [Hf [Hlen _]]].
  rewrite Hf, length_app. lia.
Qed.

Lemma frames_cons (p : list byte) (ps : list (list byte)) :
  frames (p :: ps) = frame p ++ frames ps.
Proof. reflexivity. Qed.

Lemma frames_nonempty (p : list byte) (ps : list (list byte)) :
  Forall (fun p => len p <= MAX_MESSAGE_SIZE) (p :: ps) ->
  frames (p :: ps) <> [].
Proof.
  intros H. inversion H as [|? ? Hp _]; subst.
  pose proof (frame_length_ge p Hp) as Hl. rewrite frames_cons.
  destruct (frame p); [simpl in Hl; lia | discriminate].
Qed.

Lemma read_frames (ps : list (list byte)) :
  forall (q : AXFRQuery) (fuel : nat),
    query_wf q -> target q = 0 -> ps <> [] ->
    Forall (fun p => len p <= MAX_MESSAGE_SIZE) ps ->
    (List.length (frames ps) < fuel)%nat ->
    match accept_frames decode q ps with
    | Throw e => read decode fuel q (frames ps) = Some (Throw e)
    | Ok (ms, done) =>
        exists q', read decode fuel q (frames ps) = Some (Ok q')
                   /\ msgs q' = ms /\ ok q' = done
    end.
Proof.
  induction ps as [|p ps IH]; intros q fuel Hwf Ht Hne Hall Hfuel;
    [contradiction|].
  inversion Hall as [|? ? Hp Hrest]; subst.
  destruct fuel as [|fuel]; [lia|].
  rewrite read_S, frames_cons, (read_step_frame q p (frames ps) Hwf Ht Hp).
  cbn [accept_frames].
  destruct (complete decode q p) as [[msgs1 done]|e]; [|reflexivity].
  cbn [bind]. destruct done.
  - eexists. split; [reflexivity|]. split; reflexivity.
  - destruct ps as [|p2 ps].
    + cbn [frames map List.concat accept_frames].
      eexists. split; [reflexivity|]. split; [reflexivity|].
      cbn [ok]. apply Hwf.
    + pose proof (frames_nonempty p2 ps Hrest) as Hfr.
      assert (Hm : match frames (p2 :: ps) with
                   | [] => None
                   | _ :: _ => Some (frames (p2 :: ps))
                   end = Some (frames (p2 :: ps))).
      { destruct (frames (p2 :: ps)); [contradiction | reflexivity]. }
      rewrite Hm.
      set (q2 := {| buf := put (buf q) 0 p; target := 0; size := 0;
                    id := id q; msgs := msgs1; ok := ok q;
                    maxMessages := maxMessages q |}).
      assert (Hwf2 : query_wf q2).
      { assert (Hsize : size q = 0) by (apply Hwf; exact Ht).
        pose proof (query_wf_reset q p msgs1 Hwf) as H.
        rewrite Hsize in H. change (Z.to_nat 0) with 0%nat in H.
        apply H. lia. }
      rewrite <- (accept_frames_ext (p2 :: ps) (with_msgs q msgs1) q2)
        by reflexivity.
      apply IH; [exact Hwf2 | reflexivity | discriminate | exact Hrest|].
      rewrite frames_cons, length_app in Hfuel.
      pose proof (frame_length_ge p Hp). lia.
Qed.

(** X19. What [read] makes of a stream of whole frames: when the chunks of
    an attempt are the frames of the messages [payloads], cut anywhere but
    inside a length prefix, [Message.decode] is given exactly the bytes of
    each message in turn, each result goes through the checks of [read], and
    the exchange resolves with the messages up to the first one that ends
    with an SOA, the frames after it being ignored; it rejects with the
    error of the first check that fails, or with the error of the
    connection's end when no message ends the transfer. *)
Theorem exchange_decodes_frames (junk : nat -> byte) (id0 maxMessages0 : Z)
  (payloads : list (list byte)) (c : list byte) (chunks : list (list byte))
  (tid : Z) (tjunk : nat -> byte) (tend : SocketEnd) :
  Forall (fun p => len p <= MAX_MESSAGE_SIZE) payloads ->
  List.concat (c :: chunks) = frames payloads ->
  prefix_intact 0 (c :: chunks) = true ->
  exchange decode (new_AXFRQuery junk id0 maxMessages0)
           (mkTransport tid tjunk (c :: chunks) tend)
  = Some match accept_frames decode (new_AXFRQuery junk id0 maxMessages0)
                             payloads with
         | Throw e => Throw e
         | Ok (ms, true) => Ok ms
         | Ok (_, false) => Throw (end_error tend)
         end.
Proof.
  intros Hall Hcat Hintact.
  set (q0 := new_AXFRQuery junk id0 maxMessages0).
  assert (Hwf : query_wf q0) by apply new_AXFRQuery_wf.
  assert (Hne : payloads <> []).
  { intros ->. cbn in Hcat. cbn [prefix_intact] in Hintact.
    destruct c; [discriminate Hintact | discriminate Hcat]. }
  unfold exchange. cbn [tr_chunks tr_end].
  rewrite (deliver_chunks decode chunks c q0 Hwf Hintact).
  unfold on_data. rewrite Hcat.
  pose proof (read_frames payloads q0 (S (List.length (frames payloads)))
                Hwf eq_refl Hne Hall ltac:(lia)) as H.
  destruct (accept_frames decode q0 payloads) as [[ms done]|e].
  - destruct H as [q' [-> [<- <-]]]. destruct (ok q'); reflexivity.
  - rewrite H. reflexivity.
Qed.

(** X20. The request goes out as one frame: [exchange] writes the length
    of the encoded request in two bytes and then the request, and the two
    bytes read back as [read] reads a length prefix give that length; a
    request of more than 65535 bytes is not written at all. *)
Theorem send_request_frames_the_query (encode : Message -> list byte)
  (zone : string) (id0 : Z) :
  let msg := encode (axfr_request zone id0) in
  if len msg <=? MAX_MESSAGE_SIZE then
    exists prefix,
      send_request encode zone id0 = Some [prefix; msg]
      /\ List.length prefix = 2%nat
      /\ Buffer.readUInt16BE (prefix ++ msg) 0 = len msg
      /\ prefix ++ msg = frame msg
  else send_request encode zone id0 = None.
Proof.
  intros msg. unfold send_request, frame. fold msg.
  destruct (len msg <=? MAX_MESSAGE_SIZE) eqn:Hl.
  - apply Z.leb_le in Hl.
    destruct (writeUInt16BE (len msg)) as [prefix|] eqn:Hw.
    + exists prefix. split; [reflexivity|].
      destruct (writeUInt16BE_read _ _ msg Hw) as [H1 H2]. auto.
    + exfalso. unfold writeUInt16BE, MAX_MESSAGE_SIZE in *.
      assert (H0 : 0 <= len msg) by (unfold len; lia).
      apply Z.leb_le in H0, Hl. rewrite H0, Hl in Hw. discriminate Hw.
  - unfold writeUInt16BE, MAX_MESSAGE_SIZE in *.
    rewrite Hl, andb_false_r. reflexivity.
Qed.

End StreamFurther.
(** ** The first [Plugin] class: chunks of a fixed number of records *)

Section FirstPluginFurther.

Variable wire : Message -> list byte.
Variable toZone : list byte -> string -> list RR.
Variable soa_first soa_last : RR.

Local Abbreviation server_write' := (FirstPlugin.server_write wire).
Local Abbreviation zone_loop' := (FirstPlugin.zone_loop wire).
Local Abbreviation tree_loop' := (FirstPlugin.tree_loop wire toZone).
Local Abbreviation sendAXFR0 :=
  (FirstPlugin.sendAXFR wire toZone soa_first soa_last).

Local Abbreviation handed := FirstPlugin.handed.
Local Abbreviation conserves := FirstPlugin.conserves.

(** The two ways [server_write] ends. *)
Lemma server_write_run (res : Message) (written : list Message) :
  (len (wire res) <= MAX_MESSAGE_SIZE
   /\ server_write' res written = (written ++ [res], Ok tt))
  \/ (len (wire res) > MAX_MESSAGE_SIZE
      /\ server_write' res written = (written, Throw MessageExceedsSizeLimits)).
Proof.
  unfold FirstPlugin.server_write.
  destruct (Message_compress wire res) as [data|e] eqn:Hc.
  - apply Message_compress_Ok in Hc. left. tauto.
  - apply Message_compress_Throw in Hc. destruct Hc as [-> Hbig]. right. auto.
Qed.

Lemma zone_loop_conserves (p : FirstPlugin.Plugin) (req : Message)
  (zone : list RR) :
  forall t written,
    conserves t written (without_sigs zone) (zone_loop' p req zone t written).
Proof.
  unfold FirstPlugin.conserves, FirstPlugin.handed.
  induction zone as [|rr zone IH]; intros t written.
  - simpl. now rewrite app_nil_r.
  - cbn [FirstPlugin.zone_loop without_sigs filter].
    destruct (rr_type rr =? types.RRSIG); cbn [negb]; [apply IH|].
    fold (without_sigs zone).
    set (res1 := set_answer (FirstPlugin.res t)
                            (answer (FirstPlugin.res t) ++ [rr])).
    destruct (len (answer res1) >? FirstPlugin.chunkLength p).
    + unfold sbind.
      destruct (server_write_run res1 written) as [[_ ->]|[_ ->]].
      * match goal with
        | |- context [zone_loop' p req zone ?t1 ?w1] =>
            specialize (IH t1 w1);
            destruct (zone_loop' p req zone t1 w1) as [s2 [t2|e]]
        end; cbn [fst snd] in IH |- *.
        -- rewrite IH. cbn [FirstPlugin.res answer setReply new_Message].
           rewrite flat_map_app. cbn [flat_map]. unfold res1.
           cbn [answer set_answer].
           rewrite !app_nil_r, <- !app_assoc. reflexivity.
        -- destruct IH as [-> [rest Hrest]]. split; [reflexivity|].
           exists rest. rewrite <- Hrest.
           cbn [FirstPlugin.res answer setReply new_Message].
           rewrite flat_map_app. cbn [flat_map]. unfold res1.
           cbn [answer set_answer].
           rewrite !app_nil_r, <- !app_assoc. reflexivity.
      * cbn [fst snd]. split; [reflexivity|].
        exists (answer (FirstPlugin.res t) ++ rr :: without_sigs zone).
        now rewrite <- app_assoc.
    + match goal with
      | |- context [zone_loop' p req zone ?t1 ?w1] =>
          specialize (IH t1 w1);
          destruct (zone_loop' p req zone t1 w1) as [s2 [t2|e]]
      end; cbn [fst snd] in IH |- *.
      * rewrite IH. cbn [FirstPlugin.res]. unfold res1.
        cbn [answer set_answer]. rewrite <- !app_assoc. reflexivity.
      * destruct IH as [-> [rest Hrest]]. split; [reflexivity|].
        exists rest. rewrite <- Hrest. cbn [FirstPlugin.res]. unfold res1.
        cbn [answer set_answer]. rewrite <- !app_assoc. reflexivity.
Qed.

Lemma tree_loop_conserves (p : FirstPlugin.Plugin) (req : Message)
  (tree : list NameState) :
  forall t written,
    conserves t written (local_dump toZone tree)
              (tree_loop' p req tree t written).
Proof.
  unfold FirstPlugin.conserves, FirstPlugin.handed.
  induction tree as [|ns tree IH]; intros t written.
  - simpl. now rewrite app_nil_r.
  - cbn [FirstPlugin.tree_loop local_dump flat_map].
    fold (local_dump toZone tree).
    destruct (len (ns_data ns) <=? 0); [apply IH|].
    unfold sbind.
    pose proof (zone_loop_conserves p req
                  (toZone (ns_data ns) (util.fqdn (ns_name ns))) t written)
      as Hz.
    unfold FirstPlugin.conserves, FirstPlugin.handed in Hz.
    destruct (zone_loop' p req _ t written) as [s1 [t1|e]];
      cbn [fst snd] in Hz |- *.
    + specialize (IH t1 s1).
      destruct (tree_loop' p req tree t1 s1) as [s2 [t2|e]];
        cbn [fst snd] in IH |- *.
      * rewrite IH, Hz, <- !app_assoc. reflexivity.
      * destruct IH as [-> [rest Hrest]]. split; [reflexivity|].
        exists rest. rewrite <- Hrest, Hz, <- !app_assoc. reflexivity.
    + destruct Hz as [-> [rest Hrest]]. split; [reflexivity|].
      exists (rest ++ local_dump toZone tree).
      rewrite (app_assoc (flat_map answer s1)), <- Hrest, <- !app_assoc.
      reflexivity.
Qed.

Lemma zone_loop_chunked (p : FirstPlugin.Plugin) (req : Message)
  (zone : list RR) :
  0 <= FirstPlugin.chunkLength p ->
  forall t written,
    chunked p t written ->
    let out := zone_loop' p req zone t written in
    Forall (fun m => len (answer m) = FirstPlugin.chunkLength p + 1) (fst out)
    /\ forall t', snd out = Ok t' -> chunked p t' (fst out).
Proof.
  intros Hcl. cbv zeta.
  induction zone as [|rr zone IH]; intros t written Ht.
  - simpl. split; [exact (proj1 Ht)|]. now intros t' [= <-].
  - cbn [FirstPlugin.zone_loop].
    destruct (rr_type rr =? types.RRSIG); [now apply IH|].
    destruct Ht as [Hw Hr].
    set (res1 := set_answer (FirstPlugin.res t)
                            (answer (FirstPlugin.res t) ++ [rr])).
    assert (Hlen : len (answer res1) = len (answer (FirstPlugin.res t)) + 1).
    { unfold res1. cbn [answer set_answer]. unfold len. rewrite length_app.
      cbn [List.length]. lia. }
    destruct (len (answer res1) >? FirstPlugin.chunkLength p) eqn:Hc.
    + unfold sbind.
      destruct (server_write_run res1 written) as [[_ ->]|[_ ->]].
      * apply IH. split; cbn [FirstPlugin.res].
        -- apply Forall_app. split; [exact Hw|]. constructor; [|constructor].
           apply Z.gtb_lt in Hc. lia.
        -- cbn [answer setReply new_Message]. unfold len. simpl. lia.
      * cbn [fst snd]. split; [exact Hw | discriminate].
    + apply IH. split; cbn [FirstPlugin.res]; [exact Hw|].
      destruct (Z.gtb_spec (len (answer res1)) (FirstPlugin.chunkLength p));
        [discriminate | lia].
Qed.

Lemma tree_loop_chunked (p : FirstPlugin.Plugin) (req : Message)
  (tree : list NameState) :
  0 <= FirstPlugin.chunkLength p ->
  forall t written,
    chunked p t written ->
    let out := tree_loop' p req tree t written in
    Forall (fun m => len (answer m) = FirstPlugin.chunkLength p + 1) (fst out)
    /\ forall t', snd out = Ok t' -> chunked p t' (fst out).
Proof.
  intros Hcl. cbv zeta.
  induction tree as [|ns tree IH]; intros t written Ht.
  - simpl. split; [exact (proj1 Ht)|]. now intros t' [= <-].
  - cbn [FirstPlugin.tree_loop].
    destruct (len (ns_data ns) <=? 0); [now apply IH|].
    unfold sbind.
    pose proof (zone_loop_chunked p req
                  (toZone (ns_data ns) (util.fqdn (ns_name ns))) Hcl
                  t written Ht) as Hz.
    cbv zeta in Hz.
    destruct (zone_loop' p req _ t written) as [s1 [t1|e]];
      cbn [fst snd] in Hz |- *.
    + apply IH. now apply (proj2 Hz).
    + split; [exact (proj1 Hz) | discriminate].
Qed.

Lemma first_plugin_handed (p : FirstPlugin.Plugin)
  (req : Message) (rinfo : RInfo) (tree : list NameState) :
  ri_tcp rinfo = true ->
  In (ri_address rinfo) (FirstPlugin.ipList p) ->
  let '(written, r) := sendAXFR0 p req rinfo tree [] in
  match r with
  | Ok res =>
      flat_map answer written ++ answer res
      = soa_first :: local_dump toZone tree ++ [soa_last]
  | Throw e =>
      e = MessageExceedsSizeLimits
      /\ exists rest,
           soa_first :: local_dump toZone tree
           = flat_map answer written ++ rest
  end.
Proof.
  intros Htcp Hip. apply allowed_In in Hip.
  unfold FirstPlugin.sendAXFR. rewrite Htcp, Hip. cbn [negb]. unfold sbind.
  match goal with
  | |- context [tree_loop' p req tree ?t0 []] =>
      pose proof (tree_loop_conserves p req tree t0 []) as Hc;
      destruct (tree_loop' p req tree t0 []) as [s1 [t1|e]]
  end; unfold FirstPlugin.conserves, FirstPlugin.handed in Hc; cbn [fst snd FirstPlugin.res flat_map app
                                     answer set_answer] in Hc.
  - unfold sret. cbn [answer set_answer]. rewrite app_assoc, Hc. reflexivity.
  - exact Hc.
Qed.

(** X21. The first plugin sends the local zone whole or fails on a chunk
    that is too long. When [sendAXFR] returns, the records of the messages
    it has written, followed by those of the message it returns, are the
    SOA, then for every entry of the name tree that has data its zone
    records without the RRSIG records, in order, then the SOA again. When it
    throws, the error is the size error of [res.compress()]: a chunk of
    [chunkLength + 1] records takes more than 65535 bytes; the chunk is not
    written, and the records written before it are a part of that
    sequence, from its start. *)
Theorem first_plugin_sends_the_local_zone (p : FirstPlugin.Plugin)
  (req : Message) (rinfo : RInfo) (tree : list NameState) :
  ri_tcp rinfo = true ->
  In (ri_address rinfo) (FirstPlugin.ipList p) ->
  let '(written, r) := sendAXFR0 p req rinfo tree [] in
  match r with
  | Ok res =>
      flat_map answer written ++ answer res
      = soa_first :: local_dump toZone tree ++ [soa_last]
  | Throw e =>
      e = MessageExceedsSizeLimits
      /\ exists rest,
           soa_first :: local_dump toZone tree
           = flat_map answer written ++ rest
  end.
Proof. apply first_plugin_handed. Qed.

(** X22. The first plugin writes chunks of [chunkLength + 1] records: with
    a chunk length of at least one, every message it writes, whether or not
    the transfer runs to its end, carries exactly one record more than the
    chunk length, and the message it returns carries at least the closing
    SOA and at most that many records. *)
Theorem first_plugin_chunks (p : FirstPlugin.Plugin) (req : Message)
  (rinfo : RInfo) (tree : list NameState) :
  1 <= FirstPlugin.chunkLength p ->
  ri_tcp rinfo = true ->
  In (ri_address rinfo) (FirstPlugin.ipList p) ->
  let '(written, r) := sendAXFR0 p req rinfo tree [] in
  Forall (fun m => len (answer m) = FirstPlugin.chunkLength p + 1) written
  /\ forall res,
       r = Ok res ->
       1 <= len (answer res) <= FirstPlugin.chunkLength p + 1
       /\ List.last (answer res) soa_first = soa_last.
Proof.
  intros Hcl Htcp Hip. apply allowed_In in Hip.
  unfold FirstPlugin.sendAXFR. rewrite Htcp, Hip. cbn [negb]. unfold sbind.
  set (t0 := {| FirstPlugin.res :=
                  set_answer (setReply new_Message req) [soa_first];
                FirstPlugin.progress := 0 |}).
  assert (H0 : chunked p t0 []).
  { split; [constructor|]. cbn. lia. }
  pose proof (tree_loop_chunked p req tree ltac:(lia) t0 [] H0) as Hc.
  cbv zeta in Hc.
  destruct (tree_loop' p req tree t0 []) as [s1 [t1|e]];
    cbn [fst snd] in Hc |- *.
  - destruct Hc as [Hw Hr]. destruct (Hr t1 eq_refl) as [_ Hres].
    unfold sret. split; [exact Hw|]. intros res [= <-].
    cbn [answer set_answer]. split.
    + unfold len in *. rewrite length_app. cbn [List.length]. lia.
    + apply last_last.
  - split; [exact (proj1 Hc) | discriminate].
Qed.

End FirstPluginFurther.

(** ** The parts together *)

Section Compose.

Variable RR_getSize : RR -> Z.
Variable Question_getSize : Question -> Z.
Variable wire : Message -> list byte.
Variable write : list Message -> list byte -> bool.
Variable toZone : list byte -> string -> list RR.
Variable soa : RR.
Variable decode : list byte -> option Message.
Variable network : nat -> Server -> Transport.
Variable KeyMap : Type.
Variable verifyMessage : Message -> KeyMap -> bool.

Hypothesis RR_getSize_nonneg : forall rr, 0 <= RR_getSize rr.
Hypothesis Question_getSize_nonneg : forall qs, 0 <= Question_getSize qs.

(** X23. Without merging, the two plugins send the same zone: for the same
    request and name tree, when the transfer of the second plugin and that
    of the first both run to their end, the records the second plugin
    writes and returns are those the first plugin writes and returns, in
    the same order. *)
Theorem plugins_agree_without_merge (p : Plugin) (p0 : FirstPlugin.Plugin)
  (c : AXFRClient) (keyMap : KeyMap) (db : MergeDB) (req : Message)
  (rinfo : RInfo) (tree : list NameState) (sent : list Message) (out : Sent)
  (written : list Message) (res : Message) :
  disableMerge p = true ->
  ri_tcp rinfo = true ->
  In (ri_address rinfo) (ipList p) ->
  In (ri_address rinfo) (FirstPlugin.ipList p0) ->
  loadMergeZone decode network KeyMap verifyMessage p c keyMap
  = Some (Ok db) ->
  sendAXFR RR_getSize Question_getSize wire write toZone soa
           p req rinfo (Ok db) tree [] = (sent, Ok out) ->
  FirstPlugin.sendAXFR wire toZone soa soa p0 req rinfo tree []
  = (written, Ok res) ->
  flat_map answer sent ++ answer (response out)
  = flat_map answer written ++ answer res.
Proof.
  intros Hno Htcp Hip Hip0 Hload Hrun Hrun0.
  destruct (sendAXFR_no_merge RR_getSize Question_getSize wire write
              toZone soa decode network KeyMap verifyMessage
              RR_getSize_nonneg Question_getSize_nonneg
              p c keyMap db req rinfo tree sent out Hno Htcp Hip Hload Hrun)
    as [Hflat [_ Hres]].
  pose proof (first_plugin_handed wire toZone soa soa p0 req rinfo tree
                Htcp Hip0) as Hold.
  rewrite Hrun0 in Hold.
  rewrite Hold, Hflat, Hres. reflexivity.
Qed.

Lemma attempts_Ok (n : nat) :
  forall (i : nat) (c c' : AXFRClient) (server : option Server)
         (log log' : list Warning) (data : list Message),
    attempts decode network n i c server log = Some (c', log', Ok (Some data)) ->
    exists j s, attempt decode network c j s = Some (Ok data).
Proof.
  induction n as [|n IH]; intros i c c' server log log' data; [discriminate|].
  cbn [attempts]. destruct server as [s|]; [|discriminate].
  destruct (exchange decode _ (network i s)) as [[d|e]|] eqn:Hx;
    [|  |discriminate].
  - intros [= <- <- <-]. exists i, s. exact Hx.
  - unfold nextServer. destruct (servers c) as [l|]; [|discriminate].
    cbn [bind]. destruct (getServer _) as [server'|e']; [|discriminate].
    cbn [bind]. intros H. apply IH in H. exact H.
Qed.

(** X24. What is merged comes from one whole transfer that passed
    validation: when merging is enabled and [loadMergeZone] returns merge
    data, one exchange has resolved with messages that start and end with an
    SOA record and all carry records, and the data returned is what
    [verifyZone] makes of exactly those messages. *)
Theorem loadMergeZone_uses_a_whole_transfer (p : Plugin) (c : AXFRClient)
  (keyMap : KeyMap) (db : MergeDB) :
  disableMerge p = false ->
  loadMergeZone decode network KeyMap verifyMessage p c keyMap
  = Some (Ok db) ->
  exists j s data body final,
    attempt decode network c j s = Some (Ok data)
    /\ verifyZone KeyMap verifyMessage new_AXFRValidator data keyMap
       = Some (Ok db)
    /\ data = body ++ [final]
    /\ first_type (answer (hd final data)) = types.SOA
    /\ last_type (answer final) = types.SOA
    /\ Forall (fun m => answer m <> []) data.
Proof.
  intros Hno. unfold loadMergeZone. rewrite Hno.
  destruct (query decode network c) as [[[c' log] [[data|]|e]]|] eqn:Hq;
    try discriminate.
  intros Hv. unfold query in Hq.
  destruct (getServer c) as [server|e]; [|discriminate].
  apply attempts_Ok in Hq. destruct Hq as [j [s Ha]].
  pose proof Ha as Hw. unfold attempt in Hw. cbv zeta in Hw.
  apply exchange_whole in Hw.
  destruct Hw as [body [final [Hd [Hl [_ [Hf Hall]]]]]].
  exists j, s, data, body, final. repeat split; auto.
  eapply Forall_impl; [|exact Hall]. intros m [_ H]. exact H.
Qed.

End Compose.

Section ClosedConnection.

Variable RR_getSize : RR -> Z.
Variable Question_getSize : Question -> Z.
Variable wire : Message -> list byte.
Variable toZone : list byte -> string -> list RR.
Variable soa : RR.
Variable decode : list byte -> option Message.
Variable network : nat -> Server -> Transport.
Variable KeyMap : Type.
Variable verifyMessage : Message -> KeyMap -> bool.
Variable toHost : string -> Z -> string.

Hypothesis RR_getSize_nonneg : forall rr, 0 <= RR_getSize rr.
Hypothesis Question_getSize_nonneg : forall qs, 0 <= Question_getSize qs.
Hypothesis compress_le :
  forall m, len (wire m) <= Message_getSize RR_getSize Question_getSize m.

Local Abbreviation writer_inv' := (writer_inv RR_getSize Question_getSize).

(** While the callback refuses everything, the first message to be flushed
    is within the limit: records are appended without a flush only while
    they fit. *)
Lemma writeAll_refused (write : list Message -> list byte -> bool)
  (req : Message) (rrs : list RR) :
  (forall s d, write s d = false) ->
  forall w,
    writer_inv' req w ->
    let out := writeAll RR_getSize Question_getSize wire write w rrs [] in
    match snd out with
    | Ok w' => fst out = [] /\ writer_inv' req w'
    | Throw e => e = UnableToWrite /\ exists m, fst out = [m]
    end.
Proof.
  intros Hw. cbv zeta. induction rrs as [|rr rrs IH]; intros w Hinv.
  - simpl. auto.
  - cbn [writeAll]. unfold sbind, writeRR. unfold sbind.
    set (w1 := {| w_req := w_req w; w_msg := w_msg w; w_size := w_size w;
                  w_written := w_written w + 1 |}).
    assert (Hinv1 : writer_inv' req w1) by exact Hinv.
    destruct (RR_getSize rr + w_size w1 >? MAX_MESSAGE_SIZE) eqn:Hgt.
    + rewrite (flush_writes RR_getSize Question_getSize wire write
                 RR_getSize_nonneg Question_getSize_nonneg w1 []
                 (proj1 Hinv1)
                 (writer_inv_fits RR_getSize Question_getSize wire
                    compress_le req w1 Hinv1)).
      rewrite Hw. cbn [fst snd app]. split; [reflexivity|]. eauto.
    + unfold sret. apply IH.
      destruct Hinv1 as [Hs [Hle Hq]].
      unfold writer_inv. simpl.
      rewrite (getSize_push RR_getSize Question_getSize).
      rewrite Z.gtb_ltb, Z.ltb_ge in Hgt. simpl in Hgt.
      unfold MAX_MESSAGE_SIZE in *.
      split; [f_equal; assumption|]. split; [lia|assumption].
Qed.

(** X25. A transfer to a peer whose connection is gone is cancelled at its
    first write: when the server has no socket for the peer, [Plugin.write]
    returns [false] and leaves the sockets as they are, and [sendAXFR]
    fails with ['unable to write message'] after handing a single message
    to its callback. The reply to the request is taken to fit in a message
    while it has no record. *)
Theorem sendAXFR_to_a_closed_connection (sockets : Sockets) (p : Plugin)
  (c : AXFRClient) (keyMap : KeyMap) (db : MergeDB) (req : Message)
  (rinfo : RInfo) (tree : list NameState) :
  base_size RR_getSize Question_getSize req <= MAX_MESSAGE_SIZE ->
  sockets_get sockets (toHost (ri_address rinfo) (ri_port rinfo)) = None ->
  ri_tcp rinfo = true ->
  In (ri_address rinfo) (ipList p) ->
  loadMergeZone decode network KeyMap verifyMessage p c keyMap
  = Some (Ok db) ->
  (forall data,
     Plugin_write toHost sockets data (ri_port rinfo) (ri_address rinfo)
     = (sockets, false))
  /\ exists m,
       sendAXFR RR_getSize Question_getSize wire
                (transfer_callback toHost sockets rinfo) toZone soa
                p req rinfo (Ok db) tree []
       = ([m], Throw UnableToWrite).
Proof.
  intros Hb Hnone Htcp Hip Hload.
  set (write := transfer_callback toHost sockets rinfo).
  assert (Hpw : forall data,
            Plugin_write toHost sockets data (ri_port rinfo) (ri_address rinfo)
            = (sockets, false)).
  { intros data. unfold Plugin_write. cbv zeta. now rewrite Hnone. }
  split; [exact Hpw|].
  assert (Hw : forall s d, write s d = false).
  { intros s d. unfold write, transfer_callback. now rewrite Hpw. }
  apply (loadMergeZone_closed RR_getSize write soa) in Hload.
  destruct Hload as [Hcl _].
  rewrite (sendAXFR_plan _ _ _ _ _ _ _ _ _ _ _ _ Htcp Hip).
  destruct (transfer_plan_spec toZone soa p tree db Hcl)
    as [local [merged [glue' [log [-> _]]]]].
  unfold sbind.
  pose proof (writeAll_refused write req (soa :: local ++ merged) Hw
                (new_MessageWriter RR_getSize Question_getSize req)
                (new_MessageWriter_inv RR_getSize Question_getSize req Hb))
    as Hrun.
  cbv zeta in Hrun.
  destruct (writeAll RR_getSize Question_getSize wire write _
                     (soa :: local ++ merged) []) as [s1 [w1|e]];
    cbn [fst snd] in Hrun.
  - destruct Hrun as [-> Hinv]. unfold sbind.
    rewrite (flush_writes RR_getSize Question_getSize wire write
               RR_getSize_nonneg Question_getSize_nonneg w1 []
               (proj1 Hinv)
               (writer_inv_fits RR_getSize Question_getSize wire
                  compress_le req w1 Hinv)).
    rewrite Hw. cbn [app]. eexists. reflexivity.
  - destruct Hrun as [-> [m ->]]. eexists. reflexivity.
Qed.

End ClosedConnection.

(** ** [sendAXFR]: the size of the messages of a transfer *)

Section TransferLimit.

Variable RR_getSize : RR -> Z.
Variable Question_getSize : Question -> Z.
Variable wire : Message -> list byte.
Variable write : list Message -> list byte -> bool.
Variable toZone : list byte -> string -> list RR.
Variable soa : RR.

Hypothesis RR_getSize_nonneg : forall rr, 0 <= RR_getSize rr.
Hypothesis Question_getSize_nonneg : forall qs, 0 <= Question_getSize qs.
Hypothesis compress_le :
  forall m, len (wire m) <= Message_getSize RR_getSize Question_getSize m.

Local Abbreviation flush' := (flush RR_getSize Question_getSize wire write).
Local Abbreviation writeAll' := (writeAll RR_getSize Question_getSize wire write).
Local Abbreviation sendAXFR' :=
  (sendAXFR RR_getSize Question_getSize wire write toZone soa).
Local Abbreviation base_size' := (base_size RR_getSize Question_getSize).

Lemma transfer_plan_sources (p : Plugin) (tree : list NameState) (db : MergeDB) :
  forall rr, In rr (fst (fst (transfer_plan toZone soa p tree db))) ->
    rr = soa \/ local_record toZone tree rr
    \/ exists n o, OwnerMap.get (names db) n = Some o /\ In rr (rrs o).
Proof.
  unfold transfer_plan.
  set (db0 := {| glue := glue db; names := names db;
                 nsecChain := NameSet.delete (nsecChain db) "." |}).
  pose proof (local_plan_spec toZone p tree db0 []) as Hl.
  destruct (local_plan toZone p tree db0 []) as [[local db1] log].
  destruct Hl as [Hn [_ [_ Hr]]]. cbn [names db0] in Hn.
  pose proof (merge_plan_spec (names db1) (nsecChain db1) (glue db1)
                (nsecChain db1) (glue db1) (incl_refl _) (incl_refl _)) as Hm.
  destruct (merge_plan (names db1) (nsecChain db1) (glue db1)) as [merged r].
  destruct Hm as [Hrec _]. cbn [fst].
  intros rr [<-|Hin]; [now left|]. right.
  apply in_app_or in Hin. destruct Hin as [Hin|Hin].
  - left. apply (Hr rr Hin).
  - right. rewrite Hn in Hrec.
    destruct (Hrec rr Hin) as [[n [o [_ [Ho [Hi _]]]]]|[g [o [_ [Ho Hi]]]]];
      eauto.
Qed.

Lemma transfer_plan_error (p : Plugin) (tree : list NameState) (db : MergeDB)
  (e : Error) :
  snd (fst (transfer_plan toZone soa p tree db)) = Throw e -> e = TypeError.
Proof.
  unfold transfer_plan.
  destruct (local_plan toZone p tree _ []) as [[local db1] log].
  pose proof (merge_plan_spec (names db1) (nsecChain db1) (glue db1)
                (nsecChain db1) (glue db1) (incl_refl _) (incl_refl _)) as Hm.
  destruct (merge_plan (names db1) (nsecChain db1) (glue db1)) as [merged r].
  cbn [fst snd]. intros ->. tauto.
Qed.

(** X26. No message of a transfer is over the limit. When the SOA, every
    record of the local store and every record of the external zone fits
    in a message of its own, every message [sendAXFR] hands to the write
    callback serializes to at most 65535 bytes, whether the transfer
    completes or stops on a failed write; and the size error of
    [msg.compress()] does not occur. *)
Theorem sendAXFR_messages_within_limit (p : Plugin) (req : Message)
  (rinfo : RInfo) (db : MergeDB) (tree : list NameState) :
  base_size' req + RR_getSize soa <= MAX_MESSAGE_SIZE ->
  (forall rr, local_record toZone tree rr ->
              base_size' req + RR_getSize rr <= MAX_MESSAGE_SIZE) ->
  (forall n o rr, OwnerMap.get (names db) n = Some o -> In rr (rrs o) ->
                  base_size' req + RR_getSize rr <= MAX_MESSAGE_SIZE) ->
  (forall m, In m (fst (sendAXFR' p req rinfo (Ok db) tree [])) ->
             len (wire m) <= MAX_MESSAGE_SIZE)
  /\ snd (sendAXFR' p req rinfo (Ok db) tree [])
     <> Throw MessageExceedsSizeLimits.
Proof.
  intros Hsoa Hlocal Hext.
  assert (Hb : base_size' req <= MAX_MESSAGE_SIZE)
    by (pose proof (RR_getSize_nonneg soa); lia).
  destruct (refused_or_allowed RR_getSize Question_getSize wire write
              toZone soa p req rinfo (Ok db) tree []) as [Href|[Htcp Hip]].
  { rewrite Href. split; [intros m [] | discriminate]. }
  rewrite (sendAXFR_plan _ _ _ _ _ _ _ _ _ _ _ _ Htcp Hip).
  pose proof (transfer_plan_sources p tree db) as Hsrc.
  pose proof (transfer_plan_error p tree db) as Herr.
  destruct (transfer_plan toZone soa p tree db) as [[records r] log].
  cbn [fst snd] in Hsrc, Herr.
  assert (Hfit : forall rr, In rr records ->
                   base_size' req + RR_getSize rr <= MAX_MESSAGE_SIZE).
  { intros rr Hin.
    destruct (Hsrc rr Hin) as [->|[Hl|[n [o [Ho Hi]]]]]; eauto. }
  assert (Hnil : sent_within_limit wire []) by (intros m []).
  destruct (writeAll_inv RR_getSize Question_getSize wire write
              RR_getSize_nonneg Question_getSize_nonneg compress_le
              req records Hb Hfit _ []
              (new_MessageWriter_inv RR_getSize Question_getSize req Hb) Hnil)
    as [Hs Hw].
  pose proof (writeAll_fit_error RR_getSize Question_getSize wire write
                RR_getSize_nonneg Question_getSize_nonneg compress_le
                req records Hb Hfit
                (new_MessageWriter RR_getSize Question_getSize req) []) as He.
  unfold sbind.
  destruct (writeAll' _ records []) as [s1 [w1|e]]; cbn [fst snd] in *.
  - destruct r as [glue'|e].
    + pose proof (flush_inv RR_getSize Question_getSize wire write
                    RR_getSize_nonneg Question_getSize_nonneg compress_le
                    req w1 s1 Hb (Hw w1 eq_refl) Hs) as [Hf _].
      pose proof (flush_fit_error RR_getSize Question_getSize wire write
                    RR_getSize_nonneg Question_getSize_nonneg compress_le
                    req w1 s1) as Hfe.
      destruct (flush' w1 s1) as [s2 [w2|e]]; cbn [fst snd] in *.
      * split; [exact Hf | discriminate].
      * split; [exact Hf|]. intros [= ->].
        specialize (Hfe _ (Hw w1 eq_refl) eq_refl). discriminate.
    + split; [exact Hs|]. unfold sthrow. cbn [snd]. intros [= ->].
      specialize (Herr _ eq_refl). discriminate.
  - split; [exact Hs|]. intros [= ->].
    specialize (He _ (new_MessageWriter_inv RR_getSize Question_getSize
                        req Hb) Hnil eq_refl).
    discriminate.
Qed.

End TransferLimit.

(** ** [verifyZone]: the owner an error names *)

Lemma verifyBitmap_other_errors (name : string) (owner : Owner)
  (bitmap : list Z) (e : Error) :
  verifyBitmap name owner bitmap = Throw e ->
  forall n, e <> BogusUnableToValidate n.
Proof.
  unfold verifyBitmap.
  assert (Hloop : forall hasNS e0,
            verifyBitmap_loop name owner bitmap hasNS = Throw e0 ->
            forall n, e0 <> BogusUnableToValidate n).
  { induction bitmap as [|type rest IH]; intros hasNS e0; [discriminate|].
    cbn [verifyBitmap_loop].
    destruct (negb (util.hasType (rrs owner) type)).
    - intros [= <-] n. discriminate.
    - apply IH. }
  destruct (verifyBitmap_loop name owner bitmap false) as [h|e0] eqn:Hl;
    cbn [bind].
  - destruct (delegation owner && negb h); [|discriminate].
    intros [= <-] n. discriminate.
  - intros [= <-]. exact (Hloop _ _ Hl).
Qed.

Lemma nsec_walk_other_errors (v : AXFRValidator) (fuel : nat) :
  forall name seen e,
    nsec_walk fuel v name seen = Some (Throw e) ->
    forall n, e <> BogusUnableToValidate n.
Proof.
  induction fuel as [|fuel IH]; intros name seen e; [discriminate|].
  cbn [nsec_walk].
  destruct (OwnerMap.get (owners v) name) as [owner|];
    [|intros [= <-] n; discriminate].
  destruct (util.extractSet (rrs owner) name [types.NSEC])
    as [|rr [|rr2 l]]; try (intros [= <-] n; discriminate).
  destruct (data_nsec (rr_data rr)) as [[next bitmap]|];
    [|intros [= <-] n; discriminate].
  destruct (verifyBitmap name owner bitmap) as [u|e1] eqn:Hb.
  - destruct (NameSet.has seen next).
    + destruct (negb (String.eqb next (origin v))); [|discriminate].
      intros [= <-] n. discriminate.
    + apply IH.
  - intros [= <-] n ->.
    exact (verifyBitmap_other_errors _ _ _ _ Hb n eq_refl).
Qed.

(** X27. A validation error names an owner that did fail. When [verifyZone]
    throws the error of an owner name, the transfer holds records of that
    name, and it is the message built from them (without the NS set when
    the name is a delegation) that [verifyMessage] rejected. *)
Theorem verifyZone_names_the_failing_owner (KeyMap : Type)
  (verifyMessage : Message -> KeyMap -> bool)
  (messages : list Message) (keyMap : KeyMap) (name : string) :
  verifyZone KeyMap verifyMessage new_AXFRValidator messages keyMap
  = Some (Throw (BogusUnableToValidate name)) ->
  let g := group (flat_map answer messages) name in
  g <> []
  /\ verifyMessage
       (set_answer new_Message
          (if negb (String.eqb name ".") && util.hasType g types.NS
           then util.filterSet g [types.NS] else g))
       keyMap = false.
Proof.
  unfold verifyZone.
  destruct (collect_all new_AXFRValidator (flat_map answer messages))
    as [v1|e1] eqn:Hc.
  - destruct (verify_owners KeyMap verifyMessage v1 keyMap (owners v1) [])
      as [glue1|e2] eqn:Hv.
    + unfold verifyNSEC.
      destruct (nsec_walk (S (List.length (owners v1))) v1 (origin v1)
                          (NameSet.add [] (origin v1)))
        as [[chain|e3]|] eqn:Hw; try discriminate.
      intros [= ->]. exfalso.
      exact (nsec_walk_other_errors _ _ _ _ _ Hw name eq_refl).
    + intros [= ->]. cbv zeta.
      assert (Hnd : NoDup (map fst (owners v1))).
      { apply (collect_all_spec _ _ _ Hc). constructor. }
      destruct (collect_all_groups _ _ _ Hc) as [_ [_ [_ Hget]]].
      apply verify_owners_throws in Hv.
      destruct Hv as [n [o [[= <-] [Hin Hrej]]]].
      specialize (Hget name).
      cbn [owners new_AXFRValidator OwnerMap.get origin] in Hget.
      unfold extend in Hget.
      assert (Ho : OwnerMap.get (owners v1) name = Some o)
        by (now apply (get_In _ _ _ Hnd)).
      rewrite Ho in Hget.
      destruct (group (flat_map answer messages) name) as [|x g] eqn:Hgr;
        [discriminate|].
      injection Hget as ->. split; [discriminate|].
      unfold verification_input in Hrej. cbn [delegation rrs orb app] in Hrej.
      exact Hrej.
  - intros [= ->]. apply collect_all_throws in Hc. discriminate.
Qed.

(** ** [sendAXFR]: the collision policy in a whole transfer *)

Section PolicyPlan.

Variable toZone : list byte -> string -> list RR.



End PolicyPlan.



Section Policy.

Variable RR_getSize : RR -> Z.
Variable Question_getSize : Question -> Z.
Variable wire : Message -> list byte.
Variable write : list Message -> list byte -> bool.
Variable toZone : list byte -> string -> list RR.
Variable soa : RR.
Variable decode : list byte -> option Message.
Variable network : nat -> Server -> Transport.
Variable KeyMap : Type.
Variable verifyMessage : Message -> KeyMap -> bool.

Hypothesis RR_getSize_nonneg : forall rr, 0 <= RR_getSize rr.
Hypothesis Question_getSize_nonneg : forall qs, 0 <= Question_getSize qs.

Local Abbreviation sendAXFR' :=
  (sendAXFR RR_getSize Question_getSize wire write toZone soa).
Local Abbreviation loadMergeZone' :=
  (loadMergeZone decode network KeyMap verifyMessage).



End Policy.


(** ** The further properties on concrete data *)

Local Abbreviation S_writeAll :=
  (writeAll Sample.rr_size Sample.qs_size Sample.wire Sample.write_ok).
Local Abbreviation S_writer :=
  (new_MessageWriter Sample.rr_size Sample.qs_size Sample.request).
Local Abbreviation S_client := (new_AXFRClient Sample.fromHost Sample.options).
Local Abbreviation S_load :=
  (loadMergeZone Sample.decode Sample.network unit Sample.reject_addresses).
Local Abbreviation S_verifyZone :=
  (verifyZone unit Sample.reject_addresses new_AXFRValidator).

Lemma writeAll_conserves_records_witness :
  exists sent' w',
    S_writeAll S_writer [Sample.soa; Sample.opaque "com." types.NS; Sample.soa]
               [] = (sent', Ok w')
    /\ emitted w' sent'
       = emitted S_writer []
         ++ [Sample.soa; Sample.opaque "com." types.NS; Sample.soa]
    /\ w_written w' = w_written S_writer + 3
    /\ w_req w' = Sample.request.
Proof.
  eexists. eexists. split; [vm_compute; reflexivity|].
  eapply (writeAll_conserves_records
           Sample.rr_size Sample.qs_size Sample.wire Sample.write_ok
           [Sample.soa; Sample.opaque "com." types.NS; Sample.soa]
           S_writer _ [] _).
  vm_compute. reflexivity.
Defined.

Lemma sendAXFR_runs_its_plan_witness :
  transfer_plan Sample.toZone Sample.soa Sample.prefer_local Sample.tree
                Sample.glue_db
  = ([Sample.soa; Sample.opaque "com." types.NS;
      mkRR "de." types.NS (NSRecord "a.nic.de.");
      Sample.opaque "a.nic.de." types.A],
     Ok [], [])
  /\ sendAXFR Sample.rr_size Sample.qs_size Sample.wire Sample.write_ok
              Sample.toZone Sample.soa Sample.prefer_local Sample.request
              Sample.rinfo (Ok Sample.glue_db) Sample.tree []
     = (let '(records, r, log) :=
          transfer_plan Sample.toZone Sample.soa Sample.prefer_local
                        Sample.tree Sample.glue_db in
        (w <~ S_writeAll S_writer records ;;
         match r with
         | Throw e => sthrow e
         | Ok _ =>
             _ <~ flush Sample.rr_size Sample.qs_size Sample.wire
                        Sample.write_ok w ;;
             sret (mkSent (set_answer (setReply new_Message Sample.request)
                                      [Sample.soa]) log)
         end) []).
Proof.
  split; [vm_compute; reflexivity|].
  apply (sendAXFR_runs_its_plan
           Sample.rr_size Sample.qs_size Sample.wire Sample.write_ok
           Sample.toZone Sample.soa Sample.prefer_local Sample.request
           Sample.rinfo Sample.glue_db Sample.tree []).
  - reflexivity.
  - simpl. left. reflexivity.
Defined.

Lemma verifyZone_groups_records_witness :
  S_verifyZone Sample.glue_zone tt = Some (Ok Sample.glue_db)
  /\ map fst (names Sample.glue_db) = ["."; "de."; "a.nic.de."]%string
  /\ OwnerMap.get (names Sample.glue_db) "de."
     = Some {| delegation := true;
               rrs := group (flat_map answer Sample.glue_zone) "de." |}.
Proof.
  assert (H : S_verifyZone Sample.glue_zone tt = Some (Ok Sample.glue_db))
    by (vm_compute; reflexivity).
  split; [exact H|].
  destruct (verifyZone_groups_records unit Sample.reject_addresses
              Sample.glue_zone tt Sample.glue_db H) as [Hk Hget].
  split.
  - rewrite Hk. vm_compute. reflexivity.
  - rewrite Hget. vm_compute. reflexivity.
Defined.

Lemma verifyZone_fails_bogus_witness :
  S_verifyZone Sample.deep_zone tt
  = Some (Throw (BogusUnableToValidate "a.b.c."))
  /\ is_bogus (BogusUnableToValidate "a.b.c.") = true.
Proof.
  assert (H : S_verifyZone Sample.deep_zone tt
              = Some (Throw (BogusUnableToValidate "a.b.c.")))
    by (vm_compute; reflexivity).
  split; [exact H|].
  apply (verifyZone_fails_bogus unit Sample.reject_addresses
           Sample.deep_zone tt _); [|exact H].
  intros rr Hin Ht.
  simpl in Hin.
  repeat (destruct Hin as [<-|Hin]; [first [discriminate Ht | discriminate]|]).
  destruct Hin.
Defined.

Lemma verifyZone_result_is_closed_witness :
  S_verifyZone Sample.glue_zone tt = Some (Ok Sample.glue_db)
  /\ closed Sample.glue_db
  /\ (forall n o, In n (glue Sample.glue_db) ->
                  OwnerMap.get (names Sample.glue_db) n = Some o ->
                  address_only o)
  /\ (forall n, In n (glue Sample.glue_db) ->
                ~ In n (nsecChain Sample.glue_db)).
Proof.
  assert (H : S_verifyZone Sample.glue_zone tt = Some (Ok Sample.glue_db))
    by (vm_compute; reflexivity).
  split; [exact H|].
  exact (verifyZone_result_is_closed unit Sample.reject_addresses
           Sample.glue_zone tt Sample.glue_db H).
Defined.

Lemma verifyZone_verifies_each_name_witness :
  S_verifyZone Sample.glue_zone tt = Some (Ok Sample.glue_db)
  /\ Sample.reject_addresses
       (set_answer new_Message
          [mkRR "de." types.NSEC (NSECRecord "." [types.NS; types.NSEC])])
       tt = true.
Proof.
  assert (H : S_verifyZone Sample.glue_zone tt = Some (Ok Sample.glue_db))
    by (vm_compute; reflexivity).
  split; [exact H|].
  pose proof (verifyZone_verifies_each_name unit Sample.reject_addresses
                Sample.glue_zone tt Sample.glue_db "de." H) as Hv.
  apply Hv.
  - vm_compute. discriminate.
  - simpl. intros [Heq|[]]. discriminate Heq.
Defined.

Lemma sendAXFR_fails_only_in_the_writer_witness :
  S_load Sample.prefer_local S_client tt = Some (Ok Sample.glue_db)
  /\ snd (sendAXFR Sample.rr_size Sample.qs_size Sample.wire
                   Cases.write_refused Sample.toZone Sample.soa
                   Sample.prefer_local Sample.request Sample.rinfo
                   (Ok Sample.glue_db) Sample.tree [])
     = Throw UnableToWrite
  /\ snd (sendAXFR Sample.rr_size Sample.qs_size Sample.wire
                   Sample.write_ok Cases.toZone_big Sample.soa
                   Sample.prefer_local Sample.request Sample.rinfo
                   (Ok Sample.glue_db) Sample.tree [])
     = Throw MessageExceedsSizeLimits
  /\ (let '(sent', r) :=
        sendAXFR Sample.rr_size Sample.qs_size Sample.wire
                 Cases.write_refused Sample.toZone Sample.soa
                 Sample.prefer_local Sample.request Sample.rinfo
                 (Ok Sample.glue_db) Sample.tree [] in
      write_log Sample.wire Cases.write_refused [] sent' r
      /\ forall e, r = Throw e ->
                   e = UnableToWrite \/ e = MessageExceedsSizeLimits)
  /\ (let '(sent', r) :=
        sendAXFR Sample.rr_size Sample.qs_size Sample.wire
                 Sample.write_ok Cases.toZone_big Sample.soa
                 Sample.prefer_local Sample.request Sample.rinfo
                 (Ok Sample.glue_db) Sample.tree [] in
      write_log Sample.wire Sample.write_ok [] sent' r
      /\ forall e, r = Throw e ->
                   e = UnableToWrite \/ e = MessageExceedsSizeLimits).
Proof.
  assert (H : S_load Sample.prefer_local S_client tt = Some (Ok Sample.glue_db))
    by (vm_compute; reflexivity).
  split; [exact H|]. split; [vm_compute; reflexivity|].
  split; [vm_compute; reflexivity|]. split.
  - exact (sendAXFR_fails_only_in_the_writer
             Sample.rr_size Sample.qs_size Sample.wire Cases.write_refused
             Sample.toZone Sample.soa Sample.decode Sample.network unit
             Sample.reject_addresses Sample.prefer_local S_client tt
             Sample.glue_db Sample.request Sample.rinfo Sample.tree [] H).
  - exact (sendAXFR_fails_only_in_the_writer
             Sample.rr_size Sample.qs_size Sample.wire Sample.write_ok
             Cases.toZone_big Sample.soa Sample.decode Sample.network unit
             Sample.reject_addresses Sample.prefer_local S_client tt
             Sample.glue_db Sample.request Sample.rinfo Sample.tree [] H).
Defined.

Lemma sendAXFR_never_sends_signatures_witness :
  S_load Sample.prefer_local S_client tt = Some (Ok Sample.glue_db)
  /\ exists sent out,
       sendAXFR Sample.rr_size Sample.qs_size Sample.wire Sample.write_ok
                Cases.toZone Sample.soa Sample.prefer_local Sample.request
                Sample.rinfo (Ok Sample.glue_db) Cases.tree []
       = (sent, Ok out)
       /\ flat_map answer sent
          = [Sample.soa; Sample.opaque "com." types.NS;
             Sample.opaque "org." types.NS;
             mkRR "de." types.NS (NSRecord "a.nic.de.");
             Sample.opaque "a.nic.de." types.A]
       /\ forall rr, In rr (tl (flat_map answer sent)) ->
                     rr_type rr <> types.RRSIG
                     /\ (rr_type rr = types.NSEC ->
                         local_record Cases.toZone Cases.tree rr).
Proof.
  assert (H : S_load Sample.prefer_local S_client tt = Some (Ok Sample.glue_db))
    by (vm_compute; reflexivity).
  split; [exact H|].
  eexists. eexists. split; [vm_compute; reflexivity|].
  split; [vm_compute; reflexivity|].
  eapply (sendAXFR_never_sends_signatures
           Sample.rr_size Sample.qs_size Sample.wire Sample.write_ok
           Cases.toZone Sample.soa Sample.decode Sample.network unit
           Sample.reject_addresses Sample.prefer_local S_client tt
           Sample.glue_db Sample.request Sample.rinfo Cases.tree _ _ H).
  vm_compute. reflexivity.
Defined.

Lemma sendAXFR_stream_witness :
  base_size Sample.rr_size Sample.qs_size Sample.request
  + Sample.rr_size Sample.soa <= MAX_MESSAGE_SIZE
  /\ exists sent out,
       sendAXFR Sample.rr_size Sample.qs_size Sample.wire Sample.write_ok
                Sample.toZone Sample.soa Sample.prefer_local Sample.request
                Sample.rinfo (Ok Sample.glue_db) Sample.tree []
       = (sent, Ok out)
       /\ flat_map answer sent
          = fst (fst (transfer_plan Sample.toZone Sample.soa Sample.prefer_local
                                    Sample.tree Sample.glue_db))
       /\ (exists first rest records,
             sent = first :: rest /\ answer first = Sample.soa :: records)
       /\ (forall m, In m sent -> answer m <> [])
       /\ answer (response out) = [Sample.soa]
       /\ collisions out
          = snd (transfer_plan Sample.toZone Sample.soa Sample.prefer_local
                               Sample.tree Sample.glue_db).
Proof.
  assert (Hfit : base_size Sample.rr_size Sample.qs_size Sample.request
                 + Sample.rr_size Sample.soa <= MAX_MESSAGE_SIZE)
    by (vm_compute; discriminate).
  split; [exact Hfit|].
  eexists. eexists. split; [vm_compute; reflexivity|].
  eapply (sendAXFR_stream
           Sample.rr_size Sample.qs_size Sample.wire Sample.write_ok
           Sample.toZone Sample.soa Sample_rr_size_nonneg Sample_qs_size_nonneg
           Sample.prefer_local Sample.request Sample.rinfo Sample.glue_db
           Sample.tree _ _ eq_refl (or_introl eq_refl) Hfit).
  vm_compute. reflexivity.
Defined.

Lemma sendAXFR_without_merge_witness :
  S_load Cases.no_merge S_client tt
  = Some (Ok {| glue := []; names := []; nsecChain := [] |})
  /\ exists sent out,
       sendAXFR Sample.rr_size Sample.qs_size Sample.wire Sample.write_ok
                Cases.toZone Sample.soa Cases.no_merge Sample.request
                Sample.rinfo (Ok {| glue := []; names := []; nsecChain := [] |})
                Cases.tree []
       = (sent, Ok out)
       /\ local_dump Cases.toZone Cases.tree
          = [Sample.opaque "com." types.NS; Sample.opaque "org." types.NS]
       /\ flat_map answer sent
          = Sample.soa :: local_dump Cases.toZone Cases.tree
       /\ collisions out = []
       /\ response out
          = set_answer (setReply new_Message Sample.request) [Sample.soa].
Proof.
  assert (H : S_load Cases.no_merge S_client tt
              = Some (Ok {| glue := []; names := []; nsecChain := [] |}))
    by reflexivity.
  split; [exact H|].
  eexists. eexists. split; [vm_compute; reflexivity|].
  split; [vm_compute; reflexivity|].
  eapply (sendAXFR_without_merge
           Sample.rr_size Sample.qs_size Sample.wire Sample.write_ok
           Cases.toZone Sample.soa Sample.decode Sample.network unit
           Sample.reject_addresses Sample_rr_size_nonneg Sample_qs_size_nonneg
           Cases.no_merge S_client tt _ Sample.request Sample.rinfo Cases.tree
           _ _ eq_refl eq_refl (or_introl eq_refl) H).
  vm_compute. reflexivity.
Defined.

Lemma middle_serves_allowed_peers_only_witness :
  exists sent' r,
    middle Sample.rr_size Sample.qs_size Sample.wire Sample.write_ok
           Sample.toZone Sample.soa Sample.prefer_local Sample.request
           Sample.rinfo (Ok Sample.glue_db) Sample.tree [] = (sent', r)
    /\ sent' <> []
    /\ exists qs rest,
         question Sample.request = qs :: rest
         /\ qs_name qs = "."%string /\ qs_type qs = types.AXFR
         /\ ri_tcp Sample.rinfo = true
         /\ In (ri_address Sample.rinfo) (ipList Sample.prefer_local).
Proof.
  eexists. eexists. split; [vm_compute; reflexivity|].
  split; [discriminate|].
  eapply (middle_serves_allowed_peers_only
            Sample.rr_size Sample.qs_size Sample.wire Sample.write_ok
            Sample.toZone Sample.soa Sample.prefer_local Sample.request
            Sample.rinfo (Ok Sample.glue_db) Sample.tree [] _ _).
  - vm_compute. reflexivity.
  - left. discriminate.
Defined.

Lemma dead_network_fails (c : AXFRClient) (j : nat) (s : Server) :
  attempt Sample.decode Cases.dead_network c j s = Some (Throw (Cases.refused j)).
Proof.
  unfold attempt. cbv zeta. now apply exchange_connection_failure.
Qed.

Lemma query_gives_up_after_maxAttempts_witness :
  let c := new_AXFRClient Sample.fromHost Cases.options in
  let l := [mkServer "b.root-servers.net" 53; mkServer "c.root-servers.net" 53] in
  failure_log l 0 Cases.refused 3
  = [mkWarning "b.root-servers.net" 53 (SocketError "ECONNREFUSED");
     mkWarning "c.root-servers.net" 53 (SocketError "ECONNREFUSED");
     mkWarning "b.root-servers.net" 53 (SocketError "ECONNREFUSED")]
  /\ query Sample.decode Cases.dead_network c
     = Some (with_index c ((index c + Z.of_nat (Z.to_nat (maxAttempts c)))
                           mod len l),
             failure_log l (index c) Cases.refused (Z.to_nat (maxAttempts c)),
             Ok None)
  /\ forall (KeyMap : Type) (verifyMessage : Message -> KeyMap -> bool)
            (p : Plugin) (keyMap : KeyMap),
       disableMerge p = false ->
       loadMergeZone Sample.decode Cases.dead_network KeyMap verifyMessage
                     p c keyMap
       = Some (Throw NoZoneData).
Proof.
  intros c l. split; [vm_compute; reflexivity|].
  apply (query_gives_up_after_maxAttempts Sample.decode Cases.dead_network
           c l Cases.refused).
  - reflexivity.
  - discriminate.
  - vm_compute. split; [discriminate | reflexivity].
  - intros j _. apply dead_network_fails.
Defined.

Lemma sample_network_fails (c : AXFRClient) (j : nat) (s : Server) :
  String.eqb (host s) "f.root-servers.net" = false ->
  attempt Sample.decode Sample.network c j s = Some (Throw (Cases.refused j)).
Proof.
  intros Hs. unfold attempt, Sample.network. rewrite Hs. cbv zeta.
  now apply exchange_connection_failure.
Qed.

Lemma query_returns_first_success_witness :
  let l := [mkServer "b.root-servers.net" 53; mkServer "c.root-servers.net" 53;
            mkServer "f.root-servers.net" 53] in
  query Sample.decode Sample.network S_client
  = Some (with_index S_client ((index S_client + Z.of_nat 2) mod len l),
          failure_log l (index S_client) Cases.refused 2,
          Ok (Some [Sample.reply]))
  /\ server_at l (index (with_index S_client
                           ((index S_client + Z.of_nat 2) mod len l))) 0
     = server_at l (index S_client) 2.
Proof.
  intros l.
  apply (query_returns_first_success Sample.decode Sample.network
           S_client l Cases.refused 2 [Sample.reply]).
  - reflexivity.
  - discriminate.
  - vm_compute. split; [discriminate | reflexivity].
  - vm_compute. lia.
  - intros j Hj. apply sample_network_fails.
    destruct j as [|[|j]]; [reflexivity | reflexivity | lia].
  - vm_compute. reflexivity.
Defined.

Lemma query_without_servers_witness :
  opt_servers Cases.no_servers = None
  /\ query Sample.decode Sample.network
           (new_AXFRClient Sample.fromHost Cases.no_servers)
     = Some (new_AXFRClient Sample.fromHost Cases.no_servers, [],
             Throw TypeError).
Proof.
  split; [reflexivity|].
  apply (query_without_servers Sample.decode Sample.network Sample.fromHost
           Cases.no_servers).
  left. reflexivity.
Defined.

Lemma exchange_result_is_whole_witness :
  exchange Sample.decode (new_AXFRQuery Sample.zeros 7 1000)
           (mkTransport 7 Sample.zeros [Sample.part_frame; Sample.stream]
                        SocketClose)
  = Some (Ok [Sample.part; Sample.reply])
  /\ exists body final,
       [Sample.part; Sample.reply] = body ++ [final]
       /\ last_type (answer final) = types.SOA
       /\ Forall (fun m => last_type (answer m) <> types.SOA) body
       /\ first_type (answer (hd final [Sample.part; Sample.reply]))
          = types.SOA
       /\ Forall (fun m => msg_id m = 7 /\ answer m <> [])
                 [Sample.part; Sample.reply].
Proof.
  assert (H : exchange Sample.decode (new_AXFRQuery Sample.zeros 7 1000)
                (mkTransport 7 Sample.zeros [Sample.part_frame; Sample.stream]
                             SocketClose)
              = Some (Ok [Sample.part; Sample.reply]))
    by (vm_compute; reflexivity).
  split; [exact H|].
  exact (exchange_result_is_whole Sample.decode Sample.zeros 7 1000 _ _ H).
Defined.

Lemma exchange_decodes_frames_witness :
  Forall (fun p => len p <= MAX_MESSAGE_SIZE) [Cases.payload]
  /\ List.concat [[x00; x04; x00]; [x07; x00; x00]] = frames [Cases.payload]
  /\ prefix_intact 0 [[x00; x04; x00]; [x07; x00; x00]] = true
  /\ accept_frames Sample.decode (new_AXFRQuery Sample.zeros 7 1000)
                   [Cases.payload]
     = Ok ([Sample.reply], true)
  /\ exchange Sample.decode (new_AXFRQuery Sample.zeros 7 1000)
              (mkTransport 7 Sample.zeros [[x00; x04; x00]; [x07; x00; x00]]
                           SocketClose)
     = Some match accept_frames Sample.decode
                                (new_AXFRQuery Sample.zeros 7 1000)
                                [Cases.payload] with
            | Throw e => Throw e
            | Ok (ms, true) => Ok ms
            | Ok (_, false) => Throw (end_error SocketClose)
            end.
Proof.
  assert (H1 : Forall (fun p => len p <= MAX_MESSAGE_SIZE) [Cases.payload]).
  { constructor; [vm_compute; discriminate | constructor]. }
  assert (H2 : List.concat [[x00; x04; x00]; [x07; x00; x00]]
               = frames [Cases.payload]) by (vm_compute; reflexivity).
  assert (H3 : prefix_intact 0 [[x00; x04; x00]; [x07; x00; x00]] = true)
    by (vm_compute; reflexivity).
  split; [exact H1|]. split; [exact H2|]. split; [exact H3|].
  split; [reflexivity|].
  exact (exchange_decodes_frames Sample.decode Sample.zeros 7 1000
           [Cases.payload] [x00; x04; x00] [[x07; x00; x00]] 7 Sample.zeros
           SocketClose H1 H2 H3).
Defined.

Lemma first_plugin_sends_the_local_zone_witness :
  FirstPlugin.sendAXFR Sample.wire Cases.toZone Sample.soa Sample.soa
                       Cases.first_plugin Sample.request Sample.rinfo
                       Cases.tree []
  = ([set_answer (setReply new_Message Sample.request)
                 [Sample.soa; Sample.opaque "com." types.NS]],
     Ok (set_answer (setReply new_Message Sample.request)
                    [Sample.opaque "org." types.NS; Sample.soa]))
  /\ FirstPlugin.sendAXFR Sample.wire Cases.toZone_big Sample.soa Sample.soa
                          Cases.first_plugin Sample.request Sample.rinfo
                          Cases.tree []
     = ([], Throw MessageExceedsSizeLimits)
  /\ (let '(written, r) :=
        FirstPlugin.sendAXFR Sample.wire Cases.toZone Sample.soa Sample.soa
                             Cases.first_plugin Sample.request Sample.rinfo
                             Cases.tree [] in
      match r with
      | Ok res =>
          flat_map answer written ++ answer res
          = Sample.soa :: local_dump Cases.toZone Cases.tree ++ [Sample.soa]
      | Throw e =>
          e = MessageExceedsSizeLimits
          /\ exists rest,
               Sample.soa :: local_dump Cases.toZone Cases.tree
               = flat_map answer written ++ rest
      end)
  /\ (let '(written, r) :=
        FirstPlugin.sendAXFR Sample.wire Cases.toZone_big Sample.soa
                             Sample.soa Cases.first_plugin Sample.request
                             Sample.rinfo Cases.tree [] in
      match r with
      | Ok res =>
          flat_map answer written ++ answer res
          = Sample.soa :: local_dump Cases.toZone_big Cases.tree
            ++ [Sample.soa]
      | Throw e =>
          e = MessageExceedsSizeLimits
          /\ exists rest,
               Sample.soa :: local_dump Cases.toZone_big Cases.tree
               = flat_map answer written ++ rest
      end).
Proof.
  split; [vm_compute; reflexivity|]. split; [vm_compute; reflexivity|].
  split.
  - apply (first_plugin_sends_the_local_zone Sample.wire Cases.toZone
             Sample.soa Sample.soa Cases.first_plugin Sample.request
             Sample.rinfo Cases.tree).
    + reflexivity.
    + simpl. left. reflexivity.
  - apply (first_plugin_sends_the_local_zone Sample.wire Cases.toZone_big
             Sample.soa Sample.soa Cases.first_plugin Sample.request
             Sample.rinfo Cases.tree).
    + reflexivity.
    + simpl. left. reflexivity.
Defined.

Lemma first_plugin_chunks_witness :
  1 <= FirstPlugin.chunkLength Cases.first_plugin
  /\ let '(written, r) :=
       FirstPlugin.sendAXFR Sample.wire Cases.toZone Sample.soa Sample.soa
                            Cases.first_plugin Sample.request Sample.rinfo
                            Cases.tree [] in
     Forall (fun m => len (answer m)
                      = FirstPlugin.chunkLength Cases.first_plugin + 1)
            written
     /\ forall res,
          r = Ok res ->
          1 <= len (answer res)
            <= FirstPlugin.chunkLength Cases.first_plugin + 1
          /\ List.last (answer res) Sample.soa = Sample.soa.
Proof.
  assert (H : 1 <= FirstPlugin.chunkLength Cases.first_plugin)
    by (vm_compute; discriminate).
  split; [exact H|].
  apply (first_plugin_chunks Sample.wire Cases.toZone Sample.soa Sample.soa
           Cases.first_plugin Sample.request Sample.rinfo Cases.tree H).
  - reflexivity.
  - simpl. left. reflexivity.
Defined.

Lemma plugins_agree_without_merge_witness :
  S_load Cases.no_merge S_client tt
  = Some (Ok {| glue := []; names := []; nsecChain := [] |})
  /\ exists sent out written res,
       sendAXFR Sample.rr_size Sample.qs_size Sample.wire Sample.write_ok
                Cases.toZone Sample.soa Cases.no_merge Sample.request
                Sample.rinfo (Ok {| glue := []; names := []; nsecChain := [] |})
                Cases.tree []
       = (sent, Ok out)
       /\ FirstPlugin.sendAXFR Sample.wire Cases.toZone Sample.soa Sample.soa
                               Cases.first_plugin Sample.request
                               Sample.rinfo Cases.tree []
          = (written, Ok res)
       /\ flat_map answer sent ++ answer (response out)
          = flat_map answer written ++ answer res.
Proof.
  assert (H : S_load Cases.no_merge S_client tt
              = Some (Ok {| glue := []; names := []; nsecChain := [] |}))
    by reflexivity.
  split; [exact H|].
  eexists. eexists. eexists. eexists.
  split; [vm_compute; reflexivity|]. split; [vm_compute; reflexivity|].
  eapply (plugins_agree_without_merge
            Sample.rr_size Sample.qs_size Sample.wire Sample.write_ok
            Cases.toZone Sample.soa Sample.decode Sample.network unit
            Sample.reject_addresses Sample_rr_size_nonneg
            Sample_qs_size_nonneg Cases.no_merge Cases.first_plugin S_client
            tt _ Sample.request Sample.rinfo Cases.tree _ _ _ _
            eq_refl eq_refl (or_introl eq_refl) (or_introl eq_refl) H).
  - vm_compute. reflexivity.
  - vm_compute. reflexivity.
Defined.

Lemma loadMergeZone_uses_a_whole_transfer_witness :
  S_load Sample.prefer_local S_client tt = Some (Ok Sample.glue_db)
  /\ exists j s data body final,
       attempt Sample.decode Sample.network S_client j s = Some (Ok data)
       /\ S_verifyZone data tt = Some (Ok Sample.glue_db)
       /\ data = body ++ [final]
       /\ first_type (answer (hd final data)) = types.SOA
       /\ last_type (answer final) = types.SOA
       /\ Forall (fun m => answer m <> []) data.
Proof.
  assert (H : S_load Sample.prefer_local S_client tt = Some (Ok Sample.glue_db))
    by (vm_compute; reflexivity).
  split; [exact H|].
  exact (loadMergeZone_uses_a_whole_transfer
           Sample.decode Sample.network unit Sample.reject_addresses
           Sample.prefer_local S_client tt Sample.glue_db eq_refl H).
Defined.

Lemma sendAXFR_to_a_closed_connection_witness :
  S_load Sample.prefer_local S_client tt = Some (Ok Sample.glue_db)
  /\ base_size Sample.rr_size Sample.qs_size Sample.request
     <= MAX_MESSAGE_SIZE
  /\ sendAXFR Sample.rr_size Sample.qs_size Sample.wire
              (transfer_callback Cases.toHost [] Sample.rinfo)
              Sample.toZone Sample.soa Sample.prefer_local Sample.request
              Sample.rinfo (Ok Sample.glue_db) Sample.tree []
     = ([set_answer (setReply new_Message Sample.request)
                    [Sample.soa; Sample.opaque "com." types.NS;
                     mkRR "de." types.NS (NSRecord "a.nic.de.");
                     Sample.opaque "a.nic.de." types.A]],
        Throw UnableToWrite)
  /\ (forall data,
        Plugin_write Cases.toHost [] data (ri_port Sample.rinfo)
                     (ri_address Sample.rinfo)
        = ([], false))
  /\ exists m,
       sendAXFR Sample.rr_size Sample.qs_size Sample.wire
                (transfer_callback Cases.toHost [] Sample.rinfo)
                Sample.toZone Sample.soa Sample.prefer_local Sample.request
                Sample.rinfo (Ok Sample.glue_db) Sample.tree []
       = ([m], Throw UnableToWrite).
Proof.
  assert (H : S_load Sample.prefer_local S_client tt = Some (Ok Sample.glue_db))
    by (vm_compute; reflexivity).
  assert (Hb : base_size Sample.rr_size Sample.qs_size Sample.request
               <= MAX_MESSAGE_SIZE) by (vm_compute; discriminate).
  split; [exact H|]. split; [exact Hb|]. split; [vm_compute; reflexivity|].
  exact (sendAXFR_to_a_closed_connection
           Sample.rr_size Sample.qs_size Sample.wire Sample.toZone
           Sample.soa Sample.decode Sample.network unit
           Sample.reject_addresses Cases.toHost Sample_rr_size_nonneg
           Sample_qs_size_nonneg Sample_compress_le [] Sample.prefer_local
           S_client tt Sample.glue_db Sample.request Sample.rinfo Sample.tree
           Hb eq_refl eq_refl (or_introl eq_refl) H).
Defined.

Lemma sendAXFR_messages_within_limit_witness :
  base_size Sample.rr_size Sample.qs_size Sample.request
  + Sample.rr_size Sample.soa <= MAX_MESSAGE_SIZE
  /\ (exists sent out,
        sendAXFR Sample.rr_size Sample.qs_size Sample.wire Sample.write_ok
                 Sample.toZone Sample.soa Sample.prefer_local Sample.request
                 Sample.rinfo (Ok Sample.glue_db) Sample.tree []
        = (sent, Ok out) /\ List.length sent = 1%nat)
  /\ (forall m,
        In m (fst (sendAXFR Sample.rr_size Sample.qs_size Sample.wire
                            Sample.write_ok Sample.toZone Sample.soa
                            Sample.prefer_local Sample.request Sample.rinfo
                            (Ok Sample.glue_db) Sample.tree [])) ->
        len (Sample.wire m) <= MAX_MESSAGE_SIZE)
  /\ snd (sendAXFR Sample.rr_size Sample.qs_size Sample.wire
                   Sample.write_ok Sample.toZone Sample.soa
                   Sample.prefer_local Sample.request Sample.rinfo
                   (Ok Sample.glue_db) Sample.tree [])
     <> Throw MessageExceedsSizeLimits.
Proof.
  assert (Hsoa : base_size Sample.rr_size Sample.qs_size Sample.request
                 + Sample.rr_size Sample.soa <= MAX_MESSAGE_SIZE)
    by (vm_compute; discriminate).
  split; [exact Hsoa|].
  split; [eexists; eexists; split; vm_compute; reflexivity|].
  apply (sendAXFR_messages_within_limit
           Sample.rr_size Sample.qs_size Sample.wire Sample.write_ok
           Sample.toZone Sample.soa Sample_rr_size_nonneg Sample_qs_size_nonneg
           Sample_compress_le Sample.prefer_local Sample.request Sample.rinfo
           Sample.glue_db Sample.tree Hsoa).
  - intros rr [ns [Hns Hrr]].
    simpl in Hns. destruct Hns as [<-|[]].
    simpl in Hrr. destruct Hrr as [<-|[]].
    vm_compute. discriminate.
  - intros n o rr Ho Hrr.
    cbn [OwnerMap.get names Sample.glue_db] in Ho.
    repeat match type of Ho with
           | (if ?b then _ else _) = _ => destruct b
           end;
      try discriminate Ho; injection Ho as <-; simpl in Hrr;
      repeat (destruct Hrr as [<-|Hrr]; [vm_compute; discriminate|]);
      destruct Hrr.
Defined.

Lemma verifyZone_names_the_failing_owner_witness :
  S_verifyZone Sample.deep_zone tt
  = Some (Throw (BogusUnableToValidate "a.b.c."))
  /\ group (flat_map answer Sample.deep_zone) "a.b.c."
     = [Sample.opaque "a.b.c." types.A]
  /\ Sample.reject_addresses
       (set_answer new_Message [Sample.opaque "a.b.c." types.A]) tt = false.
Proof.
  assert (H : S_verifyZone Sample.deep_zone tt
              = Some (Throw (BogusUnableToValidate "a.b.c.")))
    by (vm_compute; reflexivity).
  split; [exact H|].
  split; [vm_compute; reflexivity|].
  exact (proj2 (verifyZone_names_the_failing_owner unit Sample.reject_addresses
                  Sample.deep_zone tt "a.b.c." H)).
Defined.
